(** * Research-To-Blog: the quality-gated pipeline, its citation mapper and its gate

    A shallow embedding of
      - [app/tools/quality.py]   (quality gate),
      - [app/agents/judge.py]    (gate decision, retry eligibility),
      - [app/tools/citation.py]  (citation mapper and validator),
      - [app/tools/scrape.py]    (source de-duplication),
      - [app/graph/state.py], [app/graph/workflow.py] (blackboard orchestrator),
    followed by the properties the specification states about them.

    Conventions of the embedding.
      - A Python [str] is a list of characters (code points 0..255).
      - A Python [float] holding a metric is the rational number it denotes
        ([Q]); comparisons are the exact ones, NaN and infinities have no
        counterpart.
      - A Python [int] is a [Z]; lengths, counters that start at zero and
        character offsets are [nat].
      - A raised exception is the [Raise] result of the error monad below. *)

From Stdlib Require Import ZArith QArith String Ascii List Lia Bool.
From Stdlib Require Import Numbers.DecimalString.
From stdpp Require Import base decidable option list gmap sets strings sorting.
Import ListNotations.

Open Scope string_scope.
Open Scope list_scope.
Open Scope Z_scope.
Open Scope nat_scope.

(* ================================================================== *)
(** ** Strings *)
(* ================================================================== *)

Definition str := list ascii.

(** A string literal of the source. *)
Definition py (s : string) : str := list_ascii_of_string s.

Definition ord (c : ascii) : N := N_of_ascii c.

(** [str.isspace] on one character, and the class [\s] of [re]:
    TAB, LF, VT, FF, CR, FS, GS, RS, US, SPACE, NEL and NBSP. *)
Definition isspace (c : ascii) : bool :=
  let n := ord c in
  ((9 <=? n) && (n <=? 13) || (28 <=? n) && (n <=? 32)
   || (n =? 133) || (n =? 160))%N.

(** The class [\d] of [re]: the decimal digits. *)
Definition isdigit (c : ascii) : bool :=
  let n := ord c in ((48 <=? n) && (n <=? 57))%N.

(** [str.lower] on one character: A-Z and the upper-case letters of
    Latin-1 move 32 code points up. *)
Definition lower_char (c : ascii) : ascii :=
  let n := ord c in
  if ((65 <=? n) && (n <=? 90)
      || (192 <=? n) && (n <=? 222) && negb (n =? 215))%N
  then ascii_of_N (n + 32) else c.

Definition lower (s : str) : str := map lower_char s.

(** [s.startswith(p)] *)
Fixpoint startswith (s p : str) {struct p} : bool :=
  match p, s with
  | [], _ => true
  | _ :: _, [] => false
  | a :: p', b :: s' => Ascii.eqb a b && startswith s' p'
  end.

(** [sub in s] *)
Fixpoint contains (sub s : str) : bool :=
  startswith s sub ||
  match s with
  | [] => false
  | _ :: s' => contains sub s'
  end.

(** The longest prefix whose characters satisfy [p], and what follows it. *)
Fixpoint takewhile (p : ascii -> bool) (s : str) : str :=
  match s with
  | c :: s' => if p c then c :: takewhile p s' else []
  | [] => []
  end.

Fixpoint dropwhile (p : ascii -> bool) (s : str) : str :=
  match s with
  | c :: s' => if p c then dropwhile p s' else s
  | [] => []
  end.

(** [s[i:j]] for [0 <= i], [0 <= j] *)
Definition slice (s : str) (i j : nat) : str := take (j - i) (drop i s).

Definition lstrip (s : str) : str := dropwhile isspace s.
Definition rstrip (s : str) : str := reverse (dropwhile isspace (reverse s)).
(** [s.strip()] *)
Definition strip (s : str) : str := rstrip (lstrip s).

(** [s.index(sub, start)]: the least [i >= start] with [s[i:i+len(sub)] == sub];
    [None] stands for the [ValueError] of a failed search. *)
Fixpoint find_from (fuel : nat) (s sub : str) (i : nat) : option nat :=
  if startswith s sub then Some i
  else match fuel, s with
       | S fuel', _ :: s' => find_from fuel' s' sub (S i)
       | _, _ => None
       end.

Definition index (s sub : str) (start : nat) : option nat :=
  if length s <? start then None
  else find_from (length s) (drop start s) sub start.

(** [s.replace(old, new)] for a non-empty [old]: non-overlapping
    occurrences, leftmost first. *)
Fixpoint replace_fuel (fuel : nat) (s old new : str) : str :=
  match fuel with
  | O => s
  | S fuel' =>
      match s with
      | [] => []
      | c :: s' =>
          if startswith s old
          then new ++ replace_fuel fuel' (drop (length old) s) old new
          else c :: replace_fuel fuel' s' old new
      end
  end.

Definition replace (s old new : str) : str :=
  replace_fuel (S (length s)) s old new.

(** [s.split(sep)] for a one-character separator. *)
Fixpoint split (sep : ascii) (s : str) : list str :=
  match s with
  | [] => [[]]
  | c :: s' =>
      if Ascii.eqb c sep then [] :: split sep s'
      else match split sep s' with
           | [] => [[c]]
           | w :: ws => (c :: w) :: ws
           end
  end.

(* ================================================================== *)
(** ** Numbers and their formatting *)
(* ================================================================== *)

Definition str_of_N (n : N) : str := py (NilZero.string_of_uint (N.to_uint n)).

(** [str(n)] for an [int] *)
Definition str_of_Z (z : Z) : str :=
  if (z <? 0)%Z then py "-" ++ str_of_N (Z.to_N (- z)) else str_of_N (Z.to_N z).

Definition str_of_nat (n : nat) : str := str_of_N (N.of_nat n).

(** [int(s)] for a string of decimal digits. *)
Definition digit_value (c : ascii) : Z := Z.of_N (ord c - 48).

Definition int_of_digits (s : str) : Z :=
  fold_left (fun acc c => (10 * acc + digit_value c)%Z) s 0%Z.

(** [x < y] on the rationals. *)
Definition Qlt_bool (x y : Q) : bool :=
  (Qnum x * QDen y <? Qnum y * QDen x)%Z.

(** The integer nearest to [n / d] for [0 <= n], [0 < d], ties to even. *)
Definition round_half_even (n d : Z) : Z :=
  let f := (n / d)%Z in
  let r := (n mod d)%Z in
  match (2 * r ?= d)%Z with
  | Lt => f
  | Gt => (f + 1)%Z
  | Eq => if Z.even f then f else (f + 1)%Z
  end.

Definition zero_pad (width : nat) (s : str) : str :=
  replicate (width - length s) "0"%char ++ s.

(** [format(x, '.<prec>f')]: fixed-point notation, correctly rounded. *)
Definition format_fixed (prec : nat) (x : Q) : str :=
  let scale := (10 ^ Z.of_nat prec)%Z in
  let n := round_half_even (Z.abs (Qnum x) * scale) (QDen x) in
  (if (Qnum x <? 0)%Z then py "-" else [])
  ++ str_of_N (Z.to_N (n / scale))
  ++ match prec with
     | O => []
     | _ => py "." ++ zero_pad prec (str_of_N (Z.to_N (n mod scale)))
     end.

(** [format(x, '.<prec>%')]: the value times 100, fixed-point, then [%]. *)
Definition format_percent (prec : nat) (x : Q) : str :=
  format_fixed prec (x * 100)%Q ++ py "%".

(* ================================================================== *)
(** ** Errors *)
(* ================================================================== *)

(** The outcome of a call that may raise. *)
Inductive result (A : Type) : Type :=
| Ok (a : A)
| Raise (e : str).
Arguments Ok {A} a.
Arguments Raise {A} e.

#[global] Instance result_ret : MRet result := fun A a => Ok a.

#[global] Instance result_bind : MBind result := fun A B k r =>
  match r with
  | Ok a => k a
  | Raise e => Raise e
  end.

(* ================================================================== *)
(** ** Data model ([app/data/models.py]) *)
(* ================================================================== *)

(** Modelled from the spec: [app/data/models.py] is not part of the
    sources at hand. Each record below carries the fields that the spec's
    data model lists and that the code under [app/] reads or writes; a
    record lives in a module of its class's name, so that the fields keep
    the names they have in the source. *)

(** Modelled from the spec: a [datetime], the civil fields Python keeps. *)
Module datetime.
Record t := mk {
  year : Z; month : Z; day : Z;
  hour : Z; minute : Z; second : Z; microsecond : Z
}.
End datetime.

(** Modelled from the spec: the scalar health indicators of an article. *)
Module QualityMetrics.
Record t := mk {
  citation_coverage : Q;
  unsupported_claim_rate : Q;
  avg_fact_confidence : Q;
  reading_level : Q;
  total_claims : nat;
  total_sources : nat;
  total_citations : nat
}.
End QualityMetrics.

(** Modelled from the spec: the verdict outcomes, with the [value] of
    each enum member. *)
Inductive VerdictType := SUPPORTED | REFUTED | NEEDS_MORE_EVIDENCE | COMMON_KNOWLEDGE.

Definition VerdictType_value (v : VerdictType) : string :=
  match v with
  | SUPPORTED => "supported"
  | REFUTED => "refuted"
  | NEEDS_MORE_EVIDENCE => "needs-more-evidence"
  | COMMON_KNOWLEDGE => "common-knowledge"
  end.

(** Modelled from the spec: one adjudicated claim. *)
Module Verdict.
Record t := mk {
  claim_id : str;
  claim_text : str;
  verdict : VerdictType;
  confidence : Q;
  reasoning : str
}.
End Verdict.

(** Modelled from the spec: the outcome of one gate evaluation. *)
Module GateDecision.
Record t := mk {
  passed : bool;
  gate_name : str;
  metrics : QualityMetrics.t;
  failure_reasons : list str;
  recommendations : list str;
  retry_count : Z
}.
End GateDecision.

(** Modelled from the spec: a fetched document. *)
Module Source.
Record t := mk {
  source_id : str;
  url : str;
  domain : str;
  title : str;
  author : option str;
  published_date : option str;
  raw_content : str;
  content_hash : str;
  fetch_timestamp : datetime.t;
  relevance_score : Q;
  authority_score : Q
}.
End Source.

(** Modelled from the spec: one bibliography entry. *)
Module Citation.
Record t := mk {
  citation_id : Z;
  source_id : str;
  title : str;
  author : option str;
  published_date : option str;
  url : str;
  accessed_date : str
}.
End Citation.

(** Modelled from the spec: a sentence and the citations it carries. *)
Module SentenceCitation.
Record t := mk {
  sentence : str;
  start_char : nat;
  end_char : nat;
  citation_ids : list Z;
  is_common_knowledge : bool
}.
End SentenceCitation.

(** Modelled from the spec: bibliography, sentence mappings, coverage. *)
Module CitationMap.
Record t := mk {
  bibliography : list Citation.t;
  sentence_mappings : list SentenceCitation.t;
  coverage_rate : Q
}.
End CitationMap.

(** The settings of [app/config.py] that the modelled code reads. *)
Module Settings.
Record t := mk {
  min_citation_coverage : Q;
  max_unsupported_claims : Q;
  min_fact_confidence : Q;
  target_reading_level : Q;
  max_pipeline_time_seconds : Z
}.
End Settings.

(** The defaults of the [Field]s of [Settings]. *)
Definition default_settings : Settings.t := {|
  Settings.min_citation_coverage := 95 # 100;
  Settings.max_unsupported_claims := 5 # 100;
  Settings.min_fact_confidence := 7 # 10;
  Settings.target_reading_level := 60;
  Settings.max_pipeline_time_seconds := 600
|}.

(* ================================================================== *)
(** ** [app/tools/quality.py]: the gate *)
(* ================================================================== *)

(** The three locals [passed], [failures], [recommendations] that
    [check_quality_gates] updates as it goes. *)
Definition gate_acc : Type := bool * list str * list str.

Definition check_quality_gates (metrics : QualityMetrics.t)
    (min_citation_coverage max_unsupported_claims min_fact_confidence : Q)
    : gate_acc :=
  let acc : gate_acc := (true, [], []) in
  (* Check citation coverage *)
  let acc : gate_acc :=
    let '(passed, failures, recommendations) := acc in
    if Qlt_bool (QualityMetrics.citation_coverage metrics) min_citation_coverage then
      (false,
       failures ++
         [py "Citation coverage "
          ++ format_percent 1 (QualityMetrics.citation_coverage metrics)
          ++ py " below threshold " ++ format_percent 1 min_citation_coverage],
       recommendations ++
         [py "Add citations to uncited sentences or mark them as common knowledge"])
    else acc in
  (* Check unsupported claims *)
  let acc : gate_acc :=
    let '(passed, failures, recommendations) := acc in
    if Qlt_bool max_unsupported_claims (QualityMetrics.unsupported_claim_rate metrics) then
      (false,
       failures ++
         [py "Unsupported claim rate "
          ++ format_percent 1 (QualityMetrics.unsupported_claim_rate metrics)
          ++ py " exceeds threshold " ++ format_percent 1 max_unsupported_claims],
       recommendations ++
         [py "Find additional sources for unsupported claims or remove them"])
    else acc in
  (* Check fact confidence *)
  let acc : gate_acc :=
    let '(passed, failures, recommendations) := acc in
    if Qlt_bool (QualityMetrics.avg_fact_confidence metrics) min_fact_confidence then
      (false,
       failures ++
         [py "Average fact confidence "
          ++ format_fixed 2 (QualityMetrics.avg_fact_confidence metrics)
          ++ py " below threshold " ++ format_fixed 2 min_fact_confidence],
       recommendations ++
         [py "Strengthen claims with better evidence or use more authoritative sources"])
    else acc in
  (* Reading level warning (not a failure, just a recommendation) *)
  let '(passed, failures, recommendations) := acc in
  if Qlt_bool (QualityMetrics.reading_level metrics) 50 then
    (passed, failures,
     recommendations ++
       [py "Reading level (" ++ format_fixed 0 (QualityMetrics.reading_level metrics)
        ++ py ") is difficult; consider simplifying language for broader audience"])
  else if Qlt_bool 80 (QualityMetrics.reading_level metrics) then
    (passed, failures,
     recommendations ++
       [py "Reading level (" ++ format_fixed 0 (QualityMetrics.reading_level metrics)
        ++ py ") may be too simple; consider adding more sophisticated language if appropriate for audience"])
  else (passed, failures, recommendations).

(* ================================================================== *)
(** ** [app/agents/judge.py]: decision and retry eligibility *)
(* ================================================================== *)

Definition verdict_value_is (value : string) (v : Verdict.t) : bool :=
  String.eqb (VerdictType_value (Verdict.verdict v)) value.

Definition evaluate_quality (settings : Settings.t) (metrics : QualityMetrics.t)
    (verdicts : list Verdict.t) (retry_count : Z) : GateDecision.t :=
  let '(passed, failures, recommendations) :=
    check_quality_gates metrics
      (Settings.min_citation_coverage settings)
      (Settings.max_unsupported_claims settings)
      (Settings.min_fact_confidence settings) in
  (* Add specific recommendations based on verdict analysis *)
  let recommendations :=
    if negb passed then
      let needs_evidence :=
        List.filter (verdict_value_is "needs-more-evidence") verdicts in
      let recommendations :=
        match needs_evidence with
        | [] => recommendations
        | _ :: _ =>
            recommendations ++
              [py "Find additional sources for " ++ str_of_nat (length needs_evidence)
               ++ py " claims marked as 'needs-more-evidence'"]
        end in
      let refuted := List.filter (verdict_value_is "refuted") verdicts in
      match refuted with
      | [] => recommendations
      | _ :: _ =>
          recommendations ++
            [py "Remove or revise " ++ str_of_nat (length refuted)
             ++ py " refuted claims"]
      end
    else recommendations in
  {| GateDecision.passed := passed;
     GateDecision.gate_name := py "quality_gate";
     GateDecision.metrics := metrics;
     GateDecision.failure_reasons := failures;
     GateDecision.recommendations := recommendations;
     GateDecision.retry_count := retry_count |}.

Definition fixable_issues : list str :=
  [py "citation coverage"; py "unsupported claims"; py "fact confidence"].

Definition should_retry (decision : GateDecision.t) (max_retries : Z) : bool :=
  if GateDecision.passed decision then false
  else if (max_retries <=? GateDecision.retry_count decision)%Z then false
  else
    (* Only retry if failures are fixable *)
    let is_fixable :=
      existsb
        (fun failure =>
           existsb (fun issue => contains issue (lower failure)) fixable_issues)
        (GateDecision.failure_reasons decision) in
    if is_fixable then true else false.

(* ================================================================== *)
(** ** Regular-expression scans ([re.finditer]) *)
(* ================================================================== *)

(** [re.finditer(pattern, text)] for a pattern that never matches the
    empty string: [match_at s] is the length of the match of the pattern
    at the start of [s], if there is one. The scan tries each position in
    turn and resumes at the end of a match; it yields the spans
    [(m.start(), m.end())]. Every round consumes a character, so
    [length text] rounds exhaust the text. *)
Fixpoint finditer_fuel (match_at : str -> option nat) (fuel : nat)
    (s : str) (pos : nat) : list (nat * nat) :=
  match fuel, s with
  | S fuel', _ :: s' =>
      match match_at s with
      | Some (S n) =>
          (pos, pos + S n) :: finditer_fuel match_at fuel' (drop (S n) s) (pos + S n)
      | _ => finditer_fuel match_at fuel' s' (S pos)
      end
  | _, _ => []
  end.

Definition finditer (match_at : str -> option nat) (text : str) : list (nat * nat) :=
  finditer_fuel match_at (length text) text 0.

(** The characters of the class [[.!?]]. *)
Definition is_terminal (c : ascii) : bool :=
  Ascii.eqb c "." || Ascii.eqb c "!" || Ascii.eqb c "?".

Definition not_terminal (c : ascii) : bool := negb (is_terminal c).

(** The pattern [([^.!?]+[.!?]+)] at the start of [s]. Both runs are
    greedy, and giving back a character of the first run cannot help
    (a character that is not a terminal would follow it): the match is the
    longest run of other characters and the longest run of terminals
    after it, both non-empty. *)
Definition match_sentence (s : str) : option nat :=
  let body := takewhile not_terminal s in
  let punct := takewhile is_terminal (drop (length body) s) in
  match body, punct with
  | _ :: _, _ :: _ => Some (length body + length punct)
  | _, _ => None
  end.

(** The part [(?: \s* , \s* \d+ )*] and the closing bracket of the marker
    pattern at the start of [s], after the first number. Each run is greedy and is followed by a
    character outside its class, so no shorter run leads to a match. *)
Fixpoint match_marker_tail (fuel : nat) (s : str) : option nat :=
  match s with
  | "]"%char :: _ => Some 1
  | _ =>
      let ws1 := takewhile isspace s in
      match drop (length ws1) s with
      | ","%char :: s2 =>
          let ws2 := takewhile isspace s2 in
          let ds := takewhile isdigit (drop (length ws2) s2) in
          match ds, fuel with
          | _ :: _, S fuel' =>
              n ← match_marker_tail fuel' (drop (length ws2 + length ds) s2);
              Some (length ws1 + 1 + length ws2 + length ds + n)
          | _, _ => None
          end
      | _ => None
      end
  end.

(** The marker pattern, an opening bracket, [\d+ (?: \s* , \s* \d+ )*] as
    group 1 and a closing bracket, at the start of [s]. *)
Definition match_marker (s : str) : option nat :=
  match s with
  | "["%char :: s1 =>
      let ds := takewhile isdigit s1 in
      match ds with
      | _ :: _ =>
          n ← match_marker_tail (length s1) (drop (length ds) s1);
          Some (1 + length ds + n)
      | [] => None
      end
  | _ => None
  end.

(* ================================================================== *)
(** ** [app/tools/citation.py]: the citation mapper and validator *)
(* ================================================================== *)

(** [int(num.strip())] for the pieces of a marker, which are decimal
    digits with blanks around them. *)
Definition int_of_piece (num : str) : Z := int_of_digits (strip num).

Definition extract_citation_markers (text : str) : list (nat * list Z) :=
  map (fun m : nat * nat =>
         let position := m.1 in
         (* group(1): what stands between the brackets *)
         let citation_str := slice text (S m.1) (m.2 - 1) in
         (position, map int_of_piece (split "," citation_str)))
      (finditer match_marker text).

(** The locals [sentences] and [last_end] of [split_into_sentences]. *)
Definition split_acc : Type := list (str * nat * nat) * nat.

(** One round of the loop over the matches. *)
Definition split_step (text : str) (acc : split_acc) (m : nat * nat)
    : result split_acc :=
  let '(sentences, last_end) := acc in
  let sentence := strip (slice text m.1 m.2) in
  match sentence with
  | [] => Ok acc
  | _ :: _ =>
      match index text sentence last_end with
      | None => Raise (py "ValueError: substring not found")
      | Some start =>
          let end_ := start + length sentence in
          Ok (sentences ++ [(sentence, start, end_)], end_)
      end
  end.

(** A [for] loop whose body may raise. *)
Fixpoint for_each {A S : Type} (body : S -> A -> result S) (xs : list A) (s : S)
    : result S :=
  match xs with
  | [] => Ok s
  | x :: xs' => s' ← body s x; for_each body xs' s'
  end.

Definition split_into_sentences (text : str) : result (list (str * nat * nat)) :=
  acc ← for_each (split_step text) (finditer match_sentence text) ([], 0);
  let '(sentences, last_end) := acc : split_acc in
  (* Catch any remaining text *)
  if last_end <? length text then
    match strip (drop last_end text) with
    | [] => Ok sentences
    | remaining => Ok (sentences ++ [(remaining, last_end, length text)])
    end
  else Ok sentences.

(** [strftime("%Y-%m-%d")] *)
Definition strftime_ymd (d : datetime.t) : str :=
  zero_pad 4 (str_of_Z (datetime.year d)) ++ py "-"
  ++ zero_pad 2 (str_of_Z (datetime.month d)) ++ py "-"
  ++ zero_pad 2 (str_of_Z (datetime.day d)).

(** [enumerate(xs, start)] *)
Fixpoint enumerate {A} (xs : list A) (start : Z) : list (Z * A) :=
  match xs with
  | [] => []
  | x :: xs' => (start, x) :: enumerate xs' (start + 1)%Z
  end.

(** The bibliography loop of [create_citation_map]: one [Citation] per
    source, appended in turn. *)
Definition build_bibliography (sources : list Source.t) : list Citation.t :=
  fold_left
    (fun bibliography '(i, source) =>
       bibliography ++
         [{| Citation.citation_id := i;
             Citation.source_id := Source.source_id source;
             Citation.title := Source.title source;
             Citation.author := Source.author source;
             Citation.published_date := Source.published_date source;
             Citation.url := Source.url source;
             Citation.accessed_date := strftime_ymd (Source.fetch_timestamp source) |}])
    (enumerate sources 1%Z) [].

(** [sorted(set(ids))] *)
Definition sorted_set (ids : list Z) : list Z :=
  merge_sort Z.le (elements (list_to_set ids : gset Z)).

(** One round of the loop over the sentences: the locals
    [sentence_mappings] and [cited_count]. *)
Definition map_sentence (text : str) (common_knowledge_phrases : list str)
    (acc : list SentenceCitation.t * nat) (s : str * nat * nat)
    : list SentenceCitation.t * nat :=
  let '(sentence_mappings, cited_count) := acc in
  let '(sentence, start, end_) := s in
  (* Extract citation markers in this sentence *)
  let sentence_text_for_search := slice text start end_ in
  let markers := extract_citation_markers sentence_text_for_search in
  (* Collect all citation IDs *)
  let citation_ids := fold_left (fun ids m => ids ++ m.2) markers [] in
  (* Remove duplicates and sort *)
  let citation_ids := sorted_set citation_ids in
  (* Check if common knowledge *)
  let is_common :=
    existsb (fun phrase => contains (lower phrase) (lower sentence))
            common_knowledge_phrases in
  (* Also check for [COMMON] tag *)
  let '(is_common, sentence) :=
    if contains (py "[COMMON]") sentence
    then (true, strip (replace sentence (py "[COMMON]") []))
    else (is_common, sentence) in
  let mapping :=
    {| SentenceCitation.sentence := sentence;
       SentenceCitation.start_char := start;
       SentenceCitation.end_char := end_;
       SentenceCitation.citation_ids := citation_ids;
       SentenceCitation.is_common_knowledge := is_common |} in
  (sentence_mappings ++ [mapping],
   (* Count cited sentences *)
   if negb (bool_decide (citation_ids = [])) || is_common
   then S cited_count else cited_count).

Definition create_citation_map (text : str) (sources : list Source.t)
    (common_knowledge_phrases : option (list str)) : result CitationMap.t :=
  let common_knowledge_phrases := default [] common_knowledge_phrases in
  (* Create bibliography from sources *)
  let bibliography := build_bibliography sources in
  (* Split into sentences *)
  sentences ← split_into_sentences text;
  (* Map sentences to citations *)
  let '(sentence_mappings, cited_count) :=
    fold_left (map_sentence text common_knowledge_phrases) sentences ([], 0) in
  (* Calculate coverage *)
  let total_sentences := length sentences in
  let coverage_rate :=
    if 0 <? total_sentences
    then (inject_Z (Z.of_nat cited_count) / inject_Z (Z.of_nat total_sentences))%Q
    else 0%Q in
  Ok {| CitationMap.bibliography := bibliography;
        CitationMap.sentence_mappings := sentence_mappings;
        CitationMap.coverage_rate := coverage_rate |}.

(** The loops of [validate_citations] over the mappings and their ids. *)
Definition validate_citations (citation_map : CitationMap.t) : list str :=
  let issues : list str := [] in
  (* Get valid citation IDs *)
  let valid_ids : gset Z :=
    list_to_set (map Citation.citation_id (CitationMap.bibliography citation_map)) in
  (* Check each sentence *)
  let issues :=
    fold_left
      (fun issues mapping =>
         fold_left
           (fun issues cit_id =>
              if bool_decide (cit_id ∉ valid_ids) then
                issues ++
                  [py "Invalid citation ID [" ++ str_of_Z cit_id
                   ++ py "] in sentence: "
                   ++ take 50 (SentenceCitation.sentence mapping) ++ py "..."]
              else issues)
           (SentenceCitation.citation_ids mapping) issues)
      (CitationMap.sentence_mappings citation_map) issues in
  (* Check for uncited sentences (excluding common knowledge) *)
  let uncited :=
    List.filter
      (fun m => bool_decide (SentenceCitation.citation_ids m = [])
                && negb (SentenceCitation.is_common_knowledge m))
      (CitationMap.sentence_mappings citation_map) in
  match uncited with
  | [] => issues
  | _ :: _ =>
      issues ++
        [str_of_nat (length uncited)
         ++ py " sentences lack citations and are not marked as common knowledge"]
  end.

(* ================================================================== *)
(** ** [app/tools/scrape.py]: de-duplication *)
(* ================================================================== *)

(** The locals [seen_hashes], [seen_ids], [unique] of [deduplicate_sources]. *)
Definition dedup_acc : Type := gset str * gset str * list Source.t.

Definition dedup_step (acc : dedup_acc) (source : Source.t) : dedup_acc :=
  let '(seen_hashes, seen_ids, unique) := acc in
  (* Check both content hash and source ID *)
  if bool_decide (Source.content_hash source ∉ seen_hashes)
     && bool_decide (Source.source_id source ∉ seen_ids)
  then ({[Source.content_hash source]} ∪ seen_hashes,
        {[Source.source_id source]} ∪ seen_ids,
        unique ++ [source])
  else acc.

Definition deduplicate_sources (sources : list Source.t) : list Source.t :=
  (fold_left dedup_step sources (∅, ∅, [])).2.

(* ================================================================== *)
(** ** Data model of the pipeline ([app/data/models.py], continued) *)
(* ================================================================== *)

(** Modelled from the spec: the topic specification, an immutable input. *)
Module TopicSpec.
Record t := mk {
  topic : str;
  audience : str;
  goals : list str;
  keywords : list str
}.
End TopicSpec.

(** Modelled from the spec: the outline the planner produces. *)
Module Outline.
Record t := mk {
  title : str;
  sections : list str;
  target_keywords : list str
}.
End Outline.

(** Modelled from the spec: the selected sources. *)
Module SourcePack.
Record t := mk {
  sources : list Source.t;
  selection_rationale : str;
  total_candidates : Z;
  diversity_score : Q
}.
End SourcePack.

(** Modelled from the spec: an atomic statement extracted from a draft. *)
Module Claim.
Record t := mk {
  id : str;
  text : str
}.
End Claim.

(** Modelled from the spec: the draft of one section. *)
Module DraftSection.
Record t := mk {
  content : str;
  claims : list Claim.t
}.
End DraftSection.

(** Modelled from the spec: the article and its citation map. *)
Module Article.
Record t := mk {
  content : str;
  citations : CitationMap.t;
  word_count : Z
}.
End Article.

(** Modelled from the spec: SEO metadata, opaque to the orchestrator. *)
Module SEOMetadata.
Record t := mk {
  meta_title : str;
  meta_description : str
}.
End SEOMetadata.

(** Modelled from the spec: the figures of a finished run. *)
Module RunMetrics.
Record t := mk {
  run_id : str;
  quality : QualityMetrics.t;
  time_elapsed_seconds : Q;
  total_tokens : Z;
  groq_calls : Z;
  started_at : datetime.t;
  completed_at : datetime.t;
  status : str
}.
End RunMetrics.

(* ================================================================== *)
(** ** [app/tools/quality.py]: the metrics *)
(* ================================================================== *)

Definition calculate_citation_coverage (citation_map : CitationMap.t) : Q :=
  CitationMap.coverage_rate citation_map.

Definition is_unsupported (v : Verdict.t) : bool :=
  match Verdict.verdict v with
  | REFUTED | NEEDS_MORE_EVIDENCE => true
  | _ => false
  end.

Definition calculate_unsupported_claim_rate (verdicts : list Verdict.t) : Q :=
  match verdicts with
  | [] => 0
  | _ :: _ =>
      let unsupported_count := length (List.filter is_unsupported verdicts) in
      (inject_Z (Z.of_nat unsupported_count) / inject_Z (Z.of_nat (length verdicts)))%Q
  end.

Definition calculate_average_confidence (verdicts : list Verdict.t) : Q :=
  match verdicts with
  | [] => 0
  | _ :: _ =>
      let total_confidence :=
        fold_left (fun acc v => (acc + Verdict.confidence v)%Q) verdicts 0%Q in
      (total_confidence / inject_Z (Z.of_nat (length verdicts)))%Q
  end.

(** [re.sub(pattern, '', text)]: the text without the spans of the matches. *)
Fixpoint remove_spans (s : str) (pos : nat) (spans : list (nat * nat)) : str :=
  match spans with
  | [] => s
  | (a, b) :: spans' => take (a - pos) s ++ remove_spans (drop (b - pos) s) b spans'
  end.

Definition strip_markers (text : str) : str :=
  remove_spans text 0 (finditer match_marker text).

(** [textstat.flesch_reading_ease] is a library outside the repository:
    it is a parameter, and may raise. *)
Definition calculate_reading_level (flesch_reading_ease : str -> result Q)
    (text : str) : Q :=
  (* Remove citation markers for cleaner analysis *)
  let clean_text := strip_markers text in
  match flesch_reading_ease clean_text with
  | Ok score => score
  | Raise _ => 60 (* Default to "standard" *)
  end.

Definition calculate_quality_metrics (flesch_reading_ease : str -> result Q)
    (citation_map : CitationMap.t) (verdicts : list Verdict.t)
    (article_text : str) (sources_count : nat) : QualityMetrics.t :=
  {| QualityMetrics.citation_coverage := calculate_citation_coverage citation_map;
     QualityMetrics.unsupported_claim_rate := calculate_unsupported_claim_rate verdicts;
     QualityMetrics.avg_fact_confidence := calculate_average_confidence verdicts;
     QualityMetrics.reading_level :=
       calculate_reading_level flesch_reading_ease article_text;
     QualityMetrics.total_claims := length verdicts;
     QualityMetrics.total_sources := sources_count;
     QualityMetrics.total_citations := length (CitationMap.bibliography citation_map) |}.

(* ================================================================== *)
(** ** [app/graph/state.py]: the blackboard *)
(* ================================================================== *)

(** The values a key of the blackboard holds. *)
Inductive value :=
| VNone
| VBool (b : bool)
| VInt (z : Z)
| VStr (s : str)
| VStrList (l : list str)
| VDict (d : list (str * str))
| VDatetime (d : datetime.t)
| VTopicSpec (t : TopicSpec.t)
| VOutline (o : Outline.t)
| VSourcePack (p : SourcePack.t)
| VDrafts (l : list DraftSection.t)
| VVerdicts (l : list Verdict.t)
| VArticle (a : Article.t)
| VSEOMetadata (m : SEOMetadata.t)
| VGateDecision (d : GateDecision.t)
| VQualityMetrics (m : QualityMetrics.t)
| VRunMetrics (m : RunMetrics.t).

(** [PipelineState] is a [TypedDict] with [total=False], a plain [dict] in
    which any key may be missing. *)
Abbreviation PipelineState := (gmap string value).

Definition key_error {A} (key : string) : result A :=
  Raise (py "KeyError: '" ++ py key ++ py "'").

Definition type_error {A} (key : string) : result A :=
  Raise (py "TypeError: '" ++ py key ++ py "'").

(** [state[key]], read at the type the [TypedDict] declares for [key]. *)
Definition getitem {A} (project : value -> option A) (state : PipelineState)
    (key : string) : result A :=
  match state !! key with
  | None => key_error key
  | Some v => match project v with
              | Some a => Ok a
              | None => type_error key
              end
  end.

(** [state.get(key, default)], read at the declared type. *)
Definition get {A} (project : value -> option A) (state : PipelineState)
    (key : string) (default : A) : result A :=
  match state !! key with
  | None => Ok default
  | Some v => match project v with
              | Some a => Ok a
              | None => type_error key
              end
  end.

Definition as_str (v : value) : option str :=
  match v with VStr s => Some s | _ => None end.
Definition as_int (v : value) : option Z :=
  match v with VInt z => Some z | _ => None end.
Definition as_logs (v : value) : option (list str) :=
  match v with VStrList l => Some l | _ => None end.
Definition as_datetime (v : value) : option datetime.t :=
  match v with VDatetime d => Some d | _ => None end.
Definition as_topic_spec (v : value) : option TopicSpec.t :=
  match v with VTopicSpec t => Some t | _ => None end.
Definition as_outline (v : value) : option Outline.t :=
  match v with VOutline o => Some o | _ => None end.
Definition as_source_pack (v : value) : option SourcePack.t :=
  match v with VSourcePack p => Some p | _ => None end.
Definition as_drafts (v : value) : option (list DraftSection.t) :=
  match v with VDrafts l => Some l | _ => None end.
Definition as_verdicts (v : value) : option (list Verdict.t) :=
  match v with VVerdicts l => Some l | _ => None end.
Definition as_article (v : value) : option Article.t :=
  match v with VArticle a => Some a | _ => None end.
Definition as_gate_decision (v : value) : option GateDecision.t :=
  match v with VGateDecision d => Some d | _ => None end.
Definition as_quality_metrics (v : value) : option QualityMetrics.t :=
  match v with VQualityMetrics m => Some m | _ => None end.

(** The truth value of an object in a condition. *)
Definition truthy (v : value) : bool :=
  match v with
  | VNone => false
  | VBool b => b
  | VInt z => negb (z =? 0)%Z
  | VStr s => negb (bool_decide (s = []))
  | VStrList l => negb (bool_decide (l = []))
  | VDict d => match d with [] => false | _ :: _ => true end
  | VDrafts l => match l with [] => false | _ :: _ => true end
  | VVerdicts l => match l with [] => false | _ :: _ => true end
  | _ => true
  end.

(** [PipelineState(k1=v1, ..)]: a dict of the given items. *)
Definition PipelineState_of (items : list (string * value)) : PipelineState :=
  list_to_map items.

Definition create_initial_state (now : datetime.t) (run_id : str)
    (topic_spec : TopicSpec.t) : PipelineState :=
  PipelineState_of
    [("run_id", VStr run_id);
     ("topic_spec", VTopicSpec topic_spec);
     ("started_at", VDatetime now);
     ("retry_count", VInt 0);
     ("should_retry", VBool false);
     ("artifacts", VDict []);
     ("logs", VStrList []);
     ("status", VStr (py "running"));
     ("error", VNone)].

(* ================================================================== *)
(** ** Time *)
(* ================================================================== *)

Definition is_leap (year : Z) : bool :=
  ((year mod 4 =? 0) && (negb (year mod 100 =? 0) || (year mod 400 =? 0)))%Z.

Definition days_before_year (year : Z) : Z :=
  let y := (year - 1)%Z in (y * 365 + y / 4 - y / 100 + y / 400)%Z.

Definition days_before_month (year month : Z) : Z :=
  (nth (Z.to_nat month) [-1; 0; 31; 59; 90; 120; 151; 181; 212; 243; 273; 304; 334] 0
   + (if (2 <? month) && is_leap year then 1 else 0))%Z.

(** [d.toordinal()] *)
Definition toordinal (d : datetime.t) : Z :=
  (days_before_year (datetime.year d)
   + days_before_month (datetime.year d) (datetime.month d)
   + datetime.day d)%Z.

(** [(a - b).total_seconds()] *)
Definition total_seconds_between (a b : datetime.t) : Q :=
  let days := (toordinal a - toordinal b)%Z in
  let secs (d : datetime.t) :=
    (datetime.hour d * 3600 + datetime.minute d * 60 + datetime.second d)%Z in
  let micros := (datetime.microsecond a - datetime.microsecond b)%Z in
  (inject_Z (days * 86400 + (secs a - secs b)) + inject_Z micros / 1000000)%Q.

(* ================================================================== *)
(** ** The collaborators outside the orchestrator *)
(* ================================================================== *)

(** The stages call model inference, search, scraping, the vector store,
    the readability library and the clock. What they answer is not fixed
    by their arguments: each call is indexed by [tick], the number of
    nodes the run has executed before the node that makes the call.
    [duration tick] is the time, in seconds, that node takes. *)
Module World.
Record t := mk {
  plan_article : nat -> TopicSpec.t -> result Outline.t;
  harvest_sources : nat -> Outline.t -> Z -> Z -> result SourcePack.t;
  index_sources : nat -> list Source.t -> result Z;
  summarize_article : nat -> Outline.t -> list Source.t -> result (list DraftSection.t);
  verify_claims : nat -> list Claim.t -> result (list Verdict.t);
  write_article : nat -> Outline.t -> list DraftSection.t -> list Source.t
                  -> list Verdict.t -> result Article.t;
  edit_article : nat -> Article.t -> Q -> result Article.t;
  optimize_seo : nat -> Article.t -> result SEOMetadata.t;
  flesch_reading_ease : str -> result Q;
  (* [get_groq_client().get_usage_stats()]: total_tokens, total_calls *)
  get_usage_stats : nat -> Z * Z;
  (* the [k]-th reading of [datetime.utcnow()] in the node at [tick] *)
  utcnow : nat -> nat -> datetime.t;
  duration : nat -> Q
}.
End World.

(* ================================================================== *)
(** ** [app/graph/workflow.py]: the nodes *)
(* ================================================================== *)

(** Every node takes the collaborators, the settings, the number [tick] of
    nodes executed before it, and the state; it returns the dict of the
    keys it sets. *)

Definition plan_node (w : World.t) (settings : Settings.t) (tick : nat)
    (state : PipelineState) : result PipelineState :=
  _ ← getitem as_str state "run_id";
  topic_spec ← getitem as_topic_spec state "topic_spec";
  outline ← World.plan_article w tick topic_spec;
  logs ← get as_logs state "logs" [];
  Ok (PipelineState_of
        [("outline", VOutline outline);
         ("logs", VStrList (logs ++ [py "✓ Planning complete"]))]).

Definition source_node (w : World.t) (settings : Settings.t) (tick : nat)
    (state : PipelineState) : result PipelineState :=
  _ ← getitem as_str state "run_id";
  outline ← getitem as_outline state "outline";
  source_pack ← World.harvest_sources w tick outline 12 30;
  logs ← get as_logs state "logs" [];
  Ok (PipelineState_of
        [("source_pack", VSourcePack source_pack);
         ("logs", VStrList (logs ++
            [py "✓ Sourced " ++ str_of_nat (length (SourcePack.sources source_pack))
             ++ py " documents"]))]).

Definition index_node (w : World.t) (settings : Settings.t) (tick : nat)
    (state : PipelineState) : result PipelineState :=
  _ ← getitem as_str state "run_id";
  source_pack ← getitem as_source_pack state "source_pack";
  let sources := SourcePack.sources source_pack in
  num_chunks ← World.index_sources w tick sources;
  logs ← get as_logs state "logs" [];
  Ok (PipelineState_of
        [("indexed_chunks", VInt num_chunks);
         ("logs", VStrList (logs ++
            [py "✓ Indexed " ++ str_of_Z num_chunks ++ py " chunks"]))]).

Definition summarize_node (w : World.t) (settings : Settings.t) (tick : nat)
    (state : PipelineState) : result PipelineState :=
  _ ← getitem as_str state "run_id";
  outline ← getitem as_outline state "outline";
  source_pack ← getitem as_source_pack state "source_pack";
  drafts ← World.summarize_article w tick outline (SourcePack.sources source_pack);
  logs ← get as_logs state "logs" [];
  Ok (PipelineState_of
        [("draft_sections", VDrafts drafts);
         ("logs", VStrList (logs ++
            [py "✓ Drafted " ++ str_of_nat (length drafts) ++ py " sections"]))]).

Definition factcheck_node (w : World.t) (settings : Settings.t) (tick : nat)
    (state : PipelineState) : result PipelineState :=
  _ ← getitem as_str state "run_id";
  (* Collect all claims from drafts *)
  drafts ← get as_drafts state "draft_sections" [];
  let all_claims :=
    fold_left (fun all_claims draft => all_claims ++ DraftSection.claims draft)
              drafts [] in
  (* Verify claims *)
  verdicts ← World.verify_claims w tick all_claims;
  logs ← get as_logs state "logs" [];
  Ok (PipelineState_of
        [("verdicts", VVerdicts verdicts);
         ("logs", VStrList (logs ++
            [py "✓ Verified " ++ str_of_nat (length verdicts) ++ py " claims"]))]).

Definition write_node (w : World.t) (settings : Settings.t) (tick : nat)
    (state : PipelineState) : result PipelineState :=
  _ ← getitem as_str state "run_id";
  outline ← getitem as_outline state "outline";
  drafts ← getitem as_drafts state "draft_sections";
  source_pack ← getitem as_source_pack state "source_pack";
  verdicts ← getitem as_verdicts state "verdicts";
  article ← World.write_article w tick outline drafts
              (SourcePack.sources source_pack) verdicts;
  logs ← get as_logs state "logs" [];
  Ok (PipelineState_of
        [("article", VArticle article);
         ("logs", VStrList (logs ++
            [py "✓ Article written (" ++ str_of_Z (Article.word_count article)
             ++ py " words)"]))]).

Definition edit_node (w : World.t) (settings : Settings.t) (tick : nat)
    (state : PipelineState) : result PipelineState :=
  _ ← getitem as_str state "run_id";
  article ← getitem as_article state "article";
  edited_article ← World.edit_article w tick article
                     (Settings.target_reading_level settings);
  logs ← get as_logs state "logs" [];
  Ok (PipelineState_of
        [("article", VArticle edited_article);
         ("logs", VStrList (logs ++ [py "✓ Article edited and refined"]))]).

Definition seo_node (w : World.t) (settings : Settings.t) (tick : nat)
    (state : PipelineState) : result PipelineState :=
  _ ← getitem as_str state "run_id";
  article ← getitem as_article state "article";
  seo_metadata ← World.optimize_seo w tick article;
  logs ← get as_logs state "logs" [];
  Ok (PipelineState_of
        [("seo_metadata", VSEOMetadata seo_metadata);
         ("logs", VStrList (logs ++ [py "✓ SEO metadata generated"]))]).

Definition judge_node (w : World.t) (settings : Settings.t) (tick : nat)
    (state : PipelineState) : result PipelineState :=
  _ ← getitem as_str state "run_id";
  (* Calculate quality metrics *)
  article ← getitem as_article state "article";
  verdicts ← getitem as_verdicts state "verdicts";
  source_pack ← getitem as_source_pack state "source_pack";
  let metrics :=
    calculate_quality_metrics (World.flesch_reading_ease w)
      (Article.citations article) verdicts (Article.content article)
      (length (SourcePack.sources source_pack)) in
  (* Evaluate *)
  retry_count ← get as_int state "retry_count" 0%Z;
  let decision := evaluate_quality settings metrics verdicts retry_count in
  (* Check if should retry *)
  let retry := should_retry decision 2 in
  logs ← get as_logs state "logs" [];
  Ok (PipelineState_of
        [("quality_metrics", VQualityMetrics metrics);
         ("gate_decision", VGateDecision decision);
         ("should_retry", VBool retry);
         ("logs", VStrList (logs ++
            [py "✓ Quality gate: "
             ++ (if GateDecision.passed decision then py "PASSED" else py "FAILED")]))]).

Definition finalize_node (w : World.t) (settings : Settings.t) (tick : nat)
    (state : PipelineState) : result PipelineState :=
  _ ← getitem as_str state "run_id";
  (* Get usage stats *)
  let '(total_tokens, total_calls) := World.get_usage_stats w tick in
  (* Calculate elapsed time *)
  started_at ← getitem as_datetime state "started_at";
  let elapsed := total_seconds_between (World.utcnow w tick 0) started_at in
  (* Create run metrics *)
  run_id ← getitem as_str state "run_id";
  quality ← getitem as_quality_metrics state "quality_metrics";
  decision ← getitem as_gate_decision state "gate_decision";
  let run_metrics :=
    {| RunMetrics.run_id := run_id;
       RunMetrics.quality := quality;
       RunMetrics.time_elapsed_seconds := elapsed;
       RunMetrics.total_tokens := total_tokens;
       RunMetrics.groq_calls := total_calls;
       RunMetrics.started_at := started_at;
       RunMetrics.completed_at := World.utcnow w tick 1;
       RunMetrics.status :=
         if GateDecision.passed decision
         then py "completed" else py "completed_with_warnings" |} in
  logs ← get as_logs state "logs" [];
  Ok (PipelineState_of
        [("run_metrics", VRunMetrics run_metrics);
         ("completed_at", VDatetime (World.utcnow w tick 2));
         ("status", VStr (py "completed"));
         ("logs", VStrList (logs ++ [py "✓ Pipeline complete"]))]).

Definition retry_node (w : World.t) (settings : Settings.t) (tick : nat)
    (state : PipelineState) : result PipelineState :=
  _ ← getitem as_str state "run_id";
  retry_count ← get as_int state "retry_count" 0%Z;
  (* Increment retry count *)
  let new_retry_count := (retry_count + 1)%Z in
  (* Get more sources *)
  outline ← getitem as_outline state "outline";
  additional_sources ← World.harvest_sources w tick outline 5 20;
  (* Merge with existing sources *)
  source_pack ← getitem as_source_pack state "source_pack";
  let all_sources :=
    SourcePack.sources source_pack ++ SourcePack.sources additional_sources in
  (* Update source pack *)
  let updated_pack :=
    {| SourcePack.sources := all_sources;
       SourcePack.selection_rationale := SourcePack.selection_rationale source_pack;
       SourcePack.total_candidates := SourcePack.total_candidates source_pack;
       SourcePack.diversity_score := SourcePack.diversity_score source_pack |} in
  logs ← get as_logs state "logs" [];
  Ok (PipelineState_of
        [("source_pack", VSourcePack updated_pack);
         ("retry_count", VInt new_retry_count);
         ("should_retry", VBool false);
         ("logs", VStrList (logs ++
            [py "↻ Retry " ++ str_of_Z new_retry_count ++ py ": Added "
             ++ str_of_nat (length (SourcePack.sources additional_sources))
             ++ py " more sources"]))]).

(** The conditional edge after the judge. *)
Definition should_retry_check (state : PipelineState) : string :=
  if truthy (default (VBool false) (state !! "should_retry"))
  then "retry" else "finalize".

(* ================================================================== *)
(** ** [app/graph/workflow.py]: the graph and its execution *)
(* ================================================================== *)

Inductive node :=
| plan | source | index_ | summarize | factcheck | write | edit | seo
| judge | retry | finalize.

#[global] Instance node_eq_dec : EqDecision node.
Proof. solve_decision. Defined.

(** [workflow.add_node(name, function)] *)
Definition node_function (w : World.t) (settings : Settings.t) (tick : nat)
    (n : node) : PipelineState -> result PipelineState :=
  match n with
  | plan => plan_node w settings tick
  | source => source_node w settings tick
  | index_ => index_node w settings tick
  | summarize => summarize_node w settings tick
  | factcheck => factcheck_node w settings tick
  | write => write_node w settings tick
  | edit => edit_node w settings tick
  | seo => seo_node w settings tick
  | judge => judge_node w settings tick
  | retry => retry_node w settings tick
  | finalize => finalize_node w settings tick
  end.

(** The edges of [build_workflow]; [None] is [END]. *)
Definition next_node (n : node) (state : PipelineState) : option node :=
  match n with
  | plan => Some source
  | source => Some index_
  | index_ => Some summarize
  | summarize => Some factcheck
  | factcheck => Some write
  | write => Some edit
  | edit => Some seo
  | seo => Some judge
  | judge =>
      if String.eqb (should_retry_check state) "retry"
      then Some retry else Some finalize
  | retry => Some index_
  | finalize => None
  end.

(** How the execution of the compiled graph ends. *)
Inductive outcome :=
| Finished (final : PipelineState)
| Failed (e : str) (accumulated : PipelineState)
| TimedOut (accumulated : PipelineState)
| OutOfSteps (accumulated : PipelineState).

(** [app.ainvoke(state)] under [asyncio.wait_for(.., timeout)]. The graph
    has no reducer on any key: the dict a node returns overwrites the keys
    it holds and leaves the others ([delta ∪ state], left-biased). A node
    whose end would fall after the timeout is cancelled, and what the
    graph has accumulated is the state before that node. [steps] bounds
    the number of nodes the graph library runs. The second component
    lists the nodes that ran to their end, each with the state after it. *)
Fixpoint ainvoke (steps : nat) (w : World.t) (settings : Settings.t)
    (timeout : Q) (n : node) (tick : nat) (elapsed : Q)
    (state : PipelineState) : outcome * list (node * PipelineState) :=
  match steps with
  | O => (OutOfSteps state, [])
  | S steps' =>
      let elapsed' := (elapsed + World.duration w tick)%Q in
      if Qlt_bool timeout elapsed' then (TimedOut state, [])
      else
        match node_function w settings tick n state with
        | Raise e => (Failed e state, [])
        | Ok delta =>
            let state' := delta ∪ state in
            match next_node n state' with
            | None => (Finished state', [(n, state')])
            | Some n' =>
                let '(o, history) :=
                  ainvoke steps' w settings timeout n' (S tick) elapsed' state' in
                (o, (n, state') :: history)
            end
        end
  end.

(** The three keys both [except] branches of [run_pipeline] set on a copy
    of the state it was given. *)
Definition failed_state (state : PipelineState) (error : str)
    (now : datetime.t) : PipelineState :=
  <["completed_at" := VDatetime now]>
    (<["error" := VStr error]> (<["status" := VStr (py "failed")]> state)).

(** [run_pipeline(state)]; [None] when the graph library stops the run for
    having used up its [steps], which is outside the model. *)
Definition run_pipeline (steps : nat) (w : World.t) (settings : Settings.t)
    (now : datetime.t) (state : PipelineState) : option (result PipelineState) :=
  match getitem as_str state "run_id" with
  | Raise e => Some (Raise e)
  | Ok _ =>
      let timeout := Settings.max_pipeline_time_seconds settings in
      match (ainvoke steps w settings (inject_Z timeout) plan 0 0 state).1 with
      | Finished final_state => Some (Ok final_state)
      | TimedOut _ =>
          Some (Ok (failed_state state
                      (py "Pipeline exceeded timeout of " ++ str_of_Z timeout
                       ++ py " seconds") now))
      | Failed e _ => Some (Ok (failed_state state e now))
      | OutOfSteps _ => None
      end
  end.

(* ================================================================== *)
(** * Properties *)
(* ================================================================== *)

(** ** Strings *)

Lemma startswith_app (s p : str) :
  startswith s p = true <-> exists post, s = p ++ post.
Proof.
  revert s. induction p as [|a p IH]; intros s; simpl.
  - split; [intros _; exists s; reflexivity | reflexivity].
  - destruct s as [|b s].
    + split; [discriminate | intros [post H]; discriminate].
    + rewrite andb_true_iff, Ascii.eqb_eq, IH. split.
      * intros [-> [post ->]]. eauto.
      * intros [post H]. injection H as -> ->. eauto.
Qed.

Lemma contains_app (sub s : str) :
  contains sub s = true <-> exists pre post, s = pre ++ sub ++ post.
Proof.
  induction s as [|c s IH]; simpl.
  - rewrite orb_false_r, startswith_app. split.
    + intros [post H]. exists [], post. exact H.
    + intros [pre [post H]]. destruct pre; simpl in H; [eauto | discriminate].
  - rewrite orb_true_iff, startswith_app, IH. split.
    + intros [[post H] | [pre [post H]]].
      * exists [], post. exact H.
      * exists (c :: pre), post. simpl. now rewrite H.
    + intros [pre [post H]]. destruct pre as [|c' pre]; simpl in H.
      * left. eauto.
      * right. injection H as _ ->. eauto.
Qed.

Lemma lower_app (a b : str) : lower (a ++ b) = lower a ++ lower b.
Proof. apply map_app. Qed.

(** ** Rationals *)

Lemma Qlt_bool_negb_le (x y : Q) : Qlt_bool x y = negb (Qle_bool y x).
Proof. unfold Qlt_bool, Qle_bool. apply Z.ltb_antisym. Qed.

Lemma Qlt_bool_false_iff (x y : Q) : Qlt_bool x y = false <-> (y <= x)%Q.
Proof.
  rewrite Qlt_bool_negb_le, negb_false_iff. apply Qle_bool_iff.
Qed.

Lemma Qlt_bool_true_iff (x y : Q) : Qlt_bool x y = true <-> (x < y)%Q.
Proof. unfold Qlt_bool, Qlt. apply Z.ltb_lt. Qed.

(** ** The quality gate (C1) *)

(** The metrics with another reading level. *)
Definition with_reading_level (r : Q) (m : QualityMetrics.t) : QualityMetrics.t :=
  {| QualityMetrics.citation_coverage := QualityMetrics.citation_coverage m;
     QualityMetrics.unsupported_claim_rate := QualityMetrics.unsupported_claim_rate m;
     QualityMetrics.avg_fact_confidence := QualityMetrics.avg_fact_confidence m;
     QualityMetrics.reading_level := r;
     QualityMetrics.total_claims := QualityMetrics.total_claims m;
     QualityMetrics.total_sources := QualityMetrics.total_sources m;
     QualityMetrics.total_citations := QualityMetrics.total_citations m |}.

(** The number of thresholds the metrics violate, each counted on its own. *)
Definition violations (m : QualityMetrics.t) (min_cov max_unsup min_conf : Q) : nat :=
  (if Qle_bool min_cov (QualityMetrics.citation_coverage m) then 0 else 1)
  + (if Qle_bool (QualityMetrics.unsupported_claim_rate m) max_unsup then 0 else 1)
  + (if Qle_bool min_conf (QualityMetrics.avg_fact_confidence m) then 0 else 1).

(** 1 when the reading level lies outside [50, 80], else 0. *)
Definition advisories (m : QualityMetrics.t) : nat :=
  if Qle_bool 50 (QualityMetrics.reading_level m)
     && Qle_bool (QualityMetrics.reading_level m) 80
  then 0 else 1.

(** The metrics of the spec's passing example. *)
Definition passing_example : QualityMetrics.t :=
  {| QualityMetrics.citation_coverage := 98 # 100;
     QualityMetrics.unsupported_claim_rate := 2 # 100;
     QualityMetrics.avg_fact_confidence := 85 # 100;
     QualityMetrics.reading_level := 65;
     QualityMetrics.total_claims := 20;
     QualityMetrics.total_sources := 5;
     QualityMetrics.total_citations := 5 |}.

(** C1. For all metrics and thresholds, [check_quality_gates] passes
    exactly when coverage >= min, unsupported rate <= max and confidence
    >= min; every violated threshold gives one failure reason and one
    recommendation, whatever the other two checks say; a reading level
    outside [50, 80] adds one recommendation and changes neither [passed]
    nor the failure reasons; the spec's example passes with no failure
    reason. *)
Theorem check_quality_gates_spec (m : QualityMetrics.t) (min_cov max_unsup min_conf : Q) :
  let '(passed, failures, recommendations) :=
    check_quality_gates m min_cov max_unsup min_conf in
  (passed = true <->
     (min_cov <= QualityMetrics.citation_coverage m)%Q
     /\ (QualityMetrics.unsupported_claim_rate m <= max_unsup)%Q
     /\ (min_conf <= QualityMetrics.avg_fact_confidence m)%Q)
  /\ length failures = violations m min_cov max_unsup min_conf
  /\ length recommendations = violations m min_cov max_unsup min_conf + advisories m
  /\ (forall r,
        let '(passed', failures', _) :=
          check_quality_gates (with_reading_level r m) min_cov max_unsup min_conf in
        passed' = passed /\ failures' = failures)
  /\ (check_quality_gates passing_example (95 # 100) (5 # 100) (7 # 10)).1
     = (true, []).
Proof.
  unfold check_quality_gates, violations, advisories, with_reading_level; simpl.
  rewrite !Qlt_bool_negb_le.
  destruct (Qle_bool min_cov _) eqn:E1, (Qle_bool _ max_unsup) eqn:E2,
    (Qle_bool min_conf _) eqn:E3; simpl;
    destruct (Qle_bool 50 (QualityMetrics.reading_level m)); simpl;
    try destruct (Qle_bool (QualityMetrics.reading_level m) 80); simpl.
  all: rewrite <- !Qle_bool_iff, E1, E2, E3.
  all: repeat split; try reflexivity; try discriminate; try tauto.
  all: try (intros r; rewrite !Qlt_bool_negb_le; destruct (Qle_bool 50 r); simpl;
            try destruct (Qle_bool r 80); simpl; split; reflexivity).
  all: try (intros (? & ? & ?); discriminate).
Qed.

(** ** Retry eligibility (C3) *)

(** [failure] contains [issue] up to the case of letters: some substring
    of [failure] has the lower-case form of [issue]. *)
Definition contains_ignoring_case (issue failure : str) : Prop :=
  exists pre mid post, failure = pre ++ mid ++ post /\ lower mid = lower issue.

Lemma contains_lower (issue failure : str) :
  lower issue = issue ->
  contains issue (lower failure) = true <-> contains_ignoring_case issue failure.
Proof.
  intros Hlow. rewrite contains_app. unfold contains_ignoring_case. split.
  - intros (pre & post & H). unfold lower in H.
    apply map_eq_app in H as (pre' & rest & -> & Hpre & H).
    apply map_eq_app in H as (mid & post' & -> & Hmid & Hpost).
    exists pre', mid, post'. split; [reflexivity|]. now rewrite Hlow.
  - intros (pre & mid & post & -> & Hmid).
    exists (lower pre), (lower post). rewrite !lower_app, Hmid. now rewrite Hlow.
Qed.

Lemma fixable_issues_lower (issue : str) :
  In issue fixable_issues -> lower issue = issue.
Proof.
  simpl. intros [<- | [<- | [<- | []]]]; reflexivity.
Qed.

(** The decision of the spec's retry example. *)
Definition retry_example (retry_count : Z) : GateDecision.t :=
  {| GateDecision.passed := false;
     GateDecision.gate_name := py "quality_gate";
     GateDecision.metrics :=
       {| QualityMetrics.citation_coverage := 80 # 100;
          QualityMetrics.unsupported_claim_rate := 10 # 100;
          QualityMetrics.avg_fact_confidence := 60 # 100;
          QualityMetrics.reading_level := 65;
          QualityMetrics.total_claims := 20;
          QualityMetrics.total_sources := 5;
          QualityMetrics.total_citations := 5 |};
     GateDecision.failure_reasons := [py "Citation coverage below threshold"];
     GateDecision.recommendations := [py "Add more citations"];
     GateDecision.retry_count := retry_count |}.

(** C3. [should_retry] is false for a decision that passed, false when
    the decision's retry count has reached [max_retries], and otherwise
    true exactly when some failure reason contains, up to the case of
    letters, "citation coverage", "unsupported claims" or "fact
    confidence"; the spec's example retries at count 0 and not at count 2. *)
Theorem should_retry_spec (decision : GateDecision.t) (max_retries : Z) :
  (GateDecision.passed decision = true -> should_retry decision max_retries = false)
  /\ ((max_retries <= GateDecision.retry_count decision)%Z ->
      should_retry decision max_retries = false)
  /\ (GateDecision.passed decision = false ->
      (GateDecision.retry_count decision < max_retries)%Z ->
      (should_retry decision max_retries = true <->
       exists failure issue,
         In failure (GateDecision.failure_reasons decision)
         /\ In issue [py "citation coverage"; py "unsupported claims"; py "fact confidence"]
         /\ contains_ignoring_case issue failure))
  /\ should_retry (retry_example 0) 2 = true
  /\ should_retry (retry_example 2) 2 = false.
Proof.
  unfold should_retry. repeat split.
  - intros ->. reflexivity.
  - intros H. apply Z.leb_le in H. rewrite H. now destruct (GateDecision.passed _).
  - rewrite H. apply Z.leb_gt in H0. rewrite H0.
    destruct (existsb _ _) eqn:E; [intros _ | discriminate].
    apply existsb_exists in E as (failure & Hin & E).
    apply existsb_exists in E as (issue & Hin' & E).
    exists failure, issue. repeat split; try assumption.
    apply contains_lower; auto using fixable_issues_lower.
  - rewrite H. apply Z.leb_gt in H0. rewrite H0.
    intros (failure & issue & Hin & Hin' & Hc).
    assert (E : existsb
      (fun failure => existsb (fun issue => contains issue (lower failure)) fixable_issues)
      (GateDecision.failure_reasons decision) = true).
    { apply existsb_exists. exists failure. split; [assumption|].
      apply existsb_exists. exists issue. split; [assumption|].
      apply contains_lower; auto using fixable_issues_lower. }
    now rewrite E.
Qed.

(** ** More on strings: prefixes, stripping, searching *)

Lemma takewhile_dropwhile (p : ascii -> bool) (s : str) :
  takewhile p s ++ dropwhile p s = s.
Proof.
  induction s as [|c s IH]; simpl; [reflexivity|].
  destruct (p c); simpl; [now rewrite IH | reflexivity].
Qed.


Lemma takewhile_Forall (p : ascii -> bool) (s : str) :
  Forall (fun c => p c = true) (takewhile p s).
Proof.
  induction s as [|c s IH]; simpl; [constructor|].
  destruct (p c) eqn:E; constructor; assumption.
Qed.

Lemma dropwhile_head (p : ascii -> bool) (s : str) c t :
  dropwhile p s = c :: t -> p c = false.
Proof.
  induction s as [|a s IH]; simpl; [discriminate|].
  destruct (p a) eqn:E; [exact IH | intros [= <- _]; exact E].
Qed.




Lemma lstrip_head (s : str) c t : lstrip s = c :: t -> isspace c = false.
Proof. apply dropwhile_head. Qed.








(** ** The scans *)

(** Spans that follow one another inside [lo, hi]. *)
Fixpoint spans_within (lo hi : nat) (spans : list (nat * nat)) : Prop :=
  match spans with
  | [] => True
  | (a, b) :: rest => lo <= a /\ a < b /\ b <= hi /\ spans_within b hi rest
  end.

Lemma spans_within_weaken lo lo' hi spans :
  lo <= lo' -> spans_within lo' hi spans -> spans_within lo hi spans.
Proof.
  destruct spans as [|[a b] rest]; simpl; [auto|].
  intros H (H1 & H2 & H3 & H4). repeat split; auto with lia.
Qed.

Section Finditer.

Variable match_at : str -> option nat.
Hypothesis match_at_length : forall s n, match_at s = Some n -> n <= length s.

Lemma finditer_fuel_within fuel s pos :
  spans_within pos (pos + length s) (finditer_fuel match_at fuel s pos).
Proof.
  revert s pos. induction fuel as [|fuel IH]; intros s pos; simpl; [exact I|].
  destruct s as [|c s]; [exact I|].
  destruct (match_at (c :: s)) as [[|n]|] eqn:E.
  - eapply spans_within_weaken; [|specialize (IH s (S pos)); simpl].
    + apply Nat.le_succ_diag_r.
    + simpl length. now rewrite <- Nat.add_succ_comm.
  - apply match_at_length in E. cbn [spans_within].
    repeat split; auto with lia.
    specialize (IH (drop (S n) (c :: s)) (pos + S n)).
    rewrite length_drop in IH.
    replace (pos + S n + (length (c :: s) - S n)) with (pos + length (c :: s)) in IH
      by lia.
    exact IH.
  - eapply spans_within_weaken; [|specialize (IH s (S pos)); simpl].
    + apply Nat.le_succ_diag_r.
    + simpl length. now rewrite <- Nat.add_succ_comm.
Qed.

Lemma finditer_fuel_match fuel s pos a b :
  In (a, b) (finditer_fuel match_at fuel s pos) ->
  pos <= a /\ match_at (drop (a - pos) s) = Some (b - a).
Proof.
  revert s pos. induction fuel as [|fuel IH]; intros s pos; simpl; [tauto|].
  destruct s as [|c s]; [simpl; tauto|].
  assert (Hskip : In (a, b) (finditer_fuel match_at fuel s (S pos)) ->
                  pos <= a /\ match_at (drop (a - pos) (c :: s)) = Some (b - a)).
  { intros H. apply IH in H as [H1 H2]. split; [lia|].
    replace (a - pos) with (S (a - S pos)) by lia. exact H2. }
  destruct (match_at (c :: s)) as [[|n]|] eqn:E; auto.
  intros [[= <- <-] | H].
  - split; [lia|]. rewrite Nat.sub_diag, drop_0, E. f_equal. lia.
  - apply IH in H as [H1 H2]. split; [lia|].
    rewrite drop_drop in H2.
    replace (S n + (a - (pos + S n))) with (a - pos) in H2 by lia. exact H2.
Qed.

Lemma finditer_within (text : str) :
  spans_within 0 (length text) (finditer match_at text).
Proof. apply (finditer_fuel_within (length text) text 0). Qed.

Lemma finditer_match (text : str) a b :
  In (a, b) (finditer match_at text) -> match_at (drop a text) = Some (b - a).
Proof.
  intros H. apply finditer_fuel_match in H as [_ H].
  now rewrite Nat.sub_0_r in H.
Qed.

(** More rounds than the text has characters change nothing. *)
Lemma finditer_fuel_enough fuel fuel' s pos :
  length s <= fuel -> length s <= fuel' ->
  finditer_fuel match_at fuel s pos = finditer_fuel match_at fuel' s pos.
Proof.
  revert fuel' s pos. induction fuel as [|fuel IH]; intros fuel' s pos Hf Hf'.
  - destruct s; [now destruct fuel' | simpl in Hf; lia].
  - destruct s as [|c s]; [now destruct fuel'|].
    destruct fuel' as [|fuel']; [simpl in Hf'; lia|]. simpl in *.
    destruct (match_at (c :: s)) as [[|n]|] eqn:E.
    + apply IH; lia.
    + f_equal. apply IH; rewrite length_drop; lia.
    + apply IH; lia.
Qed.

End Finditer.





(** ** [split_into_sentences] *)













(** ** The bibliography (C4) *)

Definition citation_of (i : Z) (source : Source.t) : Citation.t :=
  {| Citation.citation_id := i;
     Citation.source_id := Source.source_id source;
     Citation.title := Source.title source;
     Citation.author := Source.author source;
     Citation.published_date := Source.published_date source;
     Citation.url := Source.url source;
     Citation.accessed_date := strftime_ymd (Source.fetch_timestamp source) |}.

(** A loop that appends one item per round builds the list of the items. *)
Lemma fold_left_snoc_map {A B} (g : list B -> A -> list B) (f : A -> B)
    (xs : list A) (acc : list B) :
  (forall acc x, g acc x = acc ++ [f x]) ->
  fold_left g xs acc = acc ++ map f xs.
Proof.
  intros Hg. revert acc. induction xs as [|x xs IH]; intros acc; simpl.
  - now rewrite app_nil_r.
  - rewrite IH, Hg, <- app_assoc. reflexivity.
Qed.

Lemma build_bibliography_map (sources : list Source.t) :
  build_bibliography sources
  = map (fun p : Z * Source.t => citation_of p.1 p.2) (enumerate sources 1).
Proof.
  unfold build_bibliography.
  rewrite (fold_left_snoc_map _ (fun p : Z * Source.t => citation_of p.1 p.2)).
  - reflexivity.
  - intros acc [i s]. reflexivity.
Qed.


Lemma enumerate_lookup {A} (xs : list A) (start : Z) (i : nat) (x : A) :
  xs !! i = Some x -> enumerate xs start !! i = Some ((start + Z.of_nat i)%Z, x).
Proof.
  revert start i. induction xs as [|y xs IH]; intros start i; [discriminate|].
  destruct i as [|i]; simpl.
  - intros [= ->]. now rewrite Z.add_0_r.
  - intros H. rewrite (IH _ _ H). do 2 f_equal. lia.
Qed.




(** ** Sentence mappings (C5, C6) *)


(** A sentence that carries a citation id or the common-knowledge flag. *)
Definition is_cited (m : SentenceCitation.t) : bool :=
  (0 <? length (SentenceCitation.citation_ids m))
  || SentenceCitation.is_common_knowledge m.







Lemma StronglySorted_le_lt (l : list Z) :
  StronglySorted Z.le l -> NoDup l -> StronglySorted Z.lt l.
Proof.
  induction 1 as [|x l Hs IH Hx]; intros Hnd; constructor.
  - apply IH. now apply NoDup_cons_1_2 in Hnd.
  - apply NoDup_cons in Hnd as [Hnin _].
    rewrite Forall_forall in *. intros y Hy.
    specialize (Hx y Hy). assert (x <> y) by (intros ->; contradiction). lia.
Qed.





(** The markers of the test of [extract_citation_markers]. *)
Example extract_citation_markers_example :
  extract_citation_markers
    (py "This is a fact [1]. Another fact [2][3]. Combined [4, 5, 6].")
  = [(15, [1%Z]); (33, [2%Z]); (36, [3%Z]); (50, [4%Z; 5%Z; 6%Z])].
Proof. vm_compute. reflexivity. Qed.


(** ** The validator (C7) *)

Definition in_bibliography (citation_map : CitationMap.t) (id : Z) : bool :=
  existsb (Z.eqb id)
          (map Citation.citation_id (CitationMap.bibliography citation_map)).

(** Every occurrence, in a mapping, of an id that the bibliography lacks. *)
Definition invalid_occurrences (citation_map : CitationMap.t)
    : list (Z * SentenceCitation.t) :=
  flat_map
    (fun m =>
       map (fun id => (id, m))
           (List.filter (fun id => negb (in_bibliography citation_map id))
                        (SentenceCitation.citation_ids m)))
    (CitationMap.sentence_mappings citation_map).

(** The issue for one occurrence: the id, and the first 50 characters of
    the sentence. *)
Definition invalid_issue (o : Z * SentenceCitation.t) : str :=
  py "Invalid citation ID [" ++ str_of_Z o.1 ++ py "] in sentence: "
  ++ take 50 (SentenceCitation.sentence o.2) ++ py "...".

(** The number of sentences with neither a citation id nor the flag. *)
Definition uncited_count (citation_map : CitationMap.t) : nat :=
  length (List.filter (fun m => negb (is_cited m))
                      (CitationMap.sentence_mappings citation_map)).

Lemma fold_left_issues {A} (keep : A -> bool) (f : A -> str) (xs : list A)
    (issues : list str) :
  fold_left (fun issues x => if keep x then issues ++ [f x] else issues) xs issues
  = issues ++ map f (List.filter keep xs).
Proof.
  revert issues. induction xs as [|x xs IH]; intros issues; simpl.
  - now rewrite app_nil_r.
  - rewrite IH. destruct (keep x); simpl; [now rewrite <- app_assoc | reflexivity].
Qed.

Lemma fold_left_flat {A} (g : list str -> A -> list str) (f : A -> list str)
    (xs : list A) (issues : list str) :
  (forall issues x, g issues x = issues ++ f x) ->
  fold_left g xs issues = issues ++ flat_map f xs.
Proof.
  intros Hg. revert issues. induction xs as [|x xs IH]; intros issues; simpl.
  - now rewrite app_nil_r.
  - now rewrite IH, Hg, app_assoc.
Qed.

Lemma filter_ext_bool {A} (f g : A -> bool) (l : list A) :
  (forall x, f x = g x) -> List.filter f l = List.filter g l.
Proof.
  intros H. induction l as [|x l IH]; simpl; [reflexivity|].
  now rewrite H, IH.
Qed.

Lemma in_bibliography_set (citation_map : CitationMap.t) (id : Z) :
  bool_decide
    (id ∉ (list_to_set (map Citation.citation_id
                            (CitationMap.bibliography citation_map)) : gset Z))
  = negb (in_bibliography citation_map id).
Proof.
  unfold in_bibliography.
  destruct (existsb _ _) eqn:E; simpl.
  - apply bool_decide_eq_false. intros H. apply H.
    apply existsb_exists in E as (x & Hin & Hx). apply Z.eqb_eq in Hx as ->.
    apply elem_of_list_to_set. now apply list_elem_of_In.
  - apply bool_decide_eq_true. intros H.
    apply elem_of_list_to_set, list_elem_of_In in H.
    assert (existsb (Z.eqb id)
              (map Citation.citation_id (CitationMap.bibliography citation_map))
            = true); [|congruence].
    apply existsb_exists. exists id. split; [assumption | apply Z.eqb_refl].
Qed.

(** The map of the spec's example, for any single source. *)
Definition cited_and_bad : str := py "Cited [1]. Bad [99].".

(** C7. [validate_citations] returns one issue per occurrence of a
    citation id that the bibliography lacks, naming the id and the first
    50 characters of the sentence, in the order of the mappings, and then,
    when some sentence has neither a citation id nor the common-knowledge
    flag, one issue giving the number of such sentences; for "Cited [1].
    Bad [99]." and one source it returns the single issue naming 99. *)
Theorem validate_citations_spec (citation_map : CitationMap.t) :
  validate_citations citation_map
  = map invalid_issue (invalid_occurrences citation_map)
    ++ match uncited_count citation_map with
       | O => []
       | S _ =>
           [str_of_nat (uncited_count citation_map)
            ++ py " sentences lack citations and are not marked as common knowledge"]
       end
  /\ forall source : Source.t,
       exists m,
         create_citation_map cited_and_bad [source] None = Ok m
         /\ validate_citations m
            = [py "Invalid citation ID [99] in sentence: Bad [99]...."].
Proof.
  split.
  - unfold validate_citations, uncited_count, invalid_occurrences.
    rewrite (fold_left_flat _
      (fun m => map invalid_issue
         (map (fun id => (id, m))
            (List.filter (fun id => negb (in_bibliography citation_map id))
               (SentenceCitation.citation_ids m))))).
    + simpl app at 1.
      assert (Hflat : forall ms : list SentenceCitation.t,
        flat_map (fun m => map invalid_issue
           (map (fun id => (id, m))
              (List.filter (fun id => negb (in_bibliography citation_map id))
                 (SentenceCitation.citation_ids m)))) ms
        = map invalid_issue
            (flat_map (fun m => map (fun id => (id, m))
               (List.filter (fun id => negb (in_bibliography citation_map id))
                  (SentenceCitation.citation_ids m))) ms)).
      { induction ms as [|m ms IH]; simpl; [reflexivity|].
        now rewrite IH, map_app. }
      rewrite Hflat.
      rewrite (filter_ext_bool _ (fun m => negb (is_cited m))).
      * destruct (List.filter _ (CitationMap.sentence_mappings citation_map));
          simpl; [now rewrite app_nil_r | reflexivity].
      * intros m. unfold is_cited.
        destruct (SentenceCitation.citation_ids m); simpl; [|reflexivity].
        now destruct (SentenceCitation.is_common_knowledge m).
    + intros issues m. rewrite fold_left_issues, map_map. f_equal.
      rewrite (filter_ext_bool _ (fun id => negb (in_bibliography citation_map id)))
        by apply in_bibliography_set.
      reflexivity.
  - intros source. eexists. split; [vm_compute; reflexivity|].
    vm_compute. reflexivity.
Qed.

(** ** De-duplication (C10) *)

Definition hashes (sources : list Source.t) : list str :=
  map Source.content_hash sources.

Definition ids (sources : list Source.t) : list str :=
  map Source.source_id sources.

(** [source] shares its content hash or its source id with one of [kept]. *)
Definition clashes (kept : list Source.t) (source : Source.t) : Prop :=
  Source.content_hash source ∈ hashes kept \/ Source.source_id source ∈ ids kept.

(** The state of the loop: the two sets hold the hashes and the ids of the
    sources kept so far. *)
Definition dedup_inv (acc : dedup_acc) : Prop :=
  let '(seen_hashes, seen_ids, unique) := acc in
  seen_hashes = list_to_set (hashes unique)
  /\ seen_ids = list_to_set (ids unique).

Lemma dedup_step_spec (acc : dedup_acc) (source : Source.t) :
  dedup_inv acc ->
  dedup_inv (dedup_step acc source)
  /\ ((clashes acc.2 source /\ (dedup_step acc source).2 = acc.2)
      \/ (~ clashes acc.2 source /\ (dedup_step acc source).2 = acc.2 ++ [source])).
Proof.
  destruct acc as [[seen_hashes seen_ids] unique]. intros [-> ->].
  unfold dedup_step, clashes. simpl.
  destruct (bool_decide (Source.content_hash source ∉ _)) eqn:Eh;
    [destruct (bool_decide (Source.source_id source ∉ _)) eqn:Ei|]; simpl.
  - apply bool_decide_eq_true in Eh, Ei.
    rewrite elem_of_list_to_set in Eh, Ei. split; [|right; split; [tauto | reflexivity]].
    unfold hashes, ids. rewrite !map_app. simpl.
    split; apply set_eq; intros x;
      rewrite elem_of_union, elem_of_singleton, !elem_of_list_to_set,
        elem_of_app, list_elem_of_singleton; tauto.
  - apply bool_decide_eq_false in Ei. rewrite elem_of_list_to_set in Ei.
    split; [split; reflexivity|]. left. split; [|reflexivity].
    right. destruct (decide (Source.source_id source ∈ ids unique)); tauto.
  - apply bool_decide_eq_false in Eh. rewrite elem_of_list_to_set in Eh.
    split; [split; reflexivity|]. left. split; [|reflexivity].
    left. destruct (decide (Source.content_hash source ∈ hashes unique)); tauto.
Qed.

Lemma dedup_inv_init : dedup_inv (∅, ∅, []).
Proof. split; reflexivity. Qed.

Lemma dedup_fold_inv (sources : list Source.t) (acc : dedup_acc) :
  dedup_inv acc -> dedup_inv (fold_left dedup_step sources acc).
Proof.
  revert acc. induction sources as [|s sources IH]; intros acc H; simpl; [exact H|].
  apply IH. now apply dedup_step_spec.
Qed.

(** The loop, one source further. *)
Lemma deduplicate_sources_snoc (sources : list Source.t) (source : Source.t) :
  (clashes (deduplicate_sources sources) source
   /\ deduplicate_sources (sources ++ [source]) = deduplicate_sources sources)
  \/ (~ clashes (deduplicate_sources sources) source
      /\ deduplicate_sources (sources ++ [source])
         = deduplicate_sources sources ++ [source]).
Proof.
  unfold deduplicate_sources. rewrite fold_left_app. simpl.
  apply dedup_step_spec, dedup_fold_inv, dedup_inv_init.
Qed.

Lemma deduplicate_sources_sublist (sources : list Source.t) :
  sublist (deduplicate_sources sources) sources.
Proof.
  induction sources as [|s sources IH] using rev_ind; [constructor|].
  destruct (deduplicate_sources_snoc sources s) as [[_ ->] | [_ ->]].
  - apply sublist_inserts_r. exact IH.
  - apply sublist_app; [exact IH | reflexivity].
Qed.

Lemma deduplicate_sources_NoDup (sources : list Source.t) :
  NoDup (hashes (deduplicate_sources sources))
  /\ NoDup (ids (deduplicate_sources sources)).
Proof.
  induction sources as [|s sources [IH1 IH2]] using rev_ind.
  - split; constructor.
  - destruct (deduplicate_sources_snoc sources s) as [[_ ->] | [Hc ->]];
      [now split|].
    unfold hashes, ids, clashes in *. rewrite !map_app. simpl.
    split; apply NoDup_app; (split; [assumption|]);
      (split; [|apply NoDup_singleton]);
      intros x Hx Hx'; apply list_elem_of_singleton in Hx'; subst; tauto.
Qed.

(** A list without a repeated hash or id is kept whole. *)
Lemma deduplicate_sources_fixed (sources : list Source.t) :
  NoDup (hashes sources) -> NoDup (ids sources) ->
  deduplicate_sources sources = sources.
Proof.
  induction sources as [|s sources IH] using rev_ind; [reflexivity|].
  unfold hashes, ids. rewrite !map_app. simpl.
  intros Hh Hi. apply NoDup_app in Hh as (Hh & Hh' & _).
  apply NoDup_app in Hi as (Hi & Hi' & _).
  specialize (IH Hh Hi).
  destruct (deduplicate_sources_snoc sources s) as [[Hc _] | [_ ->]].
  - exfalso. rewrite IH in Hc. destruct Hc as [Hc | Hc].
    + apply (Hh' _ Hc). now left.
    + apply (Hi' _ Hc). now left.
  - now rewrite IH.
Qed.

(** Three sources: [mirror] repeats the hash of [original] under a new id,
    and [update] repeats the id of [mirror] with a new hash. *)
Definition epoch : datetime.t := datetime.mk 2024 1 15 0 0 0 0.

Definition source_with (source_id content_hash : string) : Source.t :=
  {| Source.source_id := py source_id;
     Source.url := py "https://example.com/" ++ py source_id;
     Source.domain := py "example.com";
     Source.title := py "Title";
     Source.author := None;
     Source.published_date := None;
     Source.raw_content := py "content";
     Source.content_hash := py content_hash;
     Source.fetch_timestamp := epoch;
     Source.relevance_score := 0;
     Source.authority_score := 0 |}.

Definition original : Source.t := source_with "id1" "hash1".
Definition mirror : Source.t := source_with "id2" "hash1".
Definition update : Source.t := source_with "id2" "hash2".

(** C10, as stated, fails: the first source with id "id2" is dropped (its
    hash was seen), and a later source with this id is kept. *)
Lemma first_occurrence_counterexample :
  List.find (fun s => bool_decide (Source.source_id s = py "id2"))
            [original; mirror; update] = Some mirror
  /\ deduplicate_sources [original; mirror; update] = [original; update]
  /\ mirror ∉ deduplicate_sources [original; mirror; update].
Proof.
  split; [reflexivity|]. split; [vm_compute; reflexivity|].
  replace (deduplicate_sources [original; mirror; update]) with [original; update]
    by (vm_compute; reflexivity).
  intros H. apply list_elem_of_In in H. simpl in H.
  destruct H as [H | [H | []]]; discriminate.
Qed.

(** C10, amended. [deduplicate_sources] keeps a source exactly when no
    source kept before it has its content hash or its source id (so the
    first source is kept, and no hash and no id occurs twice in the
    result); it keeps the sources in the order of the input; applied to
    its own result it changes nothing. *)
Theorem deduplicate_sources_spec (sources : list Source.t) :
  (forall source,
     deduplicate_sources (sources ++ [source])
     = if decide (clashes (deduplicate_sources sources) source)
       then deduplicate_sources sources
       else deduplicate_sources sources ++ [source])
  /\ deduplicate_sources [] = []
  /\ NoDup (hashes (deduplicate_sources sources))
  /\ NoDup (ids (deduplicate_sources sources))
  /\ sublist (deduplicate_sources sources) sources
  /\ deduplicate_sources (deduplicate_sources sources) = deduplicate_sources sources.
Proof.
  split; [|split; [reflexivity|]].
  - intros source.
    destruct (deduplicate_sources_snoc sources source) as [[Hc ->] | [Hc ->]];
      destruct (decide _); tauto.
  - destruct (deduplicate_sources_NoDup sources) as [Hh Hi].
    repeat split; auto using deduplicate_sources_sublist.
    now apply deduplicate_sources_fixed.
Qed.

(** ** The nodes *)

(** Splits a successful run of binds into its successful steps. *)
Ltac bind_inv H :=
  repeat (unfold mbind, result_bind in H;
          match type of H with
          | context [match ?r with Ok _ => _ | Raise _ => _ end] =>
              destruct r eqn:?; [|discriminate H]
          end).

Lemma getitem_Ok {A} (project : value -> option A) (state : PipelineState)
    (key : string) (a : A) :
  getitem project state key = Ok a ->
  exists v, state !! key = Some v /\ project v = Some a.
Proof.
  unfold getitem. destruct (state !! key) as [v|]; [|discriminate].
  destruct (project v) eqn:E; [|discriminate]. intros [= <-]. eauto.
Qed.

Lemma as_source_pack_Some v p : as_source_pack v = Some p -> v = VSourcePack p.
Proof. destruct v; simpl; congruence. Qed.

Lemma as_outline_Some v o : as_outline v = Some o -> v = VOutline o.
Proof. destruct v; simpl; congruence. Qed.

(** Looks up, in a dict literal, a key known to be none of its keys. *)
Ltac lookup_other Hkey :=
  unfold PipelineState_of; cbn [list_to_map foldr uncurry fst snd];
  repeat (rewrite lookup_insert_ne;
          [|intros <-; apply Hkey; repeat constructor]);
  apply lookup_empty.

(** The keys the retry node sets. *)
Definition retry_keys : list string :=
  ["source_pack"; "retry_count"; "should_retry"; "logs"].

(** C8. Whenever the retry node runs to its end, the dict it returns
    holds the source pack with the newly fetched sources appended to the
    existing ones (and its other fields as they were), the retry count
    plus one (counted from 0 when the key is missing), [should_retry]
    false and the logs with one entry appended; it holds no other key, so
    that the merge leaves every other key of the blackboard as it was. *)
Theorem retry_node_spec (w : World.t) (settings : Settings.t) (tick : nat)
    (state delta : PipelineState) :
  retry_node w settings tick state = Ok delta ->
  exists retry_count outline source_pack additional logs entry,
    get as_int state "retry_count" 0%Z = Ok retry_count
    /\ state !! "outline" = Some (VOutline outline)
    /\ World.harvest_sources w tick outline 5 20 = Ok additional
    /\ state !! "source_pack" = Some (VSourcePack source_pack)
    /\ get as_logs state "logs" [] = Ok logs
    /\ delta !! "source_pack"
       = Some (VSourcePack
           {| SourcePack.sources :=
                SourcePack.sources source_pack ++ SourcePack.sources additional;
              SourcePack.selection_rationale := SourcePack.selection_rationale source_pack;
              SourcePack.total_candidates := SourcePack.total_candidates source_pack;
              SourcePack.diversity_score := SourcePack.diversity_score source_pack |})
    /\ delta !! "retry_count" = Some (VInt (retry_count + 1))
    /\ delta !! "should_retry" = Some (VBool false)
    /\ delta !! "logs" = Some (VStrList (logs ++ [entry]))
    /\ forall key, key ∉ retry_keys ->
         delta !! key = None /\ (delta ∪ state) !! key = state !! key.
Proof.
  intros H. unfold retry_node in H. bind_inv H. injection H as <-.
  repeat match goal with
         | E : getitem _ _ _ = Ok _ |- _ =>
             apply getitem_Ok in E as (? & ? & ?)
         end.
  repeat match goal with
         | E : as_outline _ = Some _ |- _ => apply as_outline_Some in E as ->
         | E : as_source_pack _ = Some _ |- _ => apply as_source_pack_Some in E as ->
         end.
  do 6 eexists. repeat split; try eassumption; try reflexivity.
  - lookup_other H0.
  - rewrite lookup_union_r; [reflexivity|]. lookup_other H0.
Qed.

(** ** The run of the graph *)

(** One node of a run that finishes. *)
Lemma ainvoke_Finished (steps : nat) (w : World.t) (settings : Settings.t)
    (timeout : Q) (n : node) (tick : nat) (elapsed : Q)
    (state final : PipelineState) (history : list (node * PipelineState)) :
  ainvoke (S steps) w settings timeout n tick elapsed state = (Finished final, history) ->
  exists delta,
    node_function w settings tick n state = Ok delta
    /\ match next_node n (delta ∪ state) with
       | None => final = delta ∪ state /\ history = [(n, delta ∪ state)]
       | Some n' =>
           exists history',
             history = (n, delta ∪ state) :: history'
             /\ ainvoke steps w settings timeout n' (S tick)
                  (elapsed + World.duration w tick)%Q (delta ∪ state)
                = (Finished final, history')
       end.
Proof.
  intros H. cbn [ainvoke] in H. destruct (Qlt_bool _ _); [discriminate|].
  destruct (node_function w settings tick n state) as [delta|e]; [|discriminate].
  exists delta. split; [reflexivity|].
  destruct (next_node n (delta ∪ state)) as [n'|].
  - destruct (ainvoke steps _ _ _ _ _ _ _) as [o history'] eqn:E.
    injection H as -> <-. eauto.
  - injection H as <- <-. auto.
Qed.

(** Only the retry node sets the retry count. *)
Lemma node_keeps_retry_count (w : World.t) (settings : Settings.t) (tick : nat)
    (n : node) (state delta : PipelineState) :
  n <> retry ->
  node_function w settings tick n state = Ok delta ->
  (delta ∪ state) !! "retry_count" = state !! "retry_count".
Proof.
  intros Hn H. apply lookup_union_r.
  destruct n; try congruence; cbn [node_function] in H.
  all: match type of H with ?f _ _ _ _ = _ => unfold f in H end.
  all: try (destruct (World.get_usage_stats w tick)).
  all: bind_inv H; injection H as <-; reflexivity.
Qed.

(** A node with one edge out of it, other than the retry node. *)
Lemma ainvoke_linear (steps : nat) (w : World.t) (settings : Settings.t)
    (timeout : Q) (n n' : node) (tick : nat) (elapsed : Q)
    (state final : PipelineState) (history : list (node * PipelineState)) :
  n <> retry -> (forall s, next_node n s = Some n') ->
  ainvoke (S steps) w settings timeout n tick elapsed state = (Finished final, history) ->
  exists state' history',
    history = (n, state') :: history'
    /\ state' !! "retry_count" = state !! "retry_count"
    /\ ainvoke steps w settings timeout n' (S tick)
         (elapsed + World.duration w tick)%Q state'
       = (Finished final, history').
Proof.
  intros Hn Hnext H. apply ainvoke_Finished in H as (delta & Hd & H).
  rewrite Hnext in H. destruct H as (history' & -> & H).
  exists (delta ∪ state), history'. repeat split; auto.
  eapply node_keeps_retry_count; eauto.
Qed.

(** The judge: its decision carries the retry count of the state, and the
    edge taken is the one [should_retry] chooses. *)
Lemma ainvoke_judge (steps : nat) (w : World.t) (settings : Settings.t)
    (timeout : Q) (tick : nat) (elapsed : Q) (retry_count : Z)
    (state final : PipelineState) (history : list (node * PipelineState)) :
  state !! "retry_count" = Some (VInt retry_count) ->
  ainvoke (S steps) w settings timeout judge tick elapsed state = (Finished final, history) ->
  exists metrics verdicts decision state' history',
    decision = evaluate_quality settings metrics verdicts retry_count
    /\ history = (judge, state') :: history'
    /\ state' !! "retry_count" = Some (VInt retry_count)
    /\ state' !! "gate_decision" = Some (VGateDecision decision)
    /\ ainvoke steps w settings timeout
         (if should_retry decision 2 then retry else finalize) (S tick)
         (elapsed + World.duration w tick)%Q state'
       = (Finished final, history').
Proof.
  intros Hrc H. apply ainvoke_Finished in H as (delta & Hd & H).
  assert (Hkeep := node_keeps_retry_count w settings tick judge state delta
                     ltac:(discriminate) Hd).
  cbn [node_function] in Hd. unfold judge_node in Hd. bind_inv Hd.
  injection Hd as <-.
  match goal with
  | E : get as_int state "retry_count" _ = Ok ?z |- _ =>
      unfold get in E; rewrite Hrc in E; simpl in E; injection E as <-
  end.
  set (metrics := calculate_quality_metrics _ _ _ _ _) in *.
  match goal with
  | _ : getitem as_verdicts _ _ = Ok ?v |- _ =>
      exists metrics, v, (evaluate_quality settings metrics v retry_count)
  end.
  match type of H with
  | context [next_node judge ?s] => set (state' := s) in *
  end.
  assert (Hsr : state' !! "should_retry"
                = Some (VBool (should_retry
                     (evaluate_quality settings metrics a1 retry_count) 2))).
  { apply lookup_union_Some_l. reflexivity. }
  assert (Hgd : state' !! "gate_decision"
                = Some (VGateDecision
                     (evaluate_quality settings metrics a1 retry_count))).
  { apply lookup_union_Some_l. reflexivity. }
  assert (Hrc' : state' !! "retry_count" = Some (VInt retry_count))
    by (rewrite <- Hrc; exact Hkeep).
  cbn [next_node] in H. unfold should_retry_check in H. rewrite Hsr in H.
  cbn [default truthy] in H.
  exists state'. clearbody state'.
  destruct (should_retry _ 2); simpl in H; destruct H as (history' & -> & H);
    exists history'; repeat split; auto.
Qed.

(** The retry node counts one retry more. *)
Lemma retry_node_increments (w : World.t) (settings : Settings.t) (tick : nat)
    (retry_count : Z) (state delta : PipelineState) :
  state !! "retry_count" = Some (VInt retry_count) ->
  retry_node w settings tick state = Ok delta ->
  delta !! "retry_count" = Some (VInt (retry_count + 1)).
Proof.
  intros Hrc H. unfold retry_node in H. bind_inv H. injection H as <-.
  match goal with
  | E : get as_int state "retry_count" _ = Ok ?z |- _ =>
      unfold get in E; rewrite Hrc in E; simpl in E; injection E as <-
  end.
  reflexivity.
Qed.

(** The retry node: one more retry. *)
Lemma ainvoke_retry (steps : nat) (w : World.t) (settings : Settings.t)
    (timeout : Q) (tick : nat) (elapsed : Q) (retry_count : Z)
    (state final : PipelineState) (history : list (node * PipelineState)) :
  state !! "retry_count" = Some (VInt retry_count) ->
  ainvoke (S steps) w settings timeout retry tick elapsed state = (Finished final, history) ->
  exists state' history',
    history = (retry, state') :: history'
    /\ state' !! "retry_count" = Some (VInt (retry_count + 1))
    /\ ainvoke steps w settings timeout index_ (S tick)
         (elapsed + World.duration w tick)%Q state'
       = (Finished final, history').
Proof.
  intros Hrc H. apply ainvoke_Finished in H as (delta & Hd & H).
  cbn [next_node] in H. destruct H as (history' & -> & H).
  exists (delta ∪ state), history'. repeat split; auto.
  cbn [node_function] in Hd.
  apply lookup_union_Some_l. eapply retry_node_increments; eauto.
Qed.

(** The finalize node: the state's status is "completed" in any case, and
    the status of the run metrics tells whether the gate had passed. *)
Lemma ainvoke_finalize (steps : nat) (w : World.t) (settings : Settings.t)
    (timeout : Q) (tick : nat) (elapsed : Q) (decision : GateDecision.t)
    (state final : PipelineState) (history : list (node * PipelineState)) :
  state !! "gate_decision" = Some (VGateDecision decision) ->
  ainvoke (S steps) w settings timeout finalize tick elapsed state
  = (Finished final, history) ->
  history = [(finalize, final)]
  /\ final !! "retry_count" = state !! "retry_count"
  /\ final !! "gate_decision" = Some (VGateDecision decision)
  /\ final !! "status" = Some (VStr (py "completed"))
  /\ exists run_metrics,
       final !! "run_metrics" = Some (VRunMetrics run_metrics)
       /\ RunMetrics.status run_metrics
          = if GateDecision.passed decision
            then py "completed" else py "completed_with_warnings".
Proof.
  intros Hgd H. apply ainvoke_Finished in H as (delta & Hd & H).
  cbn [next_node] in H. destruct H as [-> ->].
  assert (Hkeep := node_keeps_retry_count w settings tick finalize state delta
                     ltac:(discriminate) Hd).
  cbn [node_function] in Hd. unfold finalize_node in Hd.
  destruct (World.get_usage_stats w tick) as [total_tokens total_calls].
  bind_inv Hd. injection Hd as <-.
  match goal with
  | E : getitem as_gate_decision state _ = Ok ?d |- _ =>
      unfold getitem in E; rewrite Hgd in E; simpl in E; injection E as <-
  end.
  split; [reflexivity|]. split; [exact Hkeep|]. split; [|split].
  - rewrite lookup_union_r; [exact Hgd | reflexivity].
  - apply lookup_union_Some_l. reflexivity.
  - eexists. split; [apply lookup_union_Some_l; reflexivity|]. reflexivity.
Qed.

(** ** The retry loop (C2) *)

(** The metrics of the decision violate the coverage or the confidence
    threshold. *)
Definition fails_fixably (settings : Settings.t) (decision : GateDecision.t) : bool :=
  Qlt_bool (QualityMetrics.citation_coverage (GateDecision.metrics decision))
           (Settings.min_citation_coverage settings)
  || Qlt_bool (QualityMetrics.avg_fact_confidence (GateDecision.metrics decision))
              (Settings.min_fact_confidence settings).

Lemma coverage_reason_fixable (x : str) :
  existsb (fun issue => contains issue (lower (py "Citation coverage " ++ x)))
          fixable_issues = true.
Proof.
  assert (H : contains (py "citation coverage")
                       (lower (py "Citation coverage " ++ x)) = true).
  { apply contains_app. exists [], (py " " ++ lower x).
    rewrite lower_app. reflexivity. }
  unfold fixable_issues. cbn [existsb]. now rewrite H.
Qed.

Lemma confidence_reason_fixable (x : str) :
  existsb (fun issue => contains issue (lower (py "Average fact confidence " ++ x)))
          fixable_issues = true.
Proof.
  assert (H : contains (py "fact confidence")
                       (lower (py "Average fact confidence " ++ x)) = true).
  { apply contains_app. exists (py "average "), (py " " ++ lower x).
    rewrite lower_app. reflexivity. }
  unfold fixable_issues. cbn [existsb]. rewrite H. now rewrite !orb_true_r.
Qed.

(** With fewer than [max_retries] retries behind it, a decision whose
    metrics violate the coverage or the confidence threshold is retried. *)
Lemma should_retry_fixable (settings : Settings.t) (metrics : QualityMetrics.t)
    (verdicts : list Verdict.t) (retry_count max_retries : Z) :
  let decision := evaluate_quality settings metrics verdicts retry_count in
  (retry_count < max_retries)%Z ->
  fails_fixably settings decision = true ->
  GateDecision.passed decision = false /\ should_retry decision max_retries = true.
Proof.
  intros decision Hrc. unfold fails_fixably, should_retry.
  assert (Hm : GateDecision.metrics decision = metrics).
  { unfold decision, evaluate_quality.
    now destruct (check_quality_gates _ _ _ _) as [[? ?] ?]. }
  assert (Hc : GateDecision.retry_count decision = retry_count).
  { unfold decision, evaluate_quality.
    now destruct (check_quality_gates _ _ _ _) as [[? ?] ?]. }
  rewrite Hm, Hc. apply Z.leb_gt in Hrc. rewrite Hrc.
  unfold decision, evaluate_quality, check_quality_gates.
  destruct (Qlt_bool (QualityMetrics.citation_coverage metrics) _) eqn:E1;
    destruct (Qlt_bool _ (QualityMetrics.unsupported_claim_rate metrics)) eqn:E2;
    destruct (Qlt_bool (QualityMetrics.avg_fact_confidence metrics) _) eqn:E3;
    try discriminate; intros _;
    destruct (Qlt_bool (QualityMetrics.reading_level metrics) 50);
    try destruct (Qlt_bool 80 (QualityMetrics.reading_level metrics));
    cbn [GateDecision.passed GateDecision.failure_reasons app existsb];
    (split; [reflexivity|]).
  all: rewrite <- ?app_assoc.
  all: rewrite ?coverage_reason_fixable, ?confidence_reason_fixable, ?orb_true_r.
  all: reflexivity.
Qed.

(** Once [max_retries] retries are behind it, no decision is retried. *)
Lemma should_retry_exhausted (decision : GateDecision.t) (max_retries : Z) :
  (max_retries <= GateDecision.retry_count decision)%Z ->
  should_retry decision max_retries = false.
Proof.
  intros H. unfold should_retry. apply Z.leb_le in H. rewrite H.
  now destruct (GateDecision.passed decision).
Qed.

Lemma evaluate_quality_retry_count (settings : Settings.t) (metrics : QualityMetrics.t)
    (verdicts : list Verdict.t) (retry_count : Z) :
  GateDecision.retry_count (evaluate_quality settings metrics verdicts retry_count)
  = retry_count.
Proof.
  unfold evaluate_quality. now destruct (check_quality_gates _ _ _ _) as [[? ?] ?].
Qed.

(** An entry of the history of a run is fine when it is not a Judge
    evaluation, or when the decision it recorded was taken with two
    retries behind it, or else violates the coverage or the confidence
    threshold. *)
Definition judge_fails_fixably (settings : Settings.t)
    (entry : node * PipelineState) : bool :=
  match entry.1 with
  | judge =>
      match entry.2 !! "gate_decision" with
      | Some (VGateDecision decision) =>
          (2 <=? GateDecision.retry_count decision)%Z
          || fails_fixably settings decision
      | _ => false
      end
  | _ => true
  end.

(** The nodes from Index to Judge, which every retry runs again. *)
Definition index_to_judge : list node :=
  [index_; summarize; factcheck; write; edit; seo; judge].

(** The path of a run with two retries. *)
Definition two_retries_path : list node :=
  [plan; source] ++ index_to_judge
  ++ [retry] ++ index_to_judge
  ++ [retry] ++ index_to_judge
  ++ [finalize].

(** One step of a run along a node with a single edge. *)
Ltac linear_step H Hrc Hf :=
  let state' := fresh "state" in
  let history' := fresh "history" in
  let Hkeep := fresh "Hkeep" in
  eapply ainvoke_linear in H as (state' & history' & -> & Hkeep & H);
  [ rewrite Hrc in Hkeep; clear Hrc; rename Hkeep into Hrc;
    cbn [forallb] in Hf; apply andb_true_iff in Hf as [_ Hf]
  | discriminate
  | intros; reflexivity ].

(** One Judge evaluation of a run with fewer than two retries behind it. *)
Ltac judge_step H Hrc Hf :=
  let metrics := fresh "metrics" in
  let verdicts := fresh "verdicts" in
  let decision := fresh "decision" in
  let state' := fresh "state" in
  let history' := fresh "history" in
  let Hd := fresh "Hd" in
  let Hgd := fresh "Hgd" in
  let Hj := fresh "Hj" in
  let Hrc' := fresh "Hrc" in
  apply (ainvoke_judge _ _ _ _ _ _ _ _ _ _ Hrc) in H
    as (metrics & verdicts & decision & state' & history' & Hd & -> & Hrc' & Hgd & H);
  clear Hrc; rename Hrc' into Hrc;
  cbn [forallb] in Hf; apply andb_true_iff in Hf as [Hj Hf];
  unfold judge_fails_fixably in Hj; cbn [fst snd] in Hj; rewrite Hgd in Hj;
  match type of Hd with
  | _ = evaluate_quality ?s ?m ?v ?rc =>
      let Hs := fresh "Hs" in
      let Hlt := fresh "Hlt" in
      assert (Hlt : (rc < 2)%Z) by lia;
      assert (Hs := should_retry_fixable s m v rc 2 Hlt); cbv zeta in Hs;
      rewrite <- Hd in Hs;
      replace (GateDecision.retry_count decision) with rc in Hj
        by (rewrite Hd; symmetry; apply evaluate_quality_retry_count);
      apply Z.leb_gt in Hlt; rewrite Hlt in Hj; cbn [orb] in Hj;
      destruct (Hs Hj) as [_ Hs']; rewrite Hs' in H;
      clear Hs Hs' Hlt
  end;
  clear Hj Hgd Hd.

Ltac retry_step H Hrc Hf :=
  let state' := fresh "state" in
  let history' := fresh "history" in
  let Hrc' := fresh "Hrc" in
  apply (ainvoke_retry _ _ _ _ _ _ _ _ _ _ Hrc) in H
    as (state' & history' & -> & Hrc' & H);
  clear Hrc; rename Hrc' into Hrc;
  cbn [forallb] in Hf; apply andb_true_iff in Hf as [_ Hf].

(** C2, amended. A run that finishes (no stage fails, no timeout, at
    least 26 steps allowed) and in which every Judge evaluation with fewer
    than two retries behind it finds the citation coverage or the average
    fact confidence below its threshold goes through Retry exactly twice,
    and its third Judge evaluation is followed by Finalize whatever the
    gate says; the retry count ends at 2, the status of the final state is
    "completed", and the status of the run metrics is "completed" if the
    last decision passed and "completed_with_warnings" if not. *)
Theorem retry_twice_then_finalize (steps : nat) (w : World.t)
    (settings : Settings.t) (timeout : Q) (now : datetime.t) (run_id : str)
    (topic_spec : TopicSpec.t) (final : PipelineState)
    (history : list (node * PipelineState)) :
  26 <= steps ->
  ainvoke steps w settings timeout plan 0 0
    (create_initial_state now run_id topic_spec) = (Finished final, history) ->
  forallb (judge_fails_fixably settings) history = true ->
  map fst history = two_retries_path
  /\ length (List.filter (fun n => bool_decide (n = retry)) (map fst history)) = 2
  /\ final !! "retry_count" = Some (VInt 2)
  /\ final !! "status" = Some (VStr (py "completed"))
  /\ exists decision run_metrics,
       final !! "gate_decision" = Some (VGateDecision decision)
       /\ final !! "run_metrics" = Some (VRunMetrics run_metrics)
       /\ RunMetrics.status run_metrics
          = if GateDecision.passed decision
            then py "completed" else py "completed_with_warnings".
Proof.
  intros Hsteps H Hf.
  assert (exists k, steps = 26 + k) as [k ->] by (exists (steps - 26); lia).
  cbn [Nat.add] in H.
  assert (Hrc : create_initial_state now run_id topic_spec !! "retry_count"
                = Some (VInt 0)) by reflexivity.
  do 8 linear_step H Hrc Hf.
  judge_step H Hrc Hf. retry_step H Hrc Hf.
  do 6 linear_step H Hrc Hf.
  judge_step H Hrc Hf. retry_step H Hrc Hf.
  do 6 linear_step H Hrc Hf.
  apply (ainvoke_judge _ _ _ _ _ _ _ _ _ _ Hrc) in H
    as (last_metrics & last_verdicts & last_decision & last_state & last_history
        & Hd & -> & Hrc' & Hgd & H).
  rewrite should_retry_exhausted in H
    by (rewrite Hd, evaluate_quality_retry_count; lia).
  apply (ainvoke_finalize _ _ _ _ _ _ _ _ _ _ Hgd) in H
    as (-> & Hfrc & Hfgd & Hst & run_metrics & Hrm & Hrs).
  repeat split; auto.
  - rewrite Hfrc, Hrc'. reflexivity.
  - exists last_decision, run_metrics. auto.
Qed.

(** ** Example runs *)

Definition example_topic : TopicSpec.t :=
  {| TopicSpec.topic := py "How do large language models improve code review";
     TopicSpec.audience := py "software engineers";
     TopicSpec.goals := [py "Explain LLM capabilities in code review"];
     TopicSpec.keywords := [py "LLM"; py "code review"] |}.

Definition example_state : PipelineState :=
  create_initial_state epoch (py "run-1") example_topic.

Definition example_outline : Outline.t :=
  {| Outline.title := py "LLMs in code review";
     Outline.sections := [py "Benefits"; py "Limits"];
     Outline.target_keywords := [py "LLM"] |}.

Definition example_pack : SourcePack.t :=
  {| SourcePack.sources := [original];
     SourcePack.selection_rationale := py "Selected 1 sources from 1 candidates.";
     SourcePack.total_candidates := 1;
     SourcePack.diversity_score := 1 |}.

(** An article whose citation map has the given coverage. *)
Definition example_article (coverage : Q) : Article.t :=
  {| Article.content := py "LLMs find bugs [1]. They help reviewers.";
     Article.citations :=
       {| CitationMap.bibliography := build_bibliography [original];
          CitationMap.sentence_mappings := [];
          CitationMap.coverage_rate := coverage |};
     Article.word_count := 7 |}.

Definition example_verdict (outcome : VerdictType) (confidence : Q) : Verdict.t :=
  {| Verdict.claim_id := py "c1";
     Verdict.claim_text := py "LLMs find bugs";
     Verdict.verdict := outcome;
     Verdict.confidence := confidence;
     Verdict.reasoning := py "As the source says" |}.

(** Collaborators that always answer: every article written has the given
    coverage, every fact check returns the given verdicts, and the node at
    [tick] takes [duration tick] seconds. *)
Definition example_world (coverage : Q) (verdicts : list Verdict.t)
    (duration : nat -> Q) : World.t :=
  {| World.plan_article := fun _ _ => Ok example_outline;
     World.harvest_sources := fun _ _ _ _ => Ok example_pack;
     World.index_sources := fun _ sources => Ok (Z.of_nat (length sources));
     World.summarize_article := fun _ _ _ => Ok [];
     World.verify_claims := fun _ _ => Ok verdicts;
     World.write_article := fun _ _ _ _ _ => Ok (example_article coverage);
     World.edit_article := fun _ article _ => Ok article;
     World.optimize_seo :=
       fun _ _ => Ok {| SEOMetadata.meta_title := py "LLMs in code review";
                        SEOMetadata.meta_description := py "A survey" |};
     World.flesch_reading_ease := fun _ => Ok 65%Q;
     World.get_usage_stats := fun _ => (1000%Z, 12%Z);
     World.utcnow := fun _ _ => epoch;
     World.duration := duration |}.

(** Half of the sentences cited, the one claim supported: the coverage
    check fails at every Judge evaluation. *)
Definition low_coverage_world : World.t :=
  example_world (1 # 2) [example_verdict SUPPORTED (9 # 10)] (fun _ => 1%Q).

Definition low_coverage_run : outcome * list (node * PipelineState) :=
  ainvoke 26 low_coverage_world default_settings 600 plan 0 0 example_state.

(** Every sentence cited, the one claim refuted with high confidence: only
    the unsupported-claim check fails. *)
Definition refuted_world : World.t :=
  example_world 1 [example_verdict REFUTED (9 # 10)] (fun _ => 1%Q).

Definition refuted_run : outcome * list (node * PipelineState) :=
  ainvoke 26 refuted_world default_settings 600 plan 0 0 example_state.

(** The state a run ended with, or had accumulated when it was stopped. *)
Definition last_state (o : outcome) : PipelineState :=
  match o with
  | Finished s | Failed _ s | TimedOut s | OutOfSteps s => s
  end.

Definition is_finished (o : outcome) : bool :=
  match o with Finished _ => true | _ => false end.

Definition is_timed_out (o : outcome) : bool :=
  match o with TimedOut _ => true | _ => false end.

Lemma finished_run (run : outcome * list (node * PipelineState)) :
  is_finished run.1 = true -> run = (Finished (last_state run.1), run.2).
Proof. destruct run as [[] history]; simpl; congruence. Qed.

Lemma timed_out_run (run : outcome * list (node * PipelineState)) :
  is_timed_out run.1 = true -> run = (TimedOut (last_state run.1), run.2).
Proof. destruct run as [[] history]; simpl; congruence. Qed.

(** What a state holds of the gate decision and of the run metrics. *)
Definition gate_passed (state : PipelineState) : option bool :=
  GateDecision.passed <$> (state !! "gate_decision" ≫= as_gate_decision).

Definition gate_failure_reasons (state : PipelineState) : option (list str) :=
  GateDecision.failure_reasons <$> (state !! "gate_decision" ≫= as_gate_decision).

Definition run_metrics_status (state : PipelineState) : option str :=
  match state !! "run_metrics" with
  | Some (VRunMetrics m) => Some (RunMetrics.status m)
  | _ => None
  end.

(** C2, as stated, fails on the terminal status: after two retries and a
    third failing Judge evaluation the run finalizes with the status
    "completed" in its state; "completed_with_warnings" is only the status
    of its run metrics. *)
Lemma terminal_status_counterexample :
  is_finished low_coverage_run.1 = true
  /\ map fst low_coverage_run.2 = two_retries_path
  /\ gate_passed (last_state low_coverage_run.1) = Some false
  /\ last_state low_coverage_run.1 !! "status" = Some (VStr (py "completed"))
  /\ last_state low_coverage_run.1 !! "status"
     <> Some (VStr (py "completed_with_warnings"))
  /\ run_metrics_status (last_state low_coverage_run.1)
     = Some (py "completed_with_warnings").
Proof.
  split; [vm_compute; reflexivity|].
  split; [vm_compute; reflexivity|].
  split; [vm_compute; reflexivity|].
  split; [vm_compute; reflexivity|].
  split; [vm_compute; discriminate|].
  vm_compute; reflexivity.
Qed.

(** A gate that fails on the unsupported-claim rate alone is not retried:
    its failure reason reads "Unsupported claim rate ..", which does not
    contain "unsupported claims". *)
Lemma unsupported_rate_failure_not_retried :
  is_finished refuted_run.1 = true
  /\ map fst refuted_run.2 = [plan; source] ++ index_to_judge ++ [finalize]
  /\ gate_passed (last_state refuted_run.1) = Some false
  /\ gate_failure_reasons (last_state refuted_run.1)
     = Some [py "Unsupported claim rate 100.0% exceeds threshold 5.0%"]
  /\ last_state refuted_run.1 !! "retry_count" = Some (VInt 0).
Proof.
  split; [vm_compute; reflexivity|].
  split; [vm_compute; reflexivity|].
  split; [vm_compute; reflexivity|].
  split; vm_compute; reflexivity.
Qed.

(** The run of [low_coverage_world] is such a run. *)
Lemma retry_twice_then_finalize_witness :
  map fst low_coverage_run.2 = two_retries_path
  /\ length (List.filter (fun n => bool_decide (n = retry))
                         (map fst low_coverage_run.2)) = 2
  /\ last_state low_coverage_run.1 !! "retry_count" = Some (VInt 2)
  /\ last_state low_coverage_run.1 !! "status" = Some (VStr (py "completed"))
  /\ exists decision run_metrics,
       last_state low_coverage_run.1 !! "gate_decision"
       = Some (VGateDecision decision)
       /\ last_state low_coverage_run.1 !! "run_metrics"
          = Some (VRunMetrics run_metrics)
       /\ RunMetrics.status run_metrics
          = if GateDecision.passed decision
            then py "completed" else py "completed_with_warnings".
Proof.
  refine (retry_twice_then_finalize 26 low_coverage_world default_settings 600
            epoch (py "run-1") example_topic
            (last_state low_coverage_run.1) low_coverage_run.2
            (le_n 26) (finished_run low_coverage_run _) _).
  - vm_compute. reflexivity.
  - vm_compute. reflexivity.
Defined.

(** A state in which the retry node runs: the first Judge evaluation has
    asked for a retry. *)
Definition state_before_retry : PipelineState :=
  PipelineState_of
    [("run_id", VStr (py "run-1"));
     ("outline", VOutline example_outline);
     ("source_pack", VSourcePack example_pack);
     ("retry_count", VInt 0);
     ("should_retry", VBool true);
     ("logs", VStrList [py "✓ Quality gate: FAILED"]);
     ("status", VStr (py "running"))].

Definition first_retry_delta : PipelineState :=
  PipelineState_of
    [("source_pack",
      VSourcePack
        {| SourcePack.sources := [original; original];
           SourcePack.selection_rationale := py "Selected 1 sources from 1 candidates.";
           SourcePack.total_candidates := 1;
           SourcePack.diversity_score := 1 |});
     ("retry_count", VInt 1);
     ("should_retry", VBool false);
     ("logs", VStrList [py "✓ Quality gate: FAILED";
                        py "↻ Retry 1: Added 1 more sources"])].

(** The retry node on [state_before_retry]. *)
Lemma retry_node_spec_witness :
  exists retry_count outline source_pack additional logs entry,
    get as_int state_before_retry "retry_count" 0%Z = Ok retry_count
    /\ state_before_retry !! "outline" = Some (VOutline outline)
    /\ World.harvest_sources low_coverage_world 9 outline 5 20 = Ok additional
    /\ state_before_retry !! "source_pack" = Some (VSourcePack source_pack)
    /\ get as_logs state_before_retry "logs" [] = Ok logs
    /\ first_retry_delta !! "source_pack"
       = Some (VSourcePack
           {| SourcePack.sources :=
                SourcePack.sources source_pack ++ SourcePack.sources additional;
              SourcePack.selection_rationale := SourcePack.selection_rationale source_pack;
              SourcePack.total_candidates := SourcePack.total_candidates source_pack;
              SourcePack.diversity_score := SourcePack.diversity_score source_pack |})
    /\ first_retry_delta !! "retry_count" = Some (VInt (retry_count + 1))
    /\ first_retry_delta !! "should_retry" = Some (VBool false)
    /\ first_retry_delta !! "logs" = Some (VStrList (logs ++ [entry]))
    /\ forall key, key ∉ retry_keys ->
         first_retry_delta !! key = None
         /\ (first_retry_delta ∪ state_before_retry) !! key
            = state_before_retry !! key.
Proof.
  apply (retry_node_spec low_coverage_world default_settings 9).
  vm_compute. reflexivity.
Defined.

(** ** The timeout (C9) *)

(** The keys the timeout branch sets. *)
Definition failure_keys : list string := ["status"; "error"; "completed_at"].

Definition timeout_message (settings : Settings.t) : str :=
  py "Pipeline exceeded timeout of "
  ++ str_of_Z (Settings.max_pipeline_time_seconds settings) ++ py " seconds".

(** Planning takes a second, sourcing more than the ten minutes allowed. *)
Definition slow_world : World.t :=
  example_world 1 [example_verdict SUPPORTED (9 # 10)]
    (fun tick => match tick with 1 => 700%Q | _ => 1%Q end).

Definition slow_run : outcome * list (node * PipelineState) :=
  ainvoke 26 slow_world default_settings
    (inject_Z (Settings.max_pipeline_time_seconds default_settings))
    plan 0 0 example_state.

(** C9, as stated, fails: when the timeout strikes after planning, the
    graph has accumulated an outline and a log entry, and the state
    [run_pipeline] returns has neither. *)
Lemma timeout_counterexample :
  is_timed_out slow_run.1 = true
  /\ last_state slow_run.1 !! "outline" = Some (VOutline example_outline)
  /\ last_state slow_run.1 !! "logs" = Some (VStrList [py "✓ Planning complete"])
  /\ exists final,
       run_pipeline 26 slow_world default_settings epoch example_state
       = Some (Ok final)
       /\ final !! "outline" = None
       /\ final !! "logs" = Some (VStrList []).
Proof.
  split; [vm_compute; reflexivity|].
  split; [vm_compute; reflexivity|].
  split; [vm_compute; reflexivity|].
  exists (failed_state example_state (timeout_message default_settings) epoch).
  split; [|split; vm_compute; reflexivity].
  unfold run_pipeline.
  replace (getitem as_str example_state "run_id") with (Ok (A:=str) (py "run-1"))
    by (vm_compute; reflexivity).
  fold slow_run. rewrite (timed_out_run slow_run) by (vm_compute; reflexivity).
  reflexivity.
Qed.

(** C9, amended. When the run exceeds the timeout (600 seconds by
    default), [run_pipeline] returns the state it was given with status
    "failed", the message "Pipeline exceeded timeout of <timeout> seconds"
    as error and [completed_at] set; every other key is as in the state
    given to [run_pipeline], whatever the stages had produced. *)
Theorem run_pipeline_timeout (steps : nat) (w : World.t) (settings : Settings.t)
    (now : datetime.t) (state accumulated : PipelineState) (run_id : str)
    (history : list (node * PipelineState)) :
  state !! "run_id" = Some (VStr run_id) ->
  ainvoke steps w settings (inject_Z (Settings.max_pipeline_time_seconds settings))
    plan 0 0 state = (TimedOut accumulated, history) ->
  Settings.max_pipeline_time_seconds default_settings = 600%Z
  /\ exists final,
       run_pipeline steps w settings now state = Some (Ok final)
       /\ final !! "status" = Some (VStr (py "failed"))
       /\ final !! "error" = Some (VStr (timeout_message settings))
       /\ final !! "completed_at" = Some (VDatetime now)
       /\ forall key, key ∉ failure_keys -> final !! key = state !! key.
Proof.
  intros Hid H. split; [reflexivity|].
  unfold run_pipeline, getitem. rewrite Hid. cbn [as_str]. rewrite H. cbn [fst].
  eexists. split; [reflexivity|]. unfold failed_state.
  split; [|split; [|split]].
  - rewrite lookup_insert_ne by discriminate.
    rewrite lookup_insert_ne by discriminate. apply lookup_insert_eq.
  - rewrite lookup_insert_ne by discriminate. apply lookup_insert_eq.
  - apply lookup_insert_eq.
  - intros key Hkey.
    repeat (rewrite lookup_insert_ne;
            [|intros <-; apply Hkey; repeat constructor]).
    reflexivity.
Qed.

(** The run of [slow_world] exceeds the default timeout. *)
Lemma run_pipeline_timeout_witness :
  Settings.max_pipeline_time_seconds default_settings = 600%Z
  /\ exists final,
       run_pipeline 26 slow_world default_settings epoch example_state
       = Some (Ok final)
       /\ final !! "status" = Some (VStr (py "failed"))
       /\ final !! "error" = Some (VStr (timeout_message default_settings))
       /\ final !! "completed_at" = Some (VDatetime epoch)
       /\ forall key, key ∉ failure_keys -> final !! key = example_state !! key.
Proof.
  refine (run_pipeline_timeout 26 slow_world default_settings epoch example_state
            (last_state slow_run.1) (py "run-1") slow_run.2 _
            (timed_out_run slow_run _)).
  - vm_compute. reflexivity.
  - vm_compute. reflexivity.
Defined.

(* ================================================================== *)
(** * Further properties of the code *)
(* ================================================================== *)

(* ================================================================== *)
(** * Further properties of the gate and the judge *)
(* ================================================================== *)

(** The decision records what it was given, passes exactly when it has no
    failure reason, has at most three failure reasons and at least as many
    recommendations, and on a pass carries at most the reading-level
    advice: the verdict-based recommendations are added on failure only. *)
Theorem evaluate_quality_decision (settings : Settings.t)
    (metrics : QualityMetrics.t) (verdicts : list Verdict.t) (retry_count : Z) :
  let decision := evaluate_quality settings metrics verdicts retry_count in
  (GateDecision.passed decision = true <-> GateDecision.failure_reasons decision = [])
  /\ GateDecision.retry_count decision = retry_count
  /\ GateDecision.metrics decision = metrics
  /\ length (GateDecision.failure_reasons decision) <= 3
  /\ length (GateDecision.failure_reasons decision)
     <= length (GateDecision.recommendations decision)
  /\ (GateDecision.passed decision = true ->
      length (GateDecision.recommendations decision) <= 1).
Proof.
  unfold evaluate_quality, check_quality_gates.
  destruct (Qlt_bool (QualityMetrics.citation_coverage metrics) _);
    destruct (Qlt_bool _ (QualityMetrics.unsupported_claim_rate metrics));
    destruct (Qlt_bool (QualityMetrics.avg_fact_confidence metrics) _);
    destruct (Qlt_bool (QualityMetrics.reading_level metrics) 50);
    try destruct (Qlt_bool 80 (QualityMetrics.reading_level metrics));
    cbn [negb GateDecision.passed GateDecision.failure_reasons
         GateDecision.recommendations GateDecision.retry_count
         GateDecision.metrics app length].
  all: destruct (List.filter (verdict_value_is "needs-more-evidence") verdicts);
    destruct (List.filter (verdict_value_is "refuted") verdicts).
  all: repeat split; try discriminate; try reflexivity; try lia.
  all: rewrite ?length_app; cbn [length]; try lia.
Qed.

(** The characters of a formatted number: digits, point, sign, percent. *)
Definition is_numeric (c : ascii) : bool :=
  isdigit c || Ascii.eqb c "." || Ascii.eqb c "-" || Ascii.eqb c "%".

Lemma string_of_uint_digits (d : Decimal.uint) :
  Forall (fun c => is_numeric c = true)
         (list_ascii_of_string (NilEmpty.string_of_uint d)).
Proof.
  induction d; simpl; constructor; auto.
Qed.

Lemma str_of_N_numeric (n : N) : Forall (fun c => is_numeric c = true) (str_of_N n).
Proof.
  unfold str_of_N, py, NilZero.string_of_uint.
  destruct (N.to_uint n) eqn:E; try (rewrite <- E; apply string_of_uint_digits).
  repeat constructor.
Qed.

Lemma format_fixed_numeric (prec : nat) (x : Q) :
  Forall (fun c => is_numeric c = true) (format_fixed prec x).
Proof.
  unfold format_fixed. repeat apply Forall_app_2.
  - destruct (Qnum x <? 0)%Z; repeat constructor.
  - apply str_of_N_numeric.
  - destruct prec; [constructor|]. apply Forall_app_2; [repeat constructor|].
    unfold zero_pad. apply Forall_app_2; [|apply str_of_N_numeric].
    apply Forall_replicate. reflexivity.
Qed.

Lemma format_percent_numeric (prec : nat) (x : Q) :
  Forall (fun c => is_numeric c = true) (format_percent prec x).
Proof.
  unfold format_percent. apply Forall_app_2; [apply format_fixed_numeric|].
  repeat constructor.
Qed.

Lemma lower_numeric (x : str) :
  Forall (fun c => is_numeric c = true) x -> lower x = x.
Proof.
  induction 1 as [|c x Hc _ IH]; [reflexivity|]. simpl. rewrite IH. f_equal.
  unfold is_numeric, isdigit in Hc. unfold lower_char.
  rewrite !orb_true_iff, !Ascii.eqb_eq, andb_true_iff, !N.leb_le in Hc.
  destruct Hc as [[[[H1 H2] | ->] | ->] | ->]; try reflexivity.
  replace ((65 <=? ord c)%N) with false by (symmetry; apply N.leb_gt; lia).
  replace ((192 <=? ord c)%N) with false by (symmetry; apply N.leb_gt; lia).
  reflexivity.
Qed.

(** A search string without a given character is found on one side of it. *)
Lemma startswith_before (sub a b : str) (c : ascii) :
  c ∉ sub -> startswith (a ++ c :: b) sub = true -> startswith a sub = true.
Proof.
  revert a. induction sub as [|s sub IH]; intros a Hc; [reflexivity|].
  destruct a as [|a0 a]; simpl.
  - rewrite andb_true_iff, Ascii.eqb_eq. intros [-> _].
    exfalso. apply Hc. left.
  - rewrite !andb_true_iff. intros [H1 H2]. split; [assumption|].
    apply IH; [|assumption]. intros H. apply Hc. now right.
Qed.

Lemma contains_beside (sub a b : str) (c : ascii) :
  c ∉ sub -> sub <> [] ->
  contains sub (a ++ c :: b) = true ->
  contains sub a = true \/ contains sub b = true.
Proof.
  intros Hc Hne. induction a as [|a0 a IH]; simpl.
  - rewrite orb_true_iff. intros [H | H]; [|now right].
    apply (startswith_before sub [] b c Hc) in H.
    destruct sub; [congruence | discriminate].
  - rewrite !orb_true_iff. intros [H | H].
    + left. left. exact (startswith_before sub (a0 :: a) b c Hc H).
    + destruct (IH H) as [H' | H']; auto.
Qed.

Lemma contains_nil_false (sub : str) : sub <> [] -> contains sub [] = false.
Proof. destruct sub; [congruence | reflexivity]. Qed.

Lemma contains_around (sub a x b : str) :
  sub <> [] -> x <> [] ->
  Forall (fun c => is_numeric c = false) sub ->
  Forall (fun c => is_numeric c = true) x ->
  contains sub (a ++ x ++ b) = true ->
  contains sub a = true \/ contains sub b = true.
Proof.
  intros Hne Hx Hsub Hnum. revert a.
  assert (Hnot : forall c, is_numeric c = true -> c ∉ sub).
  { intros c Hc Hin. rewrite Forall_forall in Hsub.
    rewrite (Hsub c Hin) in Hc. discriminate. }
  induction Hnum as [|c x Hc Hnum IH]; [congruence|]. intros a H.
  change (a ++ (c :: x) ++ b) with (a ++ c :: (x ++ b)) in H.
  apply contains_beside in H as [H | H]; auto.
  destruct x as [|c' x]; [now right|].
  destruct (IH ltac:(discriminate) [] H) as [H' | H']; [|now right].
  rewrite contains_nil_false in H' by assumption. discriminate.
Qed.

Lemma format_fixed_nonempty (prec : nat) (x : Q) : format_fixed prec x <> [].
Proof.
  unfold format_fixed. intros H.
  apply app_eq_nil in H as [_ H]. apply app_eq_nil in H as [H _].
  unfold str_of_N, py, NilZero.string_of_uint in H.
  destruct (N.to_uint _) eqn:E; simpl in H; discriminate.
Qed.

Lemma format_percent_nonempty (prec : nat) (x : Q) : format_percent prec x <> [].
Proof.
  unfold format_percent. intros H. apply app_eq_nil in H as [_ H]. discriminate.
Qed.

(** The failure reason of the unsupported-claim check holds none of the
    fixable phrases, whatever the two rates are. *)
Lemma unsupported_reason_not_fixable (rate threshold : Q) :
  existsb
    (fun issue =>
       contains issue
         (lower (py "Unsupported claim rate " ++ format_percent 1 rate
                 ++ py " exceeds threshold " ++ format_percent 1 threshold)))
    fixable_issues = false.
Proof.
  rewrite !lower_app.
  rewrite !(lower_numeric (format_percent 1 _)) by apply format_percent_numeric.
  apply not_true_iff_false. intros H.
  apply existsb_exists in H as (issue & Hin & H).
  assert (Hissue : issue <> []
                   /\ Forall (fun c => is_numeric c = false) issue
                   /\ contains issue (lower (py "Unsupported claim rate ")) = false
                   /\ contains issue (lower (py " exceeds threshold ")) = false).
  { simpl in Hin. destruct Hin as [<- | [<- | [<- | []]]];
      (split; [discriminate|]); (split; [repeat constructor|]);
      split; vm_compute; reflexivity. }
  destruct Hissue as (Hne & Hnum & HA & HB).
  apply contains_around in H as [H | H];
    auto using format_percent_nonempty, format_percent_numeric; [congruence|].
  rewrite <- (app_nil_r (format_percent 1 threshold)) in H.
  apply contains_around in H as [H | H];
    auto using format_percent_nonempty, format_percent_numeric; [congruence|].
  rewrite contains_nil_false in H by assumption. discriminate.
Qed.

Lemma evaluate_quality_metrics (settings : Settings.t) (metrics : QualityMetrics.t)
    (verdicts : list Verdict.t) (retry_count : Z) :
  GateDecision.metrics (evaluate_quality settings metrics verdicts retry_count)
  = metrics.
Proof.
  unfold evaluate_quality. now destruct (check_quality_gates _ _ _ _) as [[? ?] ?].
Qed.

(** The judge asks for a retry exactly when fewer than [max_retries]
    retries are behind it and the citation coverage or the average fact
    confidence is below its threshold. A gate that fails on the
    unsupported-claim rate alone is not retried, whatever the rate: its
    failure reason reads "Unsupported claim rate ..", and the phrase looked
    for is "unsupported claims". *)
Theorem judge_retry_decision (settings : Settings.t) (metrics : QualityMetrics.t)
    (verdicts : list Verdict.t) (retry_count max_retries : Z) :
  should_retry (evaluate_quality settings metrics verdicts retry_count) max_retries
  = (retry_count <? max_retries)%Z
    && (Qlt_bool (QualityMetrics.citation_coverage metrics)
                 (Settings.min_citation_coverage settings)
        || Qlt_bool (QualityMetrics.avg_fact_confidence metrics)
                    (Settings.min_fact_confidence settings)).
Proof.
  destruct (retry_count <? max_retries)%Z eqn:Hrc.
  2:{ apply Z.ltb_ge in Hrc. apply should_retry_exhausted.
      now rewrite evaluate_quality_retry_count. }
  apply Z.ltb_lt in Hrc. cbn [andb].
  destruct (Qlt_bool (QualityMetrics.citation_coverage metrics) _
            || Qlt_bool (QualityMetrics.avg_fact_confidence metrics) _) eqn:E.
  - apply (should_retry_fixable settings metrics verdicts retry_count max_retries Hrc).
    unfold fails_fixably. rewrite evaluate_quality_metrics. exact E.
  - apply orb_false_iff in E as [E1 E3].
    unfold should_retry, evaluate_quality, check_quality_gates.
    rewrite E1, E3.
    destruct (Qlt_bool _ (QualityMetrics.unsupported_claim_rate metrics)) eqn:E2;
      destruct (Qlt_bool (QualityMetrics.reading_level metrics) 50);
      try destruct (Qlt_bool 80 (QualityMetrics.reading_level metrics));
      cbn [negb GateDecision.passed GateDecision.failure_reasons
           GateDecision.retry_count app existsb]; try reflexivity.
    all: apply Z.leb_gt in Hrc; rewrite Hrc.
    all: rewrite <- ?app_assoc, unsupported_reason_not_fixable; reflexivity.
Qed.

(** ** The metrics *)

Lemma Qdiv_nat_bounds (a b : nat) :
  a <= b -> 0 < b ->
  (0 <= inject_Z (Z.of_nat a) / inject_Z (Z.of_nat b) <= 1)%Q.
Proof.
  intros Hab Hb.
  assert (Hpos : (0 < inject_Z (Z.of_nat b))%Q).
  { rewrite <- (Zlt_Qlt 0). lia. }
  split.
  - apply Qle_shift_div_l; [assumption|]. rewrite Qmult_0_l.
    rewrite <- (Zle_Qle 0). lia.
  - apply Qle_shift_div_r; [assumption|]. rewrite Qmult_1_l.
    rewrite <- Zle_Qle. lia.
Qed.

Lemma filter_length_le {A} (f : A -> bool) (l : list A) :
  length (List.filter f l) <= length l.
Proof.
  induction l as [|x l IH]; simpl; [lia|]. destruct (f x); simpl; lia.
Qed.

(** The unsupported-claim rate is the share of refuted and
    needs-more-evidence verdicts: it lies in [0, 1], is 0 for no verdict
    at all, and is 0 exactly when no verdict is of these two kinds. *)
Theorem unsupported_claim_rate_bounds (verdicts : list Verdict.t) :
  (0 <= calculate_unsupported_claim_rate verdicts <= 1)%Q
  /\ calculate_unsupported_claim_rate [] = 0%Q
  /\ (calculate_unsupported_claim_rate verdicts == 0
      <-> Forall (fun v => is_unsupported v = false) verdicts)%Q.
Proof.
  split; [|split; [reflexivity|]].
  - unfold calculate_unsupported_claim_rate.
    destruct verdicts as [|v verdicts]; [split; apply Qle_refl || discriminate|].
    apply Qdiv_nat_bounds; [apply filter_length_le | simpl; lia].
  - unfold calculate_unsupported_claim_rate.
    destruct verdicts as [|v verdicts]; [split; [constructor | reflexivity]|].
    set (vs := v :: verdicts).
    assert (Hlen : 0 < length vs) by (simpl; lia).
    assert (Hz : length (List.filter is_unsupported vs) = 0
                 <-> Forall (fun v => is_unsupported v = false) vs).
    { clearbody vs. clear. induction vs as [|x vs IH]; simpl.
      - split; [constructor | reflexivity].
      - destruct (is_unsupported x) eqn:E; simpl.
        + split; [discriminate | intros H; inversion H; congruence].
        + rewrite IH. split; [now constructor | intros H; now inversion H]. }
    rewrite <- Hz. clearbody vs.
    set (a := length (List.filter is_unsupported vs)).
    assert (Hb : ~ (inject_Z (Z.of_nat (length vs)) == 0)%Q).
    { intros H. unfold Qeq in H. simpl in H. lia. }
    split.
    + intros H. apply (Qmult_div_r (inject_Z (Z.of_nat a))) in Hb.
      rewrite H, Qmult_0_r in Hb. unfold Qeq in Hb. simpl in Hb. lia.
    + intros ->. reflexivity.
Qed.

Lemma confidence_sum_bounds (verdicts : list Verdict.t) (acc : Q) :
  Forall (fun v => (0 <= Verdict.confidence v <= 1)%Q) verdicts ->
  (acc <= fold_left (fun acc v => (acc + Verdict.confidence v)%Q) verdicts acc
   <= acc + inject_Z (Z.of_nat (length verdicts)))%Q.
Proof.
  intros H. revert acc. induction H as [|v verdicts [Hv0 Hv1] _ IH]; intros acc.
  - simpl. split; [apply Qle_refl|]. rewrite Qplus_0_r. apply Qle_refl.
  - cbn [fold_left length]. destruct (IH (acc + Verdict.confidence v)%Q) as [H1 H2].
    split.
    + eapply Qle_trans; [|exact H1].
      rewrite <- (Qplus_0_r acc) at 1. apply Qplus_le_r. exact Hv0.
    + eapply Qle_trans; [exact H2|].
      rewrite Nat2Z.inj_succ, <- Z.add_1_l, inject_Z_plus.
      rewrite Qplus_assoc. apply Qplus_le_l. apply Qplus_le_r. exact Hv1.
Qed.

(** With every confidence in [0, 1], the average confidence lies in [0, 1];
    it is 0 for no verdict. *)
Theorem average_confidence_bounds (verdicts : list Verdict.t) :
  Forall (fun v => (0 <= Verdict.confidence v <= 1)%Q) verdicts ->
  (0 <= calculate_average_confidence verdicts <= 1)%Q
  /\ calculate_average_confidence [] = 0%Q.
Proof.
  intros H. split; [|reflexivity]. unfold calculate_average_confidence.
  destruct verdicts as [|v verdicts]; [split; apply Qle_refl || discriminate|].
  set (vs := v :: verdicts) in *.
  assert (Hpos : (0 < inject_Z (Z.of_nat (length vs)))%Q).
  { rewrite <- (Zlt_Qlt 0). simpl. lia. }
  destruct (confidence_sum_bounds vs 0 H) as [H1 H2]. rewrite Qplus_0_l in H2.
  split.
  - apply Qle_shift_div_l; [assumption|]. now rewrite Qmult_0_l.
  - apply Qle_shift_div_r; [assumption|]. now rewrite Qmult_1_l.
Qed.

(** Two verdicts with confidences inside [0, 1]. *)
Lemma average_confidence_bounds_witness :
  (0 <= calculate_average_confidence
          [example_verdict SUPPORTED (9 # 10); example_verdict REFUTED (3 # 10)]
   <= 1)%Q
  /\ calculate_average_confidence [] = 0%Q.
Proof.
  apply (average_confidence_bounds
           [example_verdict SUPPORTED (9 # 10); example_verdict REFUTED (3 # 10)]).
  repeat constructor; discriminate.
Defined.

(** An article without any verdict never passes a gate that asks for some
    confidence: the average of no confidence is 0, below any positive
    threshold; the judge then asks for a retry as long as retries are left. *)
Theorem no_verdicts_fail_gate (settings : Settings.t)
    (flesch_reading_ease : str -> result Q) (citation_map : CitationMap.t)
    (article_text : str) (sources_count : nat) (retry_count max_retries : Z) :
  (0 < Settings.min_fact_confidence settings)%Q ->
  let decision :=
    evaluate_quality settings
      (calculate_quality_metrics flesch_reading_ease citation_map []
         article_text sources_count) [] retry_count in
  GateDecision.passed decision = false
  /\ should_retry decision max_retries = (retry_count <? max_retries)%Z.
Proof.
  intros Hmin decision.
  assert (Hlow : Qlt_bool
            (QualityMetrics.avg_fact_confidence
               (calculate_quality_metrics flesch_reading_ease citation_map []
                  article_text sources_count))
            (Settings.min_fact_confidence settings) = true).
  { apply Qlt_bool_true_iff. exact Hmin. }
  split.
  - unfold decision, evaluate_quality, check_quality_gates. rewrite Hlow.
    destruct (Qlt_bool (QualityMetrics.citation_coverage _) _);
      destruct (Qlt_bool _ (QualityMetrics.unsupported_claim_rate _));
      destruct (Qlt_bool (QualityMetrics.reading_level _) 50);
      try destruct (Qlt_bool 80 (QualityMetrics.reading_level _)); reflexivity.
  - destruct (retry_count <? max_retries)%Z eqn:Hrc.
    + apply Z.ltb_lt in Hrc.
      apply (should_retry_fixable settings _ [] retry_count max_retries Hrc).
      unfold fails_fixably. rewrite evaluate_quality_metrics, Hlow.
      apply orb_true_r.
    + apply Z.ltb_ge in Hrc. apply should_retry_exhausted.
      unfold decision. now rewrite evaluate_quality_retry_count.
Qed.

Lemma no_verdicts_fail_gate_witness :
  GateDecision.passed
    (evaluate_quality default_settings
       (calculate_quality_metrics (fun _ => Ok 65%Q)
          (Article.citations (example_article 1)) [] (py "Text.") 3) [] 0)
  = false
  /\ should_retry
       (evaluate_quality default_settings
          (calculate_quality_metrics (fun _ => Ok 65%Q)
             (Article.citations (example_article 1)) [] (py "Text.") 3) [] 0) 2
     = (0 <? 2)%Z.
Proof.
  apply (no_verdicts_fail_gate default_settings (fun _ => Ok 65%Q)
           (Article.citations (example_article 1)) (py "Text.") 3 0 2).
  reflexivity.
Defined.

(* ================================================================== *)
(** * Further properties of the citation tools *)
(* ================================================================== *)

Lemma takewhile_length (p : ascii -> bool) (s : str) :
  length (takewhile p s) <= length s.
Proof.
  rewrite <- (takewhile_dropwhile p s) at 2. rewrite length_app. lia.
Qed.

(** The three literal characters of the marker pattern, tested by [eqb]. *)
Lemma match_closing {A} (s : str) (yes no : A) :
  match s with "]"%char :: _ => yes | _ => no end
  = match s with
    | c :: _ => if Ascii.eqb c "]" then yes else no
    | [] => no
    end.
Proof.
  destruct s as [|c s]; [reflexivity|].
  destruct c as [[] [] [] [] [] [] [] []]; reflexivity.
Qed.

Lemma match_comma {A} (s : str) (yes : str -> A) (no : A) :
  match s with ","%char :: s2 => yes s2 | _ => no end
  = match s with
    | c :: s2 => if Ascii.eqb c "," then yes s2 else no
    | [] => no
    end.
Proof.
  destruct s as [|c s]; [reflexivity|].
  destruct c as [[] [] [] [] [] [] [] []]; reflexivity.
Qed.

Lemma match_opening {A} (s : str) (yes : str -> A) (no : A) :
  match s with "["%char :: s1 => yes s1 | _ => no end
  = match s with
    | c :: s1 => if Ascii.eqb c "[" then yes s1 else no
    | [] => no
    end.
Proof.
  destruct s as [|c s]; [reflexivity|].
  destruct c as [[] [] [] [] [] [] [] []]; reflexivity.
Qed.

(** What follows the first number of a marker, when it matches: blanks, a
    comma, blanks and a number, any number of times, and the bracket. *)
Lemma match_marker_tail_length (fuel : nat) (s : str) (n : nat) :
  match_marker_tail fuel s = Some n ->
  1 <= n /\ n <= length s /\ s !! (n - 1) = Some "]"%char.
Proof.
  revert s n. induction fuel as [|fuel IH]; intros s n;
    cbn [match_marker_tail]; rewrite match_closing, match_comma.
  - destruct s as [|c s].
    + simpl. discriminate.
    + destruct (Ascii.eqb c "]") eqn:E.
      * apply Ascii.eqb_eq in E as ->. intros [= <-]. simpl. auto with lia.
      * destruct (drop _ (c :: s)) as [|c2 s2]; [discriminate|].
        destruct (Ascii.eqb c2 ","); [|discriminate].
        destruct (takewhile isdigit _); discriminate.
  - assert (Hbody :
      match drop (length (takewhile isspace s)) s with
      | [] => None
      | c :: s2 =>
          if Ascii.eqb c ","
          then
            match takewhile isdigit (drop (length (takewhile isspace s2)) s2) with
            | [] => None
            | _ :: _ =>
                n0 ← match_marker_tail fuel
                       (drop (length (takewhile isspace s2)
                              + length (takewhile isdigit
                                  (drop (length (takewhile isspace s2)) s2))) s2);
                Some (length (takewhile isspace s) + 1
                      + length (takewhile isspace s2)
                      + length (takewhile isdigit
                          (drop (length (takewhile isspace s2)) s2)) + n0)
            end
          else None
      end = Some n ->
      1 <= n /\ n <= length s /\ s !! (n - 1) = Some "]"%char).
    { set (ws1 := takewhile isspace s).
      pose proof (takewhile_length isspace s) as Hws1. fold ws1 in Hws1.
      destruct (drop (length ws1) s) as [|c2 s2] eqn:Ed; [discriminate|].
      assert (Hlen2 : length ws1 + S (length s2) = length s).
      { apply (f_equal length) in Ed. rewrite length_drop in Ed. simpl in *. lia. }
      destruct (Ascii.eqb c2 ","); [|discriminate].
      set (ws2 := takewhile isspace s2).
      pose proof (takewhile_length isspace s2) as Hws2. fold ws2 in Hws2.
      set (ds := takewhile isdigit (drop (length ws2) s2)).
      pose proof (takewhile_length isdigit (drop (length ws2) s2)) as Hds.
      fold ds in Hds. rewrite length_drop in Hds.
      destruct ds as [|d ds'] eqn:Eds; [discriminate|]. rewrite <- Eds in *.
      assert (0 < length ds) by (rewrite Eds; simpl; lia).
      destruct (match_marker_tail fuel _) as [m|] eqn:Em; [|discriminate].
      apply IH in Em as (Hm1 & Hm2 & Hm3). rewrite length_drop in Hm2.
      simpl. intros [= <-]. split; [lia|]. split; [lia|].
      unfold str in *. rewrite lookup_drop in Hm3.
      assert (Hs : s = take (S (length ws1)) s ++ s2).
      { rewrite <- (take_drop (S (length ws1)) s) at 1. f_equal.
        change (S (length ws1)) with (1 + length ws1).
        rewrite Nat.add_comm, <- drop_drop, Ed. reflexivity. }
      rewrite Hs at 1. rewrite lookup_app_r; rewrite length_take; [|lia].
      rewrite <- Hm3. f_equal. lia. }
    destruct s as [|c s]; [exact Hbody|].
    destruct (Ascii.eqb c "]") eqn:E; [|exact Hbody].
    apply Ascii.eqb_eq in E as ->. intros [= <-]. simpl. auto with lia.
Qed.

Lemma match_marker_length (s : str) (n : nat) :
  match_marker s = Some n ->
  3 <= n /\ n <= length s
  /\ s !! 0 = Some "["%char /\ s !! (n - 1) = Some "]"%char.
Proof.
  unfold match_marker. rewrite match_opening.
  destruct s as [|c s1]; [discriminate|].
  destruct (Ascii.eqb c "[") eqn:E; [|discriminate].
  apply Ascii.eqb_eq in E as ->.
  pose proof (takewhile_length isdigit s1) as Hds.
  destruct (takewhile isdigit s1) as [|d ds] eqn:Eds; [discriminate|].
  rewrite <- Eds in *.
  assert (0 < length (takewhile isdigit s1)) by (rewrite Eds; simpl; lia).
  destruct (match_marker_tail _ _) as [m|] eqn:Em; [|discriminate].
  apply match_marker_tail_length in Em as (Hm1 & Hm2 & Hm3).
  rewrite length_drop in Hm2. simpl. intros [= <-].
  split; [lia|]. split; [lia|]. split; [reflexivity|].
  unfold str in *. rewrite lookup_drop in Hm3. rewrite <- Hm3.
  replace (S (length (takewhile isdigit s1) + m) - 1)
    with (S (length (takewhile isdigit s1) + (m - 1))) by lia.
  reflexivity.
Qed.

Lemma int_of_digits_nonneg (s : str) : (0 <= int_of_digits s)%Z.
Proof.
  unfold int_of_digits.
  assert (H : forall acc, (0 <= acc)%Z ->
    (0 <= fold_left (fun acc c => (10 * acc + digit_value c)%Z) s acc)%Z).
  { induction s as [|c s IH]; intros acc Hacc; simpl; [assumption|].
    apply IH. unfold digit_value. lia. }
  apply H. lia.
Qed.

Lemma split_nonempty (sep : ascii) (s : str) : split sep s <> [].
Proof.
  induction s as [|c s IH]; simpl; [discriminate|].
  destruct (Ascii.eqb c sep); [discriminate|].
  destruct (split sep s); discriminate.
Qed.

Lemma spans_within_sorted lo hi spans :
  spans_within lo hi spans ->
  StronglySorted lt (map fst spans) /\ Forall (fun a => lo <= a) (map fst spans).
Proof.
  revert lo. induction spans as [|[a b] rest IH]; intros lo; simpl.
  - split; constructor.
  - intros (H1 & H2 & H3 & H4). destruct (IH b H4) as [Hs Hf]. split.
    + constructor; [assumption|].
      eapply Forall_impl; [exact Hf|]. simpl. intros; lia.
    + constructor; [assumption|].
      eapply Forall_impl; [exact Hf|]. simpl. intros; lia.
Qed.

(** The markers of a text come in the order of the text, at strictly
    increasing positions; each stands at an opening bracket of the text
    and carries at least one id, none negative; a text without an opening
    bracket has no marker. *)
Theorem extract_citation_markers_wellformed (text : str) :
  StronglySorted lt (map fst (extract_citation_markers text))
  /\ Forall (fun m : nat * list Z =>
               text !! m.1 = Some "["%char
               /\ m.2 <> []
               /\ Forall (fun id => (0 <= id)%Z) m.2)
            (extract_citation_markers text)
  /\ ("["%char ∉ text -> extract_citation_markers text = []).
Proof.
  assert (Hlen : forall s n, match_marker s = Some n -> n <= length s).
  { intros s n H. now apply match_marker_length in H. }
  assert (Hall : Forall (fun m : nat * list Z =>
               text !! m.1 = Some "["%char
               /\ m.2 <> []
               /\ Forall (fun id => (0 <= id)%Z) m.2)
            (extract_citation_markers text)).
  { unfold extract_citation_markers. apply Forall_forall. intros m Hin.
    apply list_elem_of_In, in_map_iff in Hin as ([a b] & <- & Hin).
    apply (finditer_match match_marker) in Hin.
    apply match_marker_length in Hin as (_ & _ & Hin & _).
    unfold str in *. rewrite lookup_drop, Nat.add_0_r in Hin. simpl. split; [assumption|]. split.
    - intros H. apply map_eq_nil in H. now apply split_nonempty in H.
    - apply Forall_forall. intros id Hid.
      apply list_elem_of_In, in_map_iff in Hid as (piece & <- & _).
      apply int_of_digits_nonneg. }
  split; [|split; [exact Hall|]].
  - unfold extract_citation_markers. rewrite map_map. simpl.
    change (map (fun x : nat * nat => x.1) (finditer match_marker text))
      with (map fst (finditer match_marker text)).
    apply (spans_within_sorted 0 (length text)).
    apply finditer_within. exact Hlen.
  - intros Hno. destruct (extract_citation_markers text) as [|m ms]; [reflexivity|].
    inversion Hall as [|? ? (H & _) _]; subst. exfalso. apply Hno.
    eapply list_elem_of_lookup_2. exact H.
Qed.


Lemma Qdiv_nat_one (a b : nat) :
  0 < b ->
  (inject_Z (Z.of_nat a) / inject_Z (Z.of_nat b) == 1)%Q <-> a = b.
Proof.
  intros Hb.
  assert (Hne : ~ (inject_Z (Z.of_nat b) == 0)%Q).
  { intros H. unfold Qeq in H. simpl in H. lia. }
  split.
  - intros H. apply (Qmult_div_r (inject_Z (Z.of_nat a))) in Hne.
    rewrite H, Qmult_1_r in Hne. unfold Qeq in Hne. simpl in Hne. lia.
  - intros ->. now apply Qdiv_mult_l with (x := 1%Q) in Hne;
      rewrite Qmult_1_l in Hne.
Qed.






(** ** [format_bibliography_markdown] *)

(** [sep.join(parts)] *)
Fixpoint join (sep : str) (parts : list str) : str :=
  match parts with
  | [] => []
  | [p] => p
  | p :: rest => p ++ sep ++ join sep rest
  end.

(** [sorted(xs, key=key)]: a stable sort, items with equal keys keep the
    order they come in. *)
Fixpoint insert_by_key {A} (key : A -> Z) (x : A) (sorted : list A) : list A :=
  match sorted with
  | [] => [x]
  | y :: rest =>
      if (key x <=? key y)%Z then x :: y :: rest
      else y :: insert_by_key key x rest
  end.

Definition sorted_by_key {A} (key : A -> Z) (xs : list A) : list A :=
  foldr (insert_by_key key) [] xs.

(** The truth value of an optional string in a condition. *)
Definition nonempty (s : option str) : bool :=
  match s with
  | Some (_ :: _) => true
  | _ => false
  end.

Definition quote : str := ["034"%char].
Definition newline : str := ["010"%char].

(** The line of one citation. *)
Definition bibliography_line (citation : Citation.t) : str :=
  let parts := [py "[" ++ str_of_Z (Citation.citation_id citation) ++ py "]"] in
  let parts :=
    if nonempty (Citation.author citation)
    then parts ++ [default [] (Citation.author citation) ++ py "."]
    else parts in
  let parts := parts ++ [quote ++ Citation.title citation ++ py "." ++ quote] in
  let parts :=
    if nonempty (Citation.published_date citation)
    then parts ++ [py "Published " ++ default [] (Citation.published_date citation)
                   ++ py "."]
    else parts in
  let parts := parts ++ [py "Available at: " ++ Citation.url citation] in
  let parts :=
    if nonempty (Some (Citation.accessed_date citation))
    then parts ++ [py "(accessed " ++ Citation.accessed_date citation ++ py ")"]
    else parts in
  join (py " ") parts.

Definition format_bibliography_markdown (citations : list Citation.t) : str :=
  let lines :=
    fold_left (fun lines citation => lines ++ [bibliography_line citation])
              (sorted_by_key Citation.citation_id citations)
              [py "## References" ++ newline] in
  join newline lines.

Lemma insert_by_key_Permutation {A} (key : A -> Z) (x : A) (l : list A) :
  insert_by_key key x l ≡ₚ x :: l.
Proof.
  induction l as [|y l IH]; simpl; [reflexivity|].
  destruct (key x <=? key y)%Z; [reflexivity|].
  rewrite IH. apply Permutation_swap.
Qed.

Lemma sorted_by_key_Permutation {A} (key : A -> Z) (l : list A) :
  sorted_by_key key l ≡ₚ l.
Proof.
  induction l as [|x l IH]; simpl; [reflexivity|].
  rewrite insert_by_key_Permutation. now rewrite IH.
Qed.

Lemma insert_by_key_sorted {A} (key : A -> Z) (x : A) (l : list A) :
  StronglySorted (fun a b => (key a <= key b)%Z) l ->
  StronglySorted (fun a b => (key a <= key b)%Z) (insert_by_key key x l).
Proof.
  induction 1 as [|y l Hs IH Hy]; simpl; [repeat constructor|].
  destruct (key x <=? key y)%Z eqn:E.
  - apply Z.leb_le in E. constructor; [now constructor|].
    constructor; [assumption|].
    eapply Forall_impl; [exact Hy|]. simpl. intros; lia.
  - apply Z.leb_gt in E. constructor; [assumption|].
    rewrite insert_by_key_Permutation. constructor; [lia | assumption].
Qed.

Lemma sorted_by_key_sorted {A} (key : A -> Z) (l : list A) :
  StronglySorted (fun a b => (key a <= key b)%Z) (sorted_by_key key l).
Proof.
  induction l as [|x l IH]; simpl; [constructor|].
  now apply insert_by_key_sorted.
Qed.

(** A list already in ascending order of keys is left as it is. *)
Lemma sorted_by_key_fixed {A} (key : A -> Z) (l : list A) :
  StronglySorted (fun a b => (key a <= key b)%Z) l -> sorted_by_key key l = l.
Proof.
  induction 1 as [|x l Hs IH Hx]; [reflexivity|]. simpl. rewrite IH.
  destruct l as [|y l]; [reflexivity|]. simpl.
  inversion Hx as [|? ? Hxy _]; subst. apply Z.leb_le in Hxy. now rewrite Hxy.
Qed.

Lemma StronglySorted_key_strict {A} (key : A -> Z) (l : list A) :
  StronglySorted (fun a b => (key a <= key b)%Z) l ->
  NoDup (map key l) ->
  StronglySorted (fun a b => (key a < key b)%Z) l.
Proof.
  induction 1 as [|x l Hs IH Hx]; intros Hnd; constructor.
  - apply IH. simpl in Hnd. now apply NoDup_cons_1_2 in Hnd.
  - simpl in Hnd. apply NoDup_cons in Hnd as [Hnin _].
    rewrite Forall_forall in *. intros y Hy. specialize (Hx y Hy).
    assert (key x <> key y); [|lia].
    intros Heq. apply Hnin. rewrite Heq.
    apply list_elem_of_In, in_map, list_elem_of_In, Hy.
Qed.

#[local] Instance key_lt_antisymm {A} (key : A -> Z) :
  AntiSymm eq (fun a b : A => (key a < key b)%Z).
Proof. intros a b H1 H2. lia. Qed.

Lemma fold_lines (citations : list Citation.t) (lines : list str) :
  fold_left (fun lines citation => lines ++ [bibliography_line citation])
            citations lines
  = lines ++ map bibliography_line citations.
Proof.
  apply fold_left_snoc_map. reflexivity.
Qed.

(** The references of a citation map come in the order of its sources:
    the heading, then one line per source, numbered from 1; without any
    source, the heading alone. *)
Theorem format_bibliography_of_sources (sources : list Source.t) :
  format_bibliography_markdown (build_bibliography sources)
  = join newline
      ((py "## References" ++ newline)
       :: map bibliography_line (build_bibliography sources))
  /\ format_bibliography_markdown [] = py "## References" ++ newline.
Proof.
  split; [|reflexivity].
  unfold format_bibliography_markdown. rewrite fold_lines.
  rewrite sorted_by_key_fixed; [reflexivity|].
  rewrite build_bibliography_map.
  assert (H : forall start,
    StronglySorted (fun a b => (Citation.citation_id a <= Citation.citation_id b)%Z)
      (map (fun p : Z * Source.t => citation_of p.1 p.2) (enumerate sources start))
    /\ Forall (fun c => (start <= Citation.citation_id c)%Z)
        (map (fun p : Z * Source.t => citation_of p.1 p.2) (enumerate sources start))).
  { induction sources as [|s sources IH]; intros start; simpl.
    - split; constructor.
    - destruct (IH (start + 1)%Z) as [H1 H2]. split.
      + constructor; [assumption|].
        eapply Forall_impl; [exact H2|]. simpl. intros; lia.
      + constructor; [simpl; lia|].
        eapply Forall_impl; [exact H2|]. simpl. intros; lia. }
  apply H.
Qed.

(** The references do not depend on the order in which the citations are
    given, as long as no two of them have the same id. *)
Theorem format_bibliography_order (citations citations' : list Citation.t) :
  NoDup (map Citation.citation_id citations) ->
  citations ≡ₚ citations' ->
  format_bibliography_markdown citations = format_bibliography_markdown citations'.
Proof.
  intros Hnd Hperm. unfold format_bibliography_markdown. do 2 f_equal.
  apply (StronglySorted_unique
           (fun a b => (Citation.citation_id a < Citation.citation_id b)%Z)).
  - apply StronglySorted_key_strict; [apply sorted_by_key_sorted|].
    now rewrite sorted_by_key_Permutation.
  - apply StronglySorted_key_strict; [apply sorted_by_key_sorted|].
    now rewrite sorted_by_key_Permutation, <- Hperm.
  - now rewrite !sorted_by_key_Permutation.
Qed.

(** Two citations, given in either order. *)
Lemma format_bibliography_order_witness :
  format_bibliography_markdown
    [citation_of 1 original; citation_of 2 update]
  = format_bibliography_markdown
      [citation_of 2 update; citation_of 1 original].
Proof.
  apply format_bibliography_order.
  - simpl. apply NoDup_cons. split; [|apply NoDup_singleton].
    intros H. apply list_elem_of_singleton in H. discriminate.
  - apply Permutation_swap.
Defined.

(** ** [assign_citations_to_claims] *)

(** A claim as the dict this function takes: the evidence list under
    ['evidence'] when the key is there, each item with its ['source_id']
    when it has one, and what the dict holds under ['citation_ids']. *)
Module ClaimDict.
Record t := mk {
  text : str;
  evidence : option (list (option str));
  citation_ids : option (list Z)
}.
End ClaimDict.

(** [{s.source_id: i + 1 for i, s in enumerate(sources)}]: a later source
    with the same id takes the place of an earlier one. *)
Definition source_to_cit (sources : list Source.t) : gmap str Z :=
  fold_left (fun m (p : Z * Source.t) => <[Source.source_id p.2 := (p.1 + 1)%Z]> m)
            (enumerate sources 0%Z) ∅.

(** The loop over the evidence of one claim. *)
Definition claim_citation_ids (table : gmap str Z) (evidence : list (option str))
    : list Z :=
  fold_left
    (fun citation_ids (source_id : option str) =>
       if nonempty source_id then
         match table !! default [] source_id with
         | Some cit_id =>
             if bool_decide (cit_id ∉ citation_ids)
             then citation_ids ++ [cit_id] else citation_ids
         | None => citation_ids
         end
       else citation_ids)
    evidence [].

Definition assign_citations_to_claims (claims : list ClaimDict.t)
    (sources : list Source.t) : list ClaimDict.t :=
  (* Build source_id -> citation_id map *)
  let table := source_to_cit sources in
  map (fun claim =>
         let citation_ids :=
           match ClaimDict.evidence claim with
           | Some evidence => claim_citation_ids table evidence
           | None => []
           end in
         {| ClaimDict.text := ClaimDict.text claim;
            ClaimDict.evidence := ClaimDict.evidence claim;
            ClaimDict.citation_ids := Some (merge_sort Z.le citation_ids) |})
      claims.

Lemma source_to_cit_fold (sources : list Source.t) (start : Z) (m : gmap str Z)
    (sid : str) (id : Z) :
  fold_left (fun m (p : Z * Source.t) => <[Source.source_id p.2 := (p.1 + 1)%Z]> m)
            (enumerate sources start) m !! sid = Some id ->
  m !! sid = Some id
  \/ exists (i : nat) (source : Source.t),
       sources !! i = Some source /\ Source.source_id source = sid
       /\ id = (start + Z.of_nat i + 1)%Z.
Proof.
  revert start m. induction sources as [|s sources IH]; intros start m; simpl.
  - now left.
  - intros H. apply IH in H as [H | (i & source & H1 & H2 & H3)].
    + destruct (decide (Source.source_id s = sid)) as [Heq | Hne].
      * rewrite Heq, lookup_insert_eq in H. injection H as <-.
        right. exists 0, s. simpl. repeat split; auto with lia.
      * rewrite lookup_insert_ne in H by assumption. now left.
    + right. exists (S i), source. simpl. repeat split; auto with lia.
Qed.

Lemma source_to_cit_fold_is_Some (sources : list Source.t) (start : Z)
    (m : gmap str Z) (sid : str) :
  (is_Some (m !! sid) \/ sid ∈ map Source.source_id sources) ->
  is_Some (fold_left
             (fun m (p : Z * Source.t) => <[Source.source_id p.2 := (p.1 + 1)%Z]> m)
             (enumerate sources start) m !! sid).
Proof.
  revert start m. induction sources as [|s sources IH]; intros start m; simpl.
  - intros [H | H]; [assumption | inversion H].
  - intros H. apply IH.
    destruct (decide (Source.source_id s = sid)) as [Heq | Hne].
    + left. rewrite Heq, lookup_insert_eq. eauto.
    + rewrite lookup_insert_ne by assumption.
      destruct H as [H | H]; [now left|]. right.
      apply elem_of_cons in H as [H | H]; [congruence | assumption].
Qed.

(** The table sends a source id to the number of a source with this id,
    and knows every source id. *)
Lemma source_to_cit_spec (sources : list Source.t) (sid : str) :
  (forall id, source_to_cit sources !! sid = Some id ->
     exists (i : nat) (source : Source.t),
       sources !! i = Some source /\ Source.source_id source = sid
       /\ id = (Z.of_nat i + 1)%Z)
  /\ (sid ∈ map Source.source_id sources -> is_Some (source_to_cit sources !! sid)).
Proof.
  split.
  - intros id H. apply source_to_cit_fold in H as [H | (i & s & H1 & H2 & H3)].
    + rewrite lookup_empty in H. discriminate.
    + exists i, s. repeat split; auto with lia.
  - intros H. apply source_to_cit_fold_is_Some. now right.
Qed.

Lemma claim_citation_ids_fold (table : gmap str Z) (evidence : list (option str))
    (acc : list Z) :
  let result :=
    fold_left
      (fun citation_ids (source_id : option str) =>
         if nonempty source_id then
           match table !! default [] source_id with
           | Some cit_id =>
               if bool_decide (cit_id ∉ citation_ids)
               then citation_ids ++ [cit_id] else citation_ids
           | None => citation_ids
           end
         else citation_ids)
      evidence acc in
  (NoDup acc -> NoDup result)
  /\ forall id,
       id ∈ result
       <-> id ∈ acc
           \/ exists sid, Some sid ∈ evidence /\ sid <> [] /\ table !! sid = Some id.
Proof.
  unfold str in *.
  revert acc. induction evidence as [|e evidence IH]; intros acc; simpl.
  - split; [auto|]. intros id. split; [now left|].
    intros [H | (sid & H & _)]; [assumption | inversion H].
  - set (acc' := if nonempty e then _ else acc).
    destruct (IH acc') as [IH1 IH2]. split.
    + intros Hnd. apply IH1. unfold acc'.
      destruct (nonempty e); [|assumption].
      destruct (table !! default [] e); [|assumption].
      destruct (bool_decide _) eqn:E; [|assumption].
      apply bool_decide_eq_true in E.
      apply NoDup_app. split; [assumption|]. split; [|apply NoDup_singleton].
      intros x Hx Hx'. apply list_elem_of_singleton in Hx' as ->. contradiction.
    + intros id. rewrite IH2.
      assert (Hacc' : id ∈ acc'
                      <-> id ∈ acc
                          \/ exists sid, e = Some sid /\ sid <> []
                                         /\ table !! sid = Some id).
      { unfold acc'. destruct e as [[|c sid]|]; simpl.
        - split; [now left|]. intros [H | (sid & [= <-] & H & _)]; congruence.
        - destruct (table !! (c :: sid)) as [cit|] eqn:Et.
          + destruct (bool_decide _) eqn:E.
            * rewrite elem_of_app, list_elem_of_singleton. split.
              -- intros [H | ->]; [now left|]. right. exists (c :: sid).
                 repeat split; [discriminate | assumption].
              -- intros [H | (sid' & [= <-] & _ & H)]; [now left|].
                 right. congruence.
            * apply bool_decide_eq_false in E.
              split; [now left|]. intros [H | (sid' & [= <-] & _ & H)];
                [assumption|].
              rewrite Et in H. injection H as <-.
              destruct (decide (cit ∈ acc)); [assumption | contradiction].
          + split; [now left|]. intros [H | (sid' & [= <-] & _ & H)]; congruence.
        - split; [now left|]. intros [H | (sid & H & _)]; congruence. }
      rewrite Hacc'. split.
      * intros [[H | (sid & -> & H1 & H2)] | (sid & H & H1 & H2)].
        -- now left.
        -- right. exists sid. repeat split; auto. left.
        -- right. exists sid. repeat split; auto. now right.
      * intros [H | (sid & H & H1 & H2)]; [now left; left|].
        apply elem_of_cons in H as [<- | H].
        -- left. right. eauto.
        -- right. eauto.
Qed.

(** Every claim keeps its text and its evidence and gets citation ids in
    strictly ascending order. An id is assigned exactly when some evidence
    of the claim names, by a non-empty source id, a source the table
    knows; the id is then the number, counted from 1, of a source with
    this id, and so the id of its entry in the bibliography that
    [create_citation_map] builds from the same sources. A claim without an
    ['evidence'] key gets no id. *)
Theorem assign_citations_to_claims_spec (claims : list ClaimDict.t)
    (sources : list Source.t) :
  Forall2
    (fun claim claim' =>
       ClaimDict.text claim' = ClaimDict.text claim
       /\ ClaimDict.evidence claim' = ClaimDict.evidence claim
       /\ exists citation_ids,
            ClaimDict.citation_ids claim' = Some citation_ids
            /\ StronglySorted Z.lt citation_ids
            /\ (ClaimDict.evidence claim = None -> citation_ids = [])
            /\ (forall id,
                  id ∈ citation_ids ->
                  exists (i : nat) (source : Source.t),
                    id = (Z.of_nat i + 1)%Z
                    /\ sources !! i = Some source
                    /\ Some (Source.source_id source)
                       ∈ default [] (ClaimDict.evidence claim)
                    /\ build_bibliography sources !! i
                       = Some (citation_of id source))
            /\ (forall sid,
                  Some sid ∈ default [] (ClaimDict.evidence claim) ->
                  sid <> [] -> sid ∈ map Source.source_id sources ->
                  exists id, id ∈ citation_ids
                             /\ source_to_cit sources !! sid = Some id))
    claims (assign_citations_to_claims claims sources).
Proof.
  unfold assign_citations_to_claims. apply Forall2_fmap_r, Forall_Forall2_diag.
  apply Forall_forall. intros claim _. cbn [ClaimDict.text ClaimDict.evidence
    ClaimDict.citation_ids]. split; [reflexivity|]. split; [reflexivity|].
  eexists. split; [reflexivity|].
  set (ids := match ClaimDict.evidence claim with
              | Some evidence => claim_citation_ids (source_to_cit sources) evidence
              | None => []
              end).
  assert (Hids : NoDup ids
                 /\ forall id,
                      id ∈ ids
                      <-> exists sid,
                            Some sid ∈ default [] (ClaimDict.evidence claim)
                            /\ sid <> [] /\ source_to_cit sources !! sid = Some id).
  { unfold ids. destruct (ClaimDict.evidence claim) as [evidence|]; simpl.
    - destruct (claim_citation_ids_fold (source_to_cit sources) evidence [])
        as [H1 H2]. split; [apply H1; constructor|].
      intros id. unfold claim_citation_ids. rewrite H2. split.
      + intros [H | H]; [inversion H | assumption].
      + intros H. now right.
    - split; [constructor|]. intros id. split; [inversion 1|].
      intros (sid & H & _). inversion H. }
  destruct Hids as [Hnd Hin]. split; [|split; [|split]].
  - apply StronglySorted_le_lt.
    + apply StronglySorted_merge_sort; typeclasses eauto.
    + now rewrite merge_sort_Permutation.
  - intros Hnone. unfold ids. rewrite Hnone. reflexivity.
  - intros id Hid. rewrite merge_sort_Permutation in Hid.
    apply Hin in Hid as (sid & Hsid & Hne & Hlook).
    apply source_to_cit_spec in Hlook as (i & source & H1 & H2 & H3).
    exists i, source. subst sid. repeat split; auto.
    apply (enumerate_lookup _ 1%Z) in H1.
    rewrite build_bibliography_map.
    change (map ?f ?l) with (f <$> l). rewrite list_lookup_fmap, H1. simpl.
    do 2 f_equal. lia.
  - intros sid Hsid Hne Hknown.
    destruct (proj2 (source_to_cit_spec sources sid) Hknown) as [id Hid].
    exists id. split; [|assumption].
    rewrite merge_sort_Permutation. apply Hin. eauto.
Qed.

(* ================================================================== *)
(** * Further properties of the orchestrator *)
(* ================================================================== *)

(** One step of the execution of the graph. *)
Lemma ainvoke_unfold (steps : nat) (w : World.t) (settings : Settings.t)
    (timeout : Q) (n : node) (tick : nat) (elapsed : Q) (state : PipelineState) :
  ainvoke (S steps) w settings timeout n tick elapsed state
  = if Qlt_bool timeout (elapsed + World.duration w tick)%Q
    then (TimedOut state, [])
    else
      match node_function w settings tick n state with
      | Raise e => (Failed e state, [])
      | Ok delta =>
          match next_node n (delta ∪ state) with
          | None => (Finished (delta ∪ state), [(n, delta ∪ state)])
          | Some n' =>
              let run :=
                ainvoke steps w settings timeout n' (S tick)
                  (elapsed + World.duration w tick)%Q (delta ∪ state) in
              (run.1, (n, delta ∪ state) :: run.2)
          end
      end.
Proof.
  cbn [ainvoke]. destruct (Qlt_bool _ _); [reflexivity|].
  destruct (node_function _ _ _ _ _); [|reflexivity].
  destruct (next_node _ _); [|reflexivity].
  now destruct (ainvoke steps _ _ _ _ _ _ _).
Qed.

(** The edge the judge takes, and the retry count of its decision. *)
Lemma judge_next (w : World.t) (settings : Settings.t) (tick : nat)
    (retry_count : Z) (state delta : PipelineState) :
  state !! "retry_count" = Some (VInt retry_count) ->
  node_function w settings tick judge state = Ok delta ->
  exists decision,
    GateDecision.retry_count decision = retry_count
    /\ (delta ∪ state) !! "gate_decision" = Some (VGateDecision decision)
    /\ next_node judge (delta ∪ state)
       = Some (if should_retry decision 2 then retry else finalize).
Proof.
  intros Hrc Hd. cbn [node_function] in Hd. unfold judge_node in Hd. bind_inv Hd.
  injection Hd as <-.
  match goal with
  | E : get as_int state "retry_count" _ = Ok ?z |- _ =>
      unfold get in E; rewrite Hrc in E; simpl in E; injection E as <-
  end.
  set (metrics := calculate_quality_metrics _ _ _ _ _) in *.
  match goal with
  | _ : getitem as_verdicts _ _ = Ok ?v |- _ =>
      exists (evaluate_quality settings metrics v retry_count)
  end.
  split; [apply evaluate_quality_retry_count|].
  split; [apply lookup_union_Some_l; reflexivity|].
  cbn [next_node]. unfold should_retry_check.
  match goal with
  | |- context [default _ (?s !! "should_retry")] =>
      assert (Hsr : s !! "should_retry"
                    = Some (VBool (should_retry
                         (evaluate_quality settings metrics a1 retry_count) 2)))
        by (apply lookup_union_Some_l; reflexivity);
      rewrite Hsr
  end.
  cbn [default truthy]. now destruct (should_retry _ 2).
Qed.

(** The most nodes a run still executes from node [n] with [retry_count]
    retries behind it, and the most retries among them. *)
Definition nodes_left (n : node) (retry_count : Z) : nat :=
  let loops (rc : Z) := 8 * Z.to_nat (2 - rc)%Z in
  match n with
  | plan => 10 + loops retry_count
  | source => 9 + loops retry_count
  | index_ => 8 + loops retry_count
  | summarize => 7 + loops retry_count
  | factcheck => 6 + loops retry_count
  | write => 5 + loops retry_count
  | edit => 4 + loops retry_count
  | seo => 3 + loops retry_count
  | judge => 2 + loops retry_count
  | retry => 9 + loops (retry_count + 1)%Z
  | finalize => 1
  end.

Definition retries_left (n : node) (retry_count : Z) : nat :=
  match n with
  | retry => 1 + Z.to_nat (2 - (retry_count + 1))%Z
  | finalize => 0
  | _ => Z.to_nat (2 - retry_count)%Z
  end.

Definition is_out_of_steps (o : outcome) : bool :=
  match o with OutOfSteps _ => true | _ => false end.

Definition count_retries (history : list (node * PipelineState)) : nat :=
  length (List.filter (fun e : node * PipelineState => bool_decide (e.1 = retry))
                      history).

Lemma ainvoke_bounded (steps : nat) (w : World.t) (settings : Settings.t)
    (timeout : Q) (n : node) (tick : nat) (elapsed : Q) (retry_count : Z)
    (state : PipelineState) :
  state !! "retry_count" = Some (VInt retry_count) ->
  nodes_left n retry_count <= steps ->
  let run := ainvoke steps w settings timeout n tick elapsed state in
  is_out_of_steps run.1 = false
  /\ length run.2 <= nodes_left n retry_count
  /\ count_retries run.2 <= retries_left n retry_count.
Proof.
  revert n tick elapsed retry_count state.
  induction steps as [|steps IH]; intros n tick elapsed rc state Hrc Hsteps.
  { destruct n; simpl in Hsteps; lia. }
  cbv zeta. rewrite ainvoke_unfold.
  destruct (Qlt_bool _ _); [unfold count_retries; simpl; repeat split; lia|].
  destruct (node_function w settings tick n state) as [delta|e] eqn:Hd;
    [|unfold count_retries; simpl; repeat split; lia].
  assert (Hcont : forall n' rc',
            (delta ∪ state) !! "retry_count" = Some (VInt rc') ->
            S (nodes_left n' rc') <= nodes_left n rc ->
            (if bool_decide (n = retry) then 1 else 0) + retries_left n' rc'
            <= retries_left n rc ->
            let run :=
              ainvoke steps w settings timeout n' (S tick)
                (elapsed + World.duration w tick)%Q (delta ∪ state) in
            is_out_of_steps run.1 = false
            /\ length ((n, delta ∪ state) :: run.2) <= nodes_left n rc
            /\ count_retries ((n, delta ∪ state) :: run.2) <= retries_left n rc).
  { intros n' rc' Hrc' Hn Hr.
    destruct (IH n' (S tick) (elapsed + World.duration w tick)%Q rc'
                (delta ∪ state) Hrc' ltac:(lia)) as (H1 & H2 & H3).
    cbv zeta. split; [assumption|]. split; [simpl; lia|].
    unfold count_retries in *. cbn [List.filter fst].
    destruct (bool_decide (n = retry)); simpl in *; lia. }
  assert (Hkeep : n <> retry -> (delta ∪ state) !! "retry_count" = Some (VInt rc)).
  { intros Hn. rewrite <- Hrc. eapply node_keeps_retry_count; eauto. }
  destruct n; cbn [next_node].
  1-8: apply (Hcont _ rc); [apply Hkeep; discriminate | simpl; lia | simpl; lia].
  - (* judge *)
    destruct (judge_next w settings tick rc state delta Hrc Hd)
      as (decision & Hdrc & _ & Hnext).
    cbn [next_node] in Hnext. rewrite Hnext.
    destruct (should_retry decision 2) eqn:Hsr.
    + assert (rc < 2)%Z.
      { destruct (Z.lt_ge_cases rc 2) as [H | H]; [assumption|].
        rewrite should_retry_exhausted in Hsr by lia. discriminate. }
      apply (Hcont _ rc); [apply Hkeep; discriminate | |];
        simpl; unfold nodes_left, retries_left; lia.
    + apply (Hcont _ rc); [apply Hkeep; discriminate | simpl; lia | simpl; lia].
  - (* retry *)
    apply (Hcont _ (rc + 1)%Z).
    + apply lookup_union_Some_l.
      eapply (retry_node_increments w settings tick); eauto.
    + simpl; lia.
    + simpl; lia.
  - (* finalize *)
    unfold count_retries. simpl. repeat split; lia.
Qed.

(** The retry bound. Whatever the collaborators answer, a run started on
    a fresh state and allowed 26 steps never runs out of steps: it executes
    at most 26 nodes, the retry node at most twice. *)
Theorem run_is_bounded (steps : nat) (w : World.t) (settings : Settings.t)
    (timeout : Q) (now : datetime.t) (run_id : str) (topic_spec : TopicSpec.t) :
  26 <= steps ->
  let run :=
    ainvoke steps w settings timeout plan 0 0
      (create_initial_state now run_id topic_spec) in
  is_out_of_steps run.1 = false
  /\ length run.2 <= 26
  /\ count_retries run.2 <= 2.
Proof.
  intros Hsteps.
  apply (ainvoke_bounded steps w settings timeout plan 0 0 0); [reflexivity|].
  simpl. lia.
Qed.

(** The run of [refuted_world], allowed 26 steps. *)
Lemma run_is_bounded_witness :
  is_out_of_steps refuted_run.1 = false
  /\ length refuted_run.2 <= 26
  /\ count_retries refuted_run.2 <= 2.
Proof.
  exact (run_is_bounded 26 refuted_world default_settings 600 epoch (py "run-1")
           example_topic (le_n 26)).
Defined.

(* ------------------------------------------------------------------ *)
(** ** What every node does to the state *)

(** [state.get("logs", [])] as the nodes read it. *)
Definition logs_of (state : PipelineState) : list str :=
  default [] (state !! "logs" ≫= as_logs).

(** The keys of the initial state no node writes. *)
Definition input_keys : list string :=
  ["run_id"; "topic_spec"; "started_at"; "artifacts"; "error"].

(** A history whose consecutive states are related by [R]. *)
Inductive trace (R : node -> PipelineState -> PipelineState -> Prop) :
    PipelineState -> list (node * PipelineState) -> Prop :=
| trace_nil state : trace R state []
| trace_cons state n state' history :
    R n state state' -> trace R state' history ->
    trace R state ((n, state') :: history).

(** One node appends one entry to the logs. *)
Definition appends_log (n : node) (state state' : PipelineState) : Prop :=
  exists entry, state' !! "logs" = Some (VStrList (logs_of state ++ [entry])).

(** One node leaves the input keys alone, and the status unless it is
    [finalize]. *)
Definition keeps_inputs (n : node) (state state' : PipelineState) : Prop :=
  forall key, key ∈ input_keys \/ (key = "status" /\ n <> finalize) ->
              state' !! key = state !! key.

Lemma get_logs_Ok (state : PipelineState) (logs : list str) :
  get as_logs state "logs" [] = Ok logs -> logs = logs_of state.
Proof.
  unfold get, logs_of, type_error.
  destruct (state !! "logs") as [v|]; simpl; [destruct (as_logs v)|];
    simpl; congruence.
Qed.

(** Every node appends one entry to the logs. *)
Lemma node_appends_log (w : World.t) (settings : Settings.t) (tick : nat)
    (n : node) (state delta : PipelineState) :
  node_function w settings tick n state = Ok delta ->
  appends_log n state (delta ∪ state).
Proof.
  intros H. unfold appends_log. destruct n; cbn [node_function] in H.
  all: match type of H with ?f _ _ _ _ = _ => unfold f in H end.
  all: try (destruct (World.get_usage_stats w tick)).
  all: bind_inv H; injection H as <-.
  all: match goal with
       | E : get as_logs _ _ _ = Ok _ |- _ => apply get_logs_Ok in E; subst
       end.
  all: eexists; apply lookup_union_Some_l; reflexivity.
Qed.

(** No node writes an input key, and only [finalize] writes the status. *)
Lemma node_keeps_inputs (w : World.t) (settings : Settings.t) (tick : nat)
    (n : node) (state delta : PipelineState) :
  node_function w settings tick n state = Ok delta ->
  keeps_inputs n state (delta ∪ state).
Proof.
  intros H key Hkey. apply lookup_union_r.
  destruct n; cbn [node_function] in H.
  all: match type of H with ?f _ _ _ _ = _ => unfold f in H end.
  all: try (destruct (World.get_usage_stats w tick)).
  all: bind_inv H; injection H as <-.
  all: destruct Hkey as [Hkey | [-> Hn]];
       [ unfold input_keys in Hkey;
         repeat (apply elem_of_cons in Hkey as [-> | Hkey]; [reflexivity|]);
         apply elem_of_nil in Hkey; contradiction
       | try reflexivity; try congruence ].
Qed.

(** What [finalize] leaves in the state. *)
Lemma finalize_node_result (w : World.t) (settings : Settings.t) (tick : nat)
    (state delta : PipelineState) :
  finalize_node w settings tick state = Ok delta ->
  exists run_id decision run_metrics,
    state !! "run_id" = Some (VStr run_id)
    /\ state !! "gate_decision" = Some (VGateDecision decision)
    /\ (delta ∪ state) !! "gate_decision" = Some (VGateDecision decision)
    /\ (delta ∪ state) !! "status" = Some (VStr (py "completed"))
    /\ (delta ∪ state) !! "completed_at" = Some (VDatetime (World.utcnow w tick 2))
    /\ (delta ∪ state) !! "run_metrics" = Some (VRunMetrics run_metrics)
    /\ RunMetrics.run_id run_metrics = run_id
    /\ RunMetrics.status run_metrics
       = (if GateDecision.passed decision
          then py "completed" else py "completed_with_warnings").
Proof.
  intros H. unfold finalize_node in H.
  destruct (World.get_usage_stats w tick) as [total_tokens total_calls].
  bind_inv H. injection H as <-.
  repeat match goal with
  | E : getitem _ _ _ = Ok _ |- _ =>
      apply getitem_Ok in E as (? & ? & ?)
  end.
  repeat match goal with
  | E : as_str ?v = Some _ |- _ => destruct v; try discriminate E; injection E as ->
  | E : as_gate_decision ?v = Some _ |- _ =>
      destruct v; try discriminate E; injection E as ->
  end.
  do 3 eexists.
  split; [eassumption|]. split; [eassumption|].
  split; [rewrite lookup_union_r by reflexivity; eassumption|].
  split; [apply lookup_union_Some_l; reflexivity|].
  split; [apply lookup_union_Some_l; reflexivity|].
  split; [apply lookup_union_Some_l; reflexivity|].
  split; reflexivity.
Qed.

(* ------------------------------------------------------------------ *)
(** ** Invariants of a run *)

Lemma ainvoke_trace (R : node -> PipelineState -> PipelineState -> Prop)
    (w : World.t) (settings : Settings.t) (timeout : Q) :
  (forall tick n state delta,
     node_function w settings tick n state = Ok delta -> R n state (delta ∪ state)) ->
  forall steps n tick elapsed state,
    trace R state (ainvoke steps w settings timeout n tick elapsed state).2.
Proof.
  intros Hstep steps.
  induction steps as [|steps IH]; intros n tick elapsed state; [constructor|].
  rewrite ainvoke_unfold.
  destruct (Qlt_bool _ _); [constructor|].
  destruct (node_function w settings tick n state) as [delta|e] eqn:Hd;
    [|constructor].
  destruct (next_node n (delta ∪ state)); cbn [snd].
  - constructor; [eauto | apply IH].
  - constructor; [eauto | constructor].
Qed.

Lemma last_cons_default {A} (l : list A) (x d : A) :
  List.last (x :: l) d = List.last l x.
Proof.
  revert x d. induction l as [|y l IH]; intros x d; [reflexivity|].
  change (List.last (x :: y :: l) d) with (List.last (y :: l) d).
  rewrite !IH. reflexivity.
Qed.

(** The state a run ends with is the one after the last node that ran to
    its end (the given state when none did). *)
Lemma ainvoke_last_state (steps : nat) (w : World.t) (settings : Settings.t)
    (timeout : Q) (n : node) (tick : nat) (elapsed : Q) (state : PipelineState) :
  let run := ainvoke steps w settings timeout n tick elapsed state in
  last_state run.1 = List.last (map snd run.2) state.
Proof.
  revert n tick elapsed state.
  induction steps as [|steps IH]; intros n tick elapsed state; [reflexivity|].
  cbv zeta. rewrite ainvoke_unfold.
  destruct (Qlt_bool _ _); [reflexivity|].
  destruct (node_function w settings tick n state) as [delta|e]; [|reflexivity].
  destruct (next_node n (delta ∪ state)); [|reflexivity].
  cbn [fst snd map]. rewrite IH. symmetry. apply last_cons_default.
Qed.

Lemma trace_logs (state : PipelineState) (history : list (node * PipelineState)) :
  trace appends_log state history ->
  forall i n s,
    history !! i = Some (n, s) ->
    exists entries,
      length entries = S i
      /\ s !! "logs" = Some (VStrList (logs_of state ++ entries)).
Proof.
  induction 1 as [|state n' state' history [entry Hentry] _ IH]; intros i n s Hi.
  - discriminate.
  - destruct i as [|i]; simpl in Hi.
    + injection Hi as <- <-. exists [entry]. auto.
    + destruct (IH i n s Hi) as (entries & Hlen & Hs).
      exists (entry :: entries). split; [simpl; lia|].
      rewrite Hs. unfold logs_of at 1. rewrite Hentry. simpl.
      now rewrite <- app_assoc.
Qed.

Lemma trace_inputs (state : PipelineState) (history : list (node * PipelineState)) :
  trace keeps_inputs state history ->
  forall i n s,
    history !! i = Some (n, s) ->
    (forall key, key ∈ input_keys -> s !! key = state !! key)
    /\ (Forall (fun e : node * PipelineState => e.1 <> finalize) (take (S i) history) ->
        s !! "status" = state !! "status").
Proof.
  induction 1 as [|state n' state' history Hstep _ IH]; intros i n s Hi.
  - discriminate.
  - destruct i as [|i]; simpl in Hi.
    + injection Hi as <- <-. split.
      * intros key Hkey. apply Hstep. now left.
      * intros Hf. apply Forall_cons in Hf as [Hn _]. apply Hstep. now right.
    + destruct (IH i n s Hi) as [Hin Hst]. split.
      * intros key Hkey. rewrite Hin by assumption. apply Hstep. now left.
      * intros Hf. cbn [take] in Hf. apply Forall_cons in Hf as [Hn Hf].
        rewrite Hst by assumption. apply Hstep. now right.
Qed.

(** A run that finishes ends with [finalize], which ran once. *)
Lemma ainvoke_finished (steps : nat) (w : World.t) (settings : Settings.t)
    (timeout : Q) (n : node) (tick : nat) (elapsed : Q)
    (state final : PipelineState) :
  (ainvoke steps w settings timeout n tick elapsed state).1 = Finished final ->
  exists history before tick' delta,
    (ainvoke steps w settings timeout n tick elapsed state).2
    = history ++ [(finalize, final)]
    /\ Forall (fun e : node * PipelineState => e.1 <> finalize) history
    /\ before = List.last (map snd history) state
    /\ finalize_node w settings tick' before = Ok delta
    /\ final = delta ∪ before.
Proof.
  revert n tick elapsed state.
  induction steps as [|steps IH]; intros n tick elapsed state; [discriminate|].
  rewrite ainvoke_unfold.
  destruct (Qlt_bool _ _); [discriminate|].
  destruct (node_function w settings tick n state) as [delta|e] eqn:Hd;
    [|discriminate].
  destruct (next_node n (delta ∪ state)) as [n'|] eqn:Hnext; cbn [fst snd].
  - intros H. apply IH in H as (history & before & tick' & delta' & -> & Hf & -> & Hfin & ->).
    exists ((n, delta ∪ state) :: history), (List.last (map snd history) (delta ∪ state)),
           tick', delta'.
    split; [reflexivity|]. split.
    + constructor; [|assumption]. cbn [fst]. intros ->. discriminate.
    + split; [|split; [assumption | reflexivity]].
      cbn [map snd]. symmetry. apply last_cons_default.
  - intros [= <-]. destruct n; try discriminate.
    + cbn [next_node] in Hnext. destruct (String.eqb _ _); discriminate.
    + exists [], state, tick, delta. repeat split; auto.
Qed.

(** A run that does not finish never reaches [finalize]. *)
Lemma ainvoke_unfinished (steps : nat) (w : World.t) (settings : Settings.t)
    (timeout : Q) (n : node) (tick : nat) (elapsed : Q) (state : PipelineState) :
  let run := ainvoke steps w settings timeout n tick elapsed state in
  is_finished run.1 = false ->
  Forall (fun e : node * PipelineState => e.1 <> finalize) run.2.
Proof.
  revert n tick elapsed state.
  induction steps as [|steps IH]; intros n tick elapsed state; [constructor|].
  cbv zeta. rewrite ainvoke_unfold.
  destruct (Qlt_bool _ _); [constructor|].
  destruct (node_function w settings tick n state) as [delta|e]; [|constructor].
  destruct (next_node n (delta ∪ state)) as [n'|] eqn:Hnext; cbn [fst snd];
    [|discriminate].
  intros H. constructor; [|apply IH, H].
  cbn [fst]. intros ->. discriminate.
Qed.

(** The input keys at the end of a run. *)
Lemma ainvoke_inputs (steps : nat) (w : World.t) (settings : Settings.t)
    (timeout : Q) (n : node) (tick : nat) (elapsed : Q) (state : PipelineState) :
  let run := ainvoke steps w settings timeout n tick elapsed state in
  (forall i n' s key,
     run.2 !! i = Some (n', s) -> key ∈ input_keys -> s !! key = state !! key)
  /\ (forall key, key ∈ input_keys -> last_state run.1 !! key = state !! key)
  /\ (is_finished run.1 = false ->
      last_state run.1 !! "status" = state !! "status").
Proof.
  cbv zeta.
  pose proof (ainvoke_trace keeps_inputs w settings timeout
                (node_keeps_inputs w settings) steps n tick elapsed state)
    as Htrace.
  pose proof (ainvoke_last_state steps w settings timeout n tick elapsed state)
    as Hlast.
  pose proof (ainvoke_unfinished steps w settings timeout n tick elapsed state)
    as Hunf.
  cbv zeta in Hlast, Hunf.
  destruct (ainvoke steps w settings timeout n tick elapsed state)
    as [o history]. cbn [fst snd] in *.
  pose proof (trace_inputs state history Htrace) as Hin.
  split; [|split].
  - intros i n' s key Hi Hkey. now apply (Hin i n' s Hi).
  - intros key Hkey. rewrite Hlast.
    destruct (decide (history = [])) as [-> | Hne]; [reflexivity|].
    destruct (exists_last Hne) as (history' & [n' s] & ->).
    rewrite map_app; cbn [map snd]; rewrite last_last.
    apply (Hin (length history') n' s); [|assumption].
    rewrite lookup_app_r by lia. now rewrite Nat.sub_diag.
  - intros Hf. rewrite Hlast.
    destruct (decide (history = [])) as [-> | Hne]; [reflexivity|].
    destruct (exists_last Hne) as (history' & [n' s] & ->).
    rewrite map_app; cbn [map snd]; rewrite last_last.
    apply (Hin (length history') n' s).
    + rewrite lookup_app_r by lia. now rewrite Nat.sub_diag.
    + rewrite take_ge by (rewrite length_app; simpl; lia). auto.
Qed.

(* ------------------------------------------------------------------ *)
(** ** The log, the inputs and the end of a run *)

(** The log is append-only, one entry per node. In any run, from any
    node and state, the state after the [i]-th node that ran to its end
    holds the logs of the given state followed by [i + 1] new entries;
    the state the run ends with holds as many more entries than the given
    one as nodes ran to their end. Retries drop nothing. *)
Theorem run_logs_append_only (steps : nat) (w : World.t) (settings : Settings.t)
    (timeout : Q) (n : node) (tick : nat) (elapsed : Q) (state : PipelineState) :
  let run := ainvoke steps w settings timeout n tick elapsed state in
  (forall i n' s,
     run.2 !! i = Some (n', s) ->
     exists entries,
       length entries = S i
       /\ s !! "logs" = Some (VStrList (logs_of state ++ entries)))
  /\ length (logs_of (last_state run.1))
     = length (logs_of state) + length run.2.
Proof.
  cbv zeta.
  pose proof (ainvoke_trace appends_log w settings timeout
                (node_appends_log w settings) steps n tick elapsed state)
    as Htrace.
  pose proof (ainvoke_last_state steps w settings timeout n tick elapsed state)
    as Hlast.
  cbv zeta in Hlast.
  destruct (ainvoke steps w settings timeout n tick elapsed state)
    as [o history]. cbn [fst snd] in *.
  pose proof (trace_logs state history Htrace) as Hlogs.
  split; [exact Hlogs|].
  rewrite Hlast.
  destruct (decide (history = [])) as [-> | Hne]; [simpl; lia|].
  destruct (exists_last Hne) as (history' & [n' s] & ->).
  rewrite map_app; cbn [map snd]; rewrite last_last. cbn [snd].
  destruct (Hlogs (length history') n' s) as (entries & Hlen & Hs).
  { rewrite lookup_app_r by lia. now rewrite Nat.sub_diag. }
  unfold logs_of at 1. rewrite Hs. simpl.
  rewrite !length_app, Hlen. simpl. lia.
Qed.

(** No node touches the inputs of a run. In any run, every state of the
    history and the state the run ends with agree with the given state on
    [run_id], [topic_spec], [started_at], [artifacts] and [error]; and
    unless the run finishes, the state it ends with still has the status
    of the given state. *)
Theorem run_keeps_inputs (steps : nat) (w : World.t) (settings : Settings.t)
    (timeout : Q) (n : node) (tick : nat) (elapsed : Q) (state : PipelineState) :
  let run := ainvoke steps w settings timeout n tick elapsed state in
  (forall i n' s key,
     run.2 !! i = Some (n', s) -> key ∈ input_keys -> s !! key = state !! key)
  /\ (forall key, key ∈ input_keys -> last_state run.1 !! key = state !! key)
  /\ (is_finished run.1 = false ->
      last_state run.1 !! "status" = state !! "status").
Proof. apply ainvoke_inputs. Qed.

(** A run that finishes ends with [finalize], which ran once and last.
    The final state has status "completed" whether the gate passed or not;
    only the status of its run metrics tells: "completed" when the gate
    decision of the last evaluation passed, "completed_with_warnings"
    otherwise. The run metrics carry the run id of the given state. *)
Theorem finished_run_is_completed (steps : nat) (w : World.t)
    (settings : Settings.t) (timeout : Q) (n : node) (tick : nat) (elapsed : Q)
    (state final : PipelineState) (history : list (node * PipelineState)) :
  ainvoke steps w settings timeout n tick elapsed state = (Finished final, history) ->
  exists before decision run_metrics,
    history = before ++ [(finalize, final)]
    /\ Forall (fun e : node * PipelineState => e.1 <> finalize) before
    /\ final !! "status" = Some (VStr (py "completed"))
    /\ is_Some (final !! "completed_at")
    /\ final !! "gate_decision" = Some (VGateDecision decision)
    /\ final !! "run_metrics" = Some (VRunMetrics run_metrics)
    /\ RunMetrics.status run_metrics
       = (if GateDecision.passed decision
          then py "completed" else py "completed_with_warnings")
    /\ state !! "run_id" = Some (VStr (RunMetrics.run_id run_metrics)).
Proof.
  intros H.
  pose proof (ainvoke_finished steps w settings timeout n tick elapsed state final)
    as Hfin.
  pose proof (ainvoke_trace keeps_inputs w settings timeout
                (node_keeps_inputs w settings) steps n tick elapsed state)
    as Htrace.
  rewrite H in Hfin, Htrace. cbn [fst snd] in Hfin, Htrace.
  destruct (Hfin eq_refl)
    as (before & last & tick' & delta & -> & Hbefore & Hlast & Hd & ->).
  destruct (finalize_node_result w settings tick' last delta Hd)
    as (run_id & decision & run_metrics & Hid & _ & Hgd & Hst & Hc & Hrm & Hrid & Hrs).
  exists before, decision, run_metrics.
  repeat (split; [solve [eauto]|]).
  rewrite Hrid, <- Hid.
  pose proof (trace_inputs state _ Htrace) as Hin.
  destruct (decide (before = [])) as [-> | Hne]; [subst last; reflexivity|].
  destruct (exists_last Hne) as (before' & [n' s] & ->).
  rewrite map_app in Hlast; cbn [map snd] in Hlast; rewrite last_last in Hlast. subst last.
  symmetry. apply (Hin (length before') n' s).
  - rewrite <- app_assoc. rewrite lookup_app_r by lia. now rewrite Nat.sub_diag.
  - unfold input_keys. repeat constructor.
Qed.

(** The run of [refuted_world] finishes with a failed gate. *)
Lemma finished_run_is_completed_witness :
  exists before decision run_metrics,
    refuted_run.2 = before ++ [(finalize, last_state refuted_run.1)]
    /\ Forall (fun e : node * PipelineState => e.1 <> finalize) before
    /\ last_state refuted_run.1 !! "status" = Some (VStr (py "completed"))
    /\ is_Some (last_state refuted_run.1 !! "completed_at")
    /\ last_state refuted_run.1 !! "gate_decision" = Some (VGateDecision decision)
    /\ last_state refuted_run.1 !! "run_metrics" = Some (VRunMetrics run_metrics)
    /\ RunMetrics.status run_metrics
       = (if GateDecision.passed decision
          then py "completed" else py "completed_with_warnings")
    /\ example_state !! "run_id" = Some (VStr (RunMetrics.run_id run_metrics)).
Proof.
  refine (finished_run_is_completed 26 refuted_world default_settings 600 plan 0 0
            example_state (last_state refuted_run.1) refuted_run.2
            (finished_run refuted_run _)).
  vm_compute. reflexivity.
Defined.

(* ------------------------------------------------------------------ *)
(** ** [run_pipeline] when a stage raises *)



(** Fact checking fails: the model provider refuses the request. *)
Definition rate_limited : str := py "Rate limit exceeded".

Definition failing_world : World.t :=
  {| World.plan_article := World.plan_article refuted_world;
     World.harvest_sources := World.harvest_sources refuted_world;
     World.index_sources := World.index_sources refuted_world;
     World.summarize_article := World.summarize_article refuted_world;
     World.verify_claims := fun _ _ => Raise rate_limited;
     World.write_article := World.write_article refuted_world;
     World.edit_article := World.edit_article refuted_world;
     World.optimize_seo := World.optimize_seo refuted_world;
     World.flesch_reading_ease := World.flesch_reading_ease refuted_world;
     World.get_usage_stats := World.get_usage_stats refuted_world;
     World.utcnow := World.utcnow refuted_world;
     World.duration := World.duration refuted_world |}.




(* ------------------------------------------------------------------ *)
(** ** [run_pipeline] on a fresh state *)

(** Started on the state [create_initial_state] builds and allowed 26
    steps, [run_pipeline] always returns a state, whatever the
    collaborators answer or raise. That state has the run id it was given
    and one of two shapes: status "completed" with the error still unset
    and the run metrics present, or status "failed" with an error text,
    [completed_at] at the time of the failure and every other key as in
    the initial state (so no run metrics and no outline). *)
Theorem run_pipeline_outcome (steps : nat) (w : World.t) (settings : Settings.t)
    (started now : datetime.t) (run_id : str) (topic_spec : TopicSpec.t) :
  26 <= steps ->
  let state := create_initial_state started run_id topic_spec in
  exists final,
    run_pipeline steps w settings now state = Some (Ok final)
    /\ final !! "run_id" = Some (VStr run_id)
    /\ ((final !! "status" = Some (VStr (py "completed"))
         /\ final !! "error" = Some VNone
         /\ is_Some (final !! "run_metrics"))
        \/ (final !! "status" = Some (VStr (py "failed"))
            /\ (exists e, final !! "error" = Some (VStr e))
            /\ final !! "completed_at" = Some (VDatetime now)
            /\ final !! "run_metrics" = None
            /\ final !! "outline" = None)).
Proof.
  intros Hsteps state.
  set (timeout := inject_Z (Settings.max_pipeline_time_seconds settings)).
  pose proof (ainvoke_bounded steps w settings timeout plan 0 0 0 state
                eq_refl ltac:(simpl; lia)) as (Hout & _ & _).
  pose proof (ainvoke_inputs steps w settings timeout plan 0 0 state)
    as (_ & Hin & _).
  pose proof (ainvoke_finished steps w settings timeout plan 0 0 state) as Hfin.
  unfold run_pipeline. cbn [getitem]. change (getitem as_str state "run_id")
    with (@Ok str run_id). fold timeout.
  assert (Hfailed : forall e,
            let final := failed_state state e now in
            final !! "run_id" = Some (VStr run_id)
            /\ final !! "status" = Some (VStr (py "failed"))
            /\ (exists e, final !! "error" = Some (VStr e))
            /\ final !! "completed_at" = Some (VDatetime now)
            /\ final !! "run_metrics" = None
            /\ final !! "outline" = None).
  { intros e. unfold failed_state. cbv zeta.
    repeat split; try (exists e); reflexivity. }
  destruct (ainvoke steps w settings timeout plan 0 0 state).1
    as [final | e acc | acc | acc] eqn:Ho.
  - exists final. split; [reflexivity|].
    cbn [last_state] in Hin.
    split; [apply (Hin "run_id"); unfold input_keys; repeat constructor|].
    left.
    destruct (Hfin final eq_refl)
      as (before & last & tick' & delta & _ & _ & _ & Hd & ->).
    destruct (finalize_node_result w settings tick' last delta Hd)
      as (_ & _ & run_metrics & _ & _ & _ & Hst & _ & Hrm & _).
    split; [assumption|]. split; [|eauto].
    apply (Hin "error"). unfold input_keys. repeat constructor.
  - destruct (Hfailed e) as (H1 & H2 & H3 & H4 & H5 & H6).
    eexists. split; [reflexivity|]. split; [assumption|]. right. auto.
  - destruct (Hfailed (py "Pipeline exceeded timeout of "
                       ++ str_of_Z (Settings.max_pipeline_time_seconds settings)
                       ++ py " seconds")) as (H1 & H2 & H3 & H4 & H5 & H6).
    eexists. split; [reflexivity|]. split; [assumption|]. right. auto.
  - discriminate.
Qed.

(** The run of [failing_world], allowed 26 steps. *)
Lemma run_pipeline_outcome_witness :
  exists final,
    run_pipeline 26 failing_world default_settings epoch example_state
    = Some (Ok final)
    /\ final !! "run_id" = Some (VStr (py "run-1"))
    /\ ((final !! "status" = Some (VStr (py "completed"))
         /\ final !! "error" = Some VNone
         /\ is_Some (final !! "run_metrics"))
        \/ (final !! "status" = Some (VStr (py "failed"))
            /\ (exists e, final !! "error" = Some (VStr e))
            /\ final !! "completed_at" = Some (VDatetime epoch)
            /\ final !! "run_metrics" = None
            /\ final !! "outline" = None)).
Proof.
  exact (run_pipeline_outcome 26 failing_world default_settings epoch epoch
           (py "run-1") example_topic (le_n 26)).
Defined.

(* ================================================================== *)
(** * [app/tools/search.py] *)
(* ================================================================== *)

(** [SearchResult]: a dict with the keys [url], [title], [content], [score]. *)
Module SearchResult.
Record t := mk {
  url : str;
  title : str;
  content : str;
  score : Q
}.
End SearchResult.

(** The locals [seen_urls] and [merged] of [multi_query_search]. *)
Definition merge_acc : Type := gset str * list SearchResult.t.

(** One round of the inner loop. *)
Definition merge_result (acc : merge_acc) (result : SearchResult.t) : merge_acc :=
  let '(seen_urls, merged) := acc in
  let url := SearchResult.url result in
  if negb (bool_decide (url = [])) && bool_decide (url ∉ seen_urls)
  then ({[url]} ∪ seen_urls, merged ++ [result])
  else acc.

(** One round of the outer loop: an exception that [gather] returned in
    the place of a list is skipped. *)
Definition merge_results (acc : merge_acc)
    (results : result (list SearchResult.t)) : merge_acc :=
  match results with
  | Raise _ => acc
  | Ok results => fold_left merge_result results acc
  end.

(** [multi_query_search(queries, max_results_per_query)], over [search],
    which asks the search engines outside the repository. [gather] is
    called with [return_exceptions=True]: a search that raises leaves its
    exception in the place of its results. *)
Definition multi_query_search (search : str -> Z -> result (list SearchResult.t))
    (queries : list str) (max_results_per_query : Z) : list SearchResult.t :=
  (* Execute searches in parallel *)
  let results_lists := map (fun q => search q max_results_per_query) queries in
  (* Merge and deduplicate *)
  (fold_left merge_results results_lists (∅, [])).2.

(** ** The merge *)

Definition urls (results : list SearchResult.t) : list str :=
  map SearchResult.url results.

(** The results of the searches that succeeded, in the order of the
    queries. *)
Definition found (results_lists : list (result (list SearchResult.t)))
    : list SearchResult.t :=
  concat (map (fun results => match results with Ok l => l | Raise _ => [] end)
              results_lists).

(** The inner loop alone, over one list. *)
Definition merge_list (results : list SearchResult.t) : list SearchResult.t :=
  (fold_left merge_result results (∅, [])).2.

Lemma fold_merge_results (results_lists : list (result (list SearchResult.t)))
    (acc : merge_acc) :
  fold_left merge_results results_lists acc
  = fold_left merge_result (found results_lists) acc.
Proof.
  revert acc. induction results_lists as [|[l|e] rest IH]; intros acc;
    [reflexivity| |]; unfold found in *; simpl.
  - rewrite fold_left_app. apply IH.
  - apply IH.
Qed.

Definition merge_inv (acc : merge_acc) : Prop :=
  acc.1 = list_to_set (urls acc.2).

Lemma merge_result_spec (acc : merge_acc) (result : SearchResult.t) :
  merge_inv acc ->
  merge_inv (merge_result acc result)
  /\ (merge_result acc result).2
     = if decide (SearchResult.url result = []
                  \/ SearchResult.url result ∈ urls acc.2)
       then acc.2 else acc.2 ++ [result].
Proof.
  destruct acc as [seen_urls merged]. unfold merge_inv. simpl. intros ->.
  destruct (decide (SearchResult.url result = [])) as [He | He].
  { rewrite bool_decide_eq_true_2 by assumption. simpl.
    split; [reflexivity|]. destruct (decide _); tauto. }
  rewrite bool_decide_eq_false_2 by assumption. simpl.
  destruct (decide (SearchResult.url result ∈ urls merged)) as [Hin | Hin].
  - rewrite bool_decide_eq_false_2 by (rewrite elem_of_list_to_set; tauto).
    simpl. split; [reflexivity|]. destruct (decide _); tauto.
  - rewrite bool_decide_eq_true_2 by (rewrite elem_of_list_to_set; tauto).
    simpl. split.
    + unfold urls. rewrite map_app, list_to_set_app_L. simpl.
      rewrite union_empty_r_L. apply (comm_L (∪)).
    + destruct (decide _); tauto.
Qed.

Lemma merge_fold_inv (results : list SearchResult.t) (acc : merge_acc) :
  merge_inv acc -> merge_inv (fold_left merge_result results acc).
Proof.
  revert acc. induction results as [|r results IH]; intros acc H; [exact H|].
  simpl. apply IH. now apply merge_result_spec.
Qed.

Lemma merge_list_snoc (results : list SearchResult.t) (result : SearchResult.t) :
  merge_list (results ++ [result])
  = if decide (SearchResult.url result = []
               \/ SearchResult.url result ∈ urls (merge_list results))
    then merge_list results else merge_list results ++ [result].
Proof.
  unfold merge_list. rewrite fold_left_app. simpl.
  apply merge_result_spec, merge_fold_inv. reflexivity.
Qed.

Lemma merge_list_sublist (results : list SearchResult.t) :
  sublist (merge_list results) results.
Proof.
  induction results as [|r results IH] using rev_ind; [constructor|].
  rewrite merge_list_snoc. destruct (decide _).
  - now apply sublist_inserts_r.
  - now apply sublist_app.
Qed.

Lemma merge_list_urls (results : list SearchResult.t) :
  NoDup (urls (merge_list results))
  /\ (forall url, url ∈ urls (merge_list results)
                  <-> url <> [] /\ url ∈ urls results).
Proof.
  induction results as [|r results [IH1 IH2]] using rev_ind.
  - split; [constructor|]. intros url. simpl. split.
    + intros H. apply elem_of_nil in H. contradiction.
    + intros [_ H]. exact H.
  - rewrite merge_list_snoc.
    destruct (decide _) as [Hd | Hd].
    + split; [assumption|]. intros url. rewrite IH2. unfold urls.
      rewrite map_app, elem_of_app. simpl. rewrite list_elem_of_singleton.
      split; [tauto|]. intros [Hne [H | ->]]; [tauto|].
      destruct Hd as [Hd | Hd]; [contradiction|]. now apply IH2.
    + unfold urls in *. rewrite !map_app. simpl. split.
      * apply NoDup_app. split; [assumption|]. split; [|apply NoDup_singleton].
        intros x Hx Hx'. apply list_elem_of_singleton in Hx'. subst. tauto.
      * intros url. rewrite !elem_of_app, IH2, list_elem_of_singleton.
        split; [|tauto]. intros [H | ->]; [tauto|]. tauto.
Qed.

(** What is kept is the first occurrence of its URL. *)
Lemma merge_list_first (results : list SearchResult.t) (result : SearchResult.t) :
  result ∈ merge_list results ->
  exists before after,
    results = before ++ result :: after
    /\ SearchResult.url result ∉ urls before.
Proof.
  induction results as [|r results IH] using rev_ind.
  - intros H. apply elem_of_nil in H. contradiction.
  - rewrite merge_list_snoc.
    assert (Hold : result ∈ merge_list results ->
                   exists before after,
                     results ++ [r] = before ++ result :: after
                     /\ SearchResult.url result ∉ urls before).
    { intros H. destruct (IH H) as (before & after & -> & Hb).
      exists before, (after ++ [r]). now rewrite <- app_assoc. }
    destruct (decide _) as [Hd | Hd]; [exact Hold|].
    intros H. apply elem_of_app in H as [H | H]; [auto|].
    apply list_elem_of_singleton in H. subst r.
    exists results, []. split; [reflexivity|].
    intros Hin. apply Hd. right. apply merge_list_urls. tauto.
Qed.

Lemma merge_list_keeps_first (before after : list SearchResult.t)
    (result : SearchResult.t) :
  SearchResult.url result <> [] ->
  SearchResult.url result ∉ urls before ->
  result ∈ merge_list (before ++ result :: after).
Proof.
  intros Hne Hb.
  assert (H : result ∈ merge_list (before ++ [result])).
  { rewrite merge_list_snoc. destruct (decide _) as [[Hd | Hd] | Hd].
    - contradiction.
    - apply merge_list_urls in Hd. tauto.
    - apply elem_of_app. right. now apply list_elem_of_singleton. }
  revert H. change (result :: after) with ([result] ++ after).
  rewrite app_assoc. generalize (before ++ [result]). intros l H.
  induction after as [|r after IH] using rev_ind; [now rewrite app_nil_r|].
  rewrite app_assoc, merge_list_snoc.
  destruct (decide _); [assumption|]. apply elem_of_app. now left.
Qed.

(** The merge of [multi_query_search]. Of the results of the searches
    that succeeded, taken in the order of the queries, it keeps exactly
    those with a non-empty URL that no earlier result has, in that order:
    no URL occurs twice in what it returns, and every non-empty URL found
    occurs in it. A search that failed costs nothing but its own results. *)
Theorem multi_query_search_spec
    (search : str -> Z -> result (list SearchResult.t))
    (queries : list str) (max_results_per_query : Z) :
  let all := found (map (fun q => search q max_results_per_query) queries) in
  let merged := multi_query_search search queries max_results_per_query in
  sublist merged all
  /\ NoDup (urls merged)
  /\ (forall url, url ∈ urls merged <-> url <> [] /\ url ∈ urls all)
  /\ (forall result,
        result ∈ merged <->
        SearchResult.url result <> []
        /\ exists before after,
             all = before ++ result :: after
             /\ SearchResult.url result ∉ urls before).
Proof.
  cbv zeta. unfold multi_query_search. rewrite fold_merge_results.
  fold (merge_list (found (map (fun q => search q max_results_per_query) queries))).
  generalize (found (map (fun q => search q max_results_per_query) queries)).
  intros all.
  split; [apply merge_list_sublist|].
  split; [apply merge_list_urls|].
  split; [apply merge_list_urls|].
  intros result. split.
  - intros H. split.
    + assert (Hu : SearchResult.url result ∈ urls (merge_list all))
        by (unfold urls; apply list_elem_of_fmap; eauto).
      apply merge_list_urls in Hu. tauto.
    + now apply merge_list_first.
  - intros (Hne & before & after & -> & Hb). now apply merge_list_keeps_first.
Qed.

(* ================================================================== *)
(** * [app/tools/scrape.py]: [fetch_url] *)
(* ================================================================== *)

(** What the code reads of an [httpx.Response]. *)
Module Response.
Record t := mk {
  status_code : Z;
  content_type : option str;   (* [headers.get("content-type")] *)
  url : str;
  encoding : option str;
  text : str
}.
End Response.

(** What [client.get] does at one attempt: it answers, it raises
    [httpx.TimeoutException] or [httpx.ConnectError], or it raises
    something else. *)
Inductive get_outcome :=
| Responds (response : Response.t)
| Unreachable (message : str)
| Breaks (message : str).

(** The exceptions [fetch_url] lets out. *)
Inductive fetch_error :=
| HTTPStatusError (status_code : Z)
| TransportError (message : str)
| ValueError (message : str)
| OtherError (message : str)
| RuntimeError (message : str).

Module FetchMetadata.
Record t := mk {
  status_code : Z;
  content_type : str;
  final_url : str;
  encoding : str
}.
End FetchMetadata.

(** What a call of [fetch_url] did: its result, and the seconds of each
    [asyncio.sleep] in turn. *)
Module Fetch.
Record t := mk {
  outcome : (str * FetchMetadata.t) + fetch_error;
  requests : nat;
  sleeps : list Z
}.
End Fetch.

Definition no_retry_status (status_code : Z) : bool :=
  bool_decide (status_code ∈ [403; 404; 410]%Z).

(** The body of the loop of [fetch_url] from [attempt] on, for the
    attempts [range(max_retries + 1)] still to make. [client_get] tells
    what the request of each attempt does and [raise_for_status] whether
    the library raises [HTTPStatusError] for a response. *)
Fixpoint fetch_attempts (client_get : nat -> get_outcome)
    (raise_for_status : Response.t -> bool) (url : str) (max_retries : Z)
    (attempts : list nat) : Fetch.t :=
  match attempts with
  | [] =>
      {| Fetch.outcome := inr (RuntimeError (py "Failed to fetch " ++ url));
         Fetch.requests := 0; Fetch.sleeps := [] |}
  | attempt :: attempts' =>
      let raise_ (e : fetch_error) :=
        {| Fetch.outcome := inr e; Fetch.requests := 1; Fetch.sleeps := [] |} in
      let retry_or_raise (e : fetch_error) :=
        if (Z.of_nat attempt <? max_retries)%Z then
          let later :=
            fetch_attempts client_get raise_for_status url max_retries attempts' in
          {| Fetch.outcome := Fetch.outcome later;
             Fetch.requests := S (Fetch.requests later);
             Fetch.sleeps := (2 ^ Z.of_nat attempt)%Z :: Fetch.sleeps later |}
        else raise_ e in
      match client_get attempt with
      | Responds response =>
          if raise_for_status response then
            (* except httpx.HTTPStatusError *)
            if no_retry_status (Response.status_code response)
            then raise_ (HTTPStatusError (Response.status_code response))
            else retry_or_raise (HTTPStatusError (Response.status_code response))
          else
            (* Check content type *)
            let content_type := default [] (Response.content_type response) in
            if negb (contains (py "text/html") content_type)
               && negb (contains (py "application/xhtml") content_type)
            then raise_ (ValueError (py "Unsupported content type: " ++ content_type))
            else
              let metadata :=
                {| FetchMetadata.status_code := Response.status_code response;
                   FetchMetadata.content_type := content_type;
                   FetchMetadata.final_url := Response.url response;
                   FetchMetadata.encoding :=
                     match Response.encoding response with
                     | Some (c :: e) => c :: e
                     | _ => py "utf-8"
                     end |} in
              {| Fetch.outcome := inl (Response.text response, metadata);
                 Fetch.requests := 1; Fetch.sleeps := [] |}
      | Unreachable message =>
          (* except (httpx.TimeoutException, httpx.ConnectError) *)
          retry_or_raise (TransportError message)
      | Breaks message =>
          (* except Exception *)
          raise_ (OtherError message)
      end
  end.

(** [range(n)] *)
Definition range (n : Z) : list nat := seq 0 (Z.to_nat n).

Definition fetch_url (client_get : nat -> get_outcome)
    (raise_for_status : Response.t -> bool) (url : str) (max_retries : Z)
    : Fetch.t :=
  fetch_attempts client_get raise_for_status url max_retries
    (range (max_retries + 1)).

(** ** The retry policy *)

(** The attempts after which [fetch_url] tries again, when it has
    attempts left: no connection or no answer in time, or an error status
    other than 403, 404 and 410. *)
Definition retryable (raise_for_status : Response.t -> bool)
    (o : get_outcome) : bool :=
  match o with
  | Responds response =>
      raise_for_status response
      && negb (no_retry_status (Response.status_code response))
  | Unreachable _ => true
  | Breaks _ => false
  end.

(** Whether the media type names HTML. *)
Definition is_html (response : Response.t) : bool :=
  let content_type := default [] (Response.content_type response) in
  contains (py "text/html") content_type
  || contains (py "application/xhtml") content_type.

(** What the deciding attempt makes of the fetch. *)
Definition decided (raise_for_status : Response.t -> bool) (o : get_outcome)
    (outcome : (str * FetchMetadata.t) + fetch_error) : Prop :=
  match outcome with
  | inl (text, metadata) =>
      exists response,
        o = Responds response /\ raise_for_status response = false
        /\ is_html response = true
        /\ text = Response.text response
        /\ FetchMetadata.status_code metadata = Response.status_code response
        /\ FetchMetadata.final_url metadata = Response.url response
  | inr (HTTPStatusError status_code) =>
      exists response,
        o = Responds response /\ raise_for_status response = true
        /\ status_code = Response.status_code response
  | inr (TransportError message) => o = Unreachable message
  | inr (ValueError _) =>
      exists response,
        o = Responds response /\ raise_for_status response = false
        /\ is_html response = false
  | inr (OtherError message) => o = Breaks message
  | inr (RuntimeError _) => False
  end.

Lemma fetch_attempts_spec (client_get : nat -> get_outcome)
    (raise_for_status : Response.t -> bool) (url : str) (max_retries : Z)
    (n first : nat) :
  Z.of_nat (first + n) = max_retries ->
  let fetch :=
    fetch_attempts client_get raise_for_status url max_retries (seq first (S n)) in
  exists k,
    Fetch.requests fetch = S k
    /\ k <= n
    /\ (forall i, i < k -> retryable raise_for_status (client_get (first + i)) = true)
    /\ (k < n -> retryable raise_for_status (client_get (first + k)) = false)
    /\ Fetch.sleeps fetch = map (fun i => (2 ^ Z.of_nat i)%Z) (seq first k)
    /\ decided raise_for_status (client_get (first + k)) (Fetch.outcome fetch).
Proof.
  revert first. induction n as [|n IH]; intros first Hmax.
  - cbv zeta. cbn [seq fetch_attempts].
    replace (Z.of_nat first <? max_retries)%Z with false
      by (symmetry; apply Z.ltb_ge; lia).
    exists 0. rewrite Nat.add_0_r.
    destruct (client_get first) as [response | message | message] eqn:Hget;
      [destruct (raise_for_status response) eqn:Hraise;
       [destruct (no_retry_status _) eqn:Hno
       |destruct (contains (py "text/html") _) eqn:H1;
        [|destruct (contains (py "application/xhtml") _) eqn:H2]]
      | | ];
      cbn [negb andb Fetch.requests Fetch.sleeps Fetch.outcome decided map seq];
      (split; [reflexivity|]); (split; [lia|]); (split; [intros; lia|]);
      (split; [intros; lia|]); (split; [reflexivity|]);
      try reflexivity; eexists; unfold is_html; rewrite ?H1, ?H2; auto 10.
  - cbv zeta. change (seq first (S (S n))) with (first :: seq (S first) (S n)).
    cbn [fetch_attempts].
    replace (Z.of_nat first <? max_retries)%Z with true
      by (symmetry; apply Z.ltb_lt; lia).
    specialize (IH (S first) ltac:(lia)). cbv zeta in IH.
    destruct IH as (k & Hreq & Hk & Hbefore & Hstop & Hsleeps & Hdecided).
    assert (Hretry :
      retryable raise_for_status (client_get first) = true ->
      exists k',
        S (Fetch.requests
             (fetch_attempts client_get raise_for_status url max_retries
                (seq (S first) (S n)))) = S k'
        /\ k' <= S n
        /\ (forall i, i < k' ->
              retryable raise_for_status (client_get (first + i)) = true)
        /\ (k' < S n ->
              retryable raise_for_status (client_get (first + k')) = false)
        /\ (2 ^ Z.of_nat first)%Z
           :: Fetch.sleeps
                (fetch_attempts client_get raise_for_status url max_retries
                   (seq (S first) (S n)))
           = map (fun i => (2 ^ Z.of_nat i)%Z) (seq first k')
        /\ decided raise_for_status (client_get (first + k'))
             (Fetch.outcome
                (fetch_attempts client_get raise_for_status url max_retries
                   (seq (S first) (S n))))).
    { intros Hr. exists (S k). rewrite Hreq, Hsleeps.
      replace (first + S k) with (S first + k) by lia.
      split; [reflexivity|]. split; [lia|]. split.
      - intros [|i] Hi; [now rewrite Nat.add_0_r|].
        replace (first + S i) with (S first + i) by lia. apply Hbefore. lia.
      - split; [intros; apply Hstop; lia|]. split; [reflexivity | assumption]. }
    assert (Hstop0 : forall o,
      retryable raise_for_status (client_get first) = false ->
      decided raise_for_status (client_get first) o ->
      exists k',
        1 = S k' /\ k' <= S n
        /\ (forall i, i < k' ->
              retryable raise_for_status (client_get (first + i)) = true)
        /\ (k' < S n ->
              retryable raise_for_status (client_get (first + k')) = false)
        /\ @nil Z = map (fun i => (2 ^ Z.of_nat i)%Z) (seq first k')
        /\ decided raise_for_status (client_get (first + k')) o).
    { intros o Hr Hd. exists 0. rewrite Nat.add_0_r.
      split; [reflexivity|]. split; [lia|]. split; [intros; lia|].
      split; [auto|]. split; [reflexivity | assumption]. }
    destruct (client_get first) as [response | message | message] eqn:Hget;
      [destruct (raise_for_status response) eqn:Hraise;
       [destruct (no_retry_status _) eqn:Hno
       |destruct (contains (py "text/html") _) eqn:H1;
        [|destruct (contains (py "application/xhtml") _) eqn:H2]]
      | | ];
      cbn [negb andb Fetch.requests Fetch.sleeps Fetch.outcome].
    + apply Hstop0; [simpl; now rewrite Hraise, Hno|].
      simpl. eauto.
    + apply Hretry. simpl. now rewrite Hraise, Hno.
    + apply Hstop0; [simpl; now rewrite Hraise|].
      simpl. eexists. unfold is_html. rewrite H1. auto 10.
    + apply Hstop0; [simpl; now rewrite Hraise|].
      simpl. eexists. unfold is_html. rewrite H1, H2. auto 10.
    + apply Hstop0; [simpl; now rewrite Hraise|].
      simpl. eexists. unfold is_html. rewrite H1, H2. auto 10.
    + apply Hretry. reflexivity.
    + apply Hstop0; [reflexivity|]. reflexivity.
Qed.

(** The retry policy of [fetch_url], for [max_retries >= 0]. It makes
    [k + 1] requests with [k <= max_retries]: the first [k] ended in a
    timeout, a failed connection or an error status other than 403, 404
    and 410; the last one ended differently, or was the last one allowed.
    Before the retry number [i] it sleeps [2 ** i] seconds and nowhere
    else. The last request decides: its text and metadata when the
    response passes the status check and names HTML as its type, and its
    own exception otherwise. The [RuntimeError] of the last line is never
    raised. *)
Theorem fetch_url_retry_policy (client_get : nat -> get_outcome)
    (raise_for_status : Response.t -> bool) (url : str) (max_retries : Z) :
  (0 <= max_retries)%Z ->
  let fetch := fetch_url client_get raise_for_status url max_retries in
  exists k,
    Fetch.requests fetch = S k
    /\ (Z.of_nat k <= max_retries)%Z
    /\ (forall i, i < k -> retryable raise_for_status (client_get i) = true)
    /\ ((Z.of_nat k < max_retries)%Z ->
        retryable raise_for_status (client_get k) = false)
    /\ Fetch.sleeps fetch = map (fun i => (2 ^ Z.of_nat i)%Z) (seq 0 k)
    /\ decided raise_for_status (client_get k) (Fetch.outcome fetch).
Proof.
  intros Hmax. cbv zeta. unfold fetch_url, range.
  replace (Z.to_nat (max_retries + 1)) with (S (Z.to_nat max_retries)) by lia.
  destruct (fetch_attempts_spec client_get raise_for_status url max_retries
              (Z.to_nat max_retries) 0 ltac:(lia))
    as (k & Hreq & Hk & Hbefore & Hstop & Hsleeps & Hdecided).
  exists k. repeat split; auto. lia. intros. apply Hstop. lia.
Qed.

(** Two attempts without an answer, then a page. *)
Definition example_page : Response.t :=
  {| Response.status_code := 200;
     Response.content_type := Some (py "text/html; charset=utf-8");
     Response.url := py "https://example.org/a";
     Response.encoding := None;
     Response.text := py "<html></html>" |}.

Definition flaky_get (attempt : nat) : get_outcome :=
  match attempt with
  | 0 | 1 => Unreachable (py "timed out")
  | _ => Responds example_page
  end.

Definition is_error_status (response : Response.t) : bool :=
  (400 <=? Response.status_code response)%Z.

Lemma fetch_url_retry_policy_witness :
  let fetch := fetch_url flaky_get is_error_status (py "https://example.org/a") 2 in
  exists k,
    Fetch.requests fetch = S k
    /\ (Z.of_nat k <= 2)%Z
    /\ (forall i, i < k -> retryable is_error_status (flaky_get i) = true)
    /\ ((Z.of_nat k < 2)%Z -> retryable is_error_status (flaky_get k) = false)
    /\ Fetch.sleeps fetch = map (fun i => (2 ^ Z.of_nat i)%Z) (seq 0 k)
    /\ decided is_error_status (flaky_get k) (Fetch.outcome fetch).
Proof.
  apply (fetch_url_retry_policy flaky_get is_error_status
           (py "https://example.org/a") 2).
  lia.
Defined.

(* ================================================================== *)
(** * [app/llm/clients.py]: the rate limiter *)
(* ================================================================== *)

(** The fields of [RateLimiter]; times are seconds of [time.time()]. *)
Module RateLimiter.
Record t := mk {
  max_calls : Z;
  max_tokens : Z;
  call_times : list Q;
  token_usage : list (Q * Z)
}.
End RateLimiter.

(** [now - t < 60] *)
Definition within_minute (now t : Q) : bool := Qlt_bool (now - t) 60.

(** [sum(tokens for _, tokens in token_usage)] *)
Definition tokens_used (token_usage : list (Q * Z)) : Z :=
  fold_left (fun total entry => (total + entry.2)%Z) token_usage 0%Z.

(** The first [while] of [acquire]. Every round sleeps a second and reads
    the clock again; [reading] counts the readings of [time.time()] and
    [clock] gives them. [None]: the loop is still running when [fuel]
    rounds are over. *)
Fixpoint await_calls (fuel : nat) (clock : nat -> Q) (max_calls : Z)
    (reading : nat) (now : Q) (call_times : list Q)
    : option (nat * Q * list Q) :=
  if (max_calls <=? Z.of_nat (length call_times))%Z then
    match fuel with
    | O => None
    | S fuel' =>
        let now := clock (S reading) in
        await_calls fuel' clock max_calls (S reading) now
          (List.filter (within_minute now) call_times)
    end
  else Some (reading, now, call_times).

(** The second [while] of [acquire]. *)
Fixpoint await_tokens (fuel : nat) (clock : nat -> Q) (max_tokens : Z)
    (estimated_tokens : Z) (reading : nat) (now : Q)
    (token_usage : list (Q * Z)) : option (nat * Q * list (Q * Z)) :=
  if (max_tokens <? tokens_used token_usage + estimated_tokens)%Z then
    match fuel with
    | O => None
    | S fuel' =>
        let now := clock (S reading) in
        await_tokens fuel' clock max_tokens estimated_tokens (S reading) now
          (List.filter (fun entry => within_minute now entry.1) token_usage)
    end
  else Some (reading, now, token_usage).

(** [RateLimiter.acquire(estimated_tokens)]: the limiter after the call
    and the number of seconds slept. *)
Definition acquire (fuel : nat) (clock : nat -> Q) (self : RateLimiter.t)
    (estimated_tokens : Z) : option (RateLimiter.t * nat) :=
  let now := clock 0 in
  (* Remove old entries (> 60 seconds ago) *)
  let call_times := List.filter (within_minute now) (RateLimiter.call_times self) in
  let token_usage :=
    List.filter (fun entry => within_minute now entry.1)
                (RateLimiter.token_usage self) in
  (* Check call limit *)
  match await_calls fuel clock (RateLimiter.max_calls self) 0 now call_times with
  | None => None
  | Some (reading, now, call_times) =>
      (* Check token limit *)
      match await_tokens fuel clock (RateLimiter.max_tokens self)
              estimated_tokens reading now token_usage with
      | None => None
      | Some (reading, now, token_usage) =>
          (* Record this call *)
          Some ({| RateLimiter.max_calls := RateLimiter.max_calls self;
                   RateLimiter.max_tokens := RateLimiter.max_tokens self;
                   RateLimiter.call_times := call_times ++ [now];
                   RateLimiter.token_usage :=
                     token_usage ++ [(now, estimated_tokens)] |},
                reading)
      end
  end.

(** What [GroqClient.chat] asks the limiter for: a quarter of the
    characters of the messages, and the tokens the answer may take. *)
Definition estimated_tokens (contents : list str) (max_tokens : Z) : Z :=
  (fold_left (fun total content => total + Z.of_nat (length content)) contents 0
   / 4 + max_tokens)%Z.

(** ** What the limiter guarantees, and when it hangs *)

Definition nonnegative_usage (token_usage : list (Q * Z)) : Prop :=
  Forall (fun entry : Q * Z => (0 <= entry.2)%Z) token_usage.

Lemma tokens_used_from (token_usage : list (Q * Z)) (total : Z) :
  fold_left (fun total entry => (total + entry.2)%Z) token_usage total
  = (total + tokens_used token_usage)%Z.
Proof.
  unfold tokens_used. revert total.
  induction token_usage as [|e l IH]; intros total; simpl; [lia|].
  rewrite IH, (IH (0 + e.2)%Z). lia.
Qed.

Lemma tokens_used_cons (entry : Q * Z) (token_usage : list (Q * Z)) :
  tokens_used (entry :: token_usage) = (entry.2 + tokens_used token_usage)%Z.
Proof. unfold tokens_used at 1. simpl. now rewrite tokens_used_from. Qed.

Lemma tokens_used_app (l l' : list (Q * Z)) :
  tokens_used (l ++ l') = (tokens_used l + tokens_used l')%Z.
Proof.
  induction l as [|e l IH]; [reflexivity|].
  simpl. rewrite !tokens_used_cons, IH. lia.
Qed.

Lemma tokens_used_nonneg (token_usage : list (Q * Z)) :
  nonnegative_usage token_usage -> (0 <= tokens_used token_usage)%Z.
Proof.
  induction 1 as [|e l He _ IH]; [reflexivity|].
  rewrite tokens_used_cons. lia.
Qed.

Lemma sublist_List_filter {A} (p : A -> bool) (l : list A) :
  sublist (List.filter p l) l.
Proof.
  induction l as [|x l IH]; simpl; [constructor|].
  destruct (p x); now constructor.
Qed.

Lemma nonnegative_usage_filter (p : Q * Z -> bool) (token_usage : list (Q * Z)) :
  nonnegative_usage token_usage -> nonnegative_usage (List.filter p token_usage).
Proof.
  unfold nonnegative_usage. rewrite !List.Forall_forall.
  intros H e He. apply List.filter_In in He. apply H, He.
Qed.

Lemma await_tokens_hangs (fuel : nat) (clock : nat -> Q)
    (max_tokens estimated_tokens : Z) (reading : nat) (now : Q)
    (token_usage : list (Q * Z)) :
  (max_tokens < estimated_tokens)%Z ->
  nonnegative_usage token_usage ->
  await_tokens fuel clock max_tokens estimated_tokens reading now token_usage
  = None.
Proof.
  intros Hest. revert reading now token_usage.
  induction fuel as [|fuel IH]; intros reading now token_usage Hnn; simpl.
  - pose proof (tokens_used_nonneg _ Hnn).
    now rewrite (proj2 (Z.ltb_lt _ _)) by lia.
  - pose proof (tokens_used_nonneg _ Hnn).
    rewrite (proj2 (Z.ltb_lt _ _)) by lia.
    apply IH. now apply nonnegative_usage_filter.
Qed.

(** A request too large for the token budget is never let through. When
    the estimate for a chat (a quarter of the characters of its messages
    plus the answer's [max_tokens]) exceeds [max_tokens_per_minute],
    [acquire] does not return, however long it runs and whatever the
    clock shows: the second loop waits for usage to expire that is not
    there. With the default budget of 14000 tokens and answers of 4096,
    messages of 39620 characters are enough. *)
Theorem acquire_hangs_on_large_request (fuel : nat) (clock : nat -> Q)
    (self : RateLimiter.t) (contents : list str) (max_tokens : Z) :
  (RateLimiter.max_tokens self < estimated_tokens contents max_tokens)%Z ->
  nonnegative_usage (RateLimiter.token_usage self) ->
  acquire fuel clock self (estimated_tokens contents max_tokens) = None.
Proof.
  intros Hest Hnn. unfold acquire.
  destruct (await_calls _ _ _ _ _ _) as [[[reading now] call_times]|];
    [|reflexivity].
  rewrite await_tokens_hangs; auto using nonnegative_usage_filter.
Qed.

(** A fresh limiter with the default budgets. *)
Definition default_limiter : RateLimiter.t :=
  {| RateLimiter.max_calls := 30;
     RateLimiter.max_tokens := 14000;
     RateLimiter.call_times := [];
     RateLimiter.token_usage := [] |}.

(** Ten messages of 3962 characters. *)
Definition long_prompt : list str := repeat (repeat "a"%char 3962) 10.

Lemma acquire_hangs_on_large_request_witness :
  acquire 1000 (fun reading => inject_Z (Z.of_nat reading)) default_limiter
    (estimated_tokens long_prompt 4096) = None.
Proof.
  apply (acquire_hangs_on_large_request 1000
           (fun reading => inject_Z (Z.of_nat reading)) default_limiter
           long_prompt 4096).
  - vm_compute. reflexivity.
  - constructor.
Defined.

Lemma await_calls_spec (fuel : nat) (clock : nat -> Q) (max_calls : Z)
    (reading reading' : nat) (now now' : Q) (call_times call_times' : list Q) :
  await_calls fuel clock max_calls reading now call_times
  = Some (reading', now', call_times') ->
  (Z.of_nat (length call_times') < max_calls)%Z
  /\ sublist call_times' call_times
  /\ reading <= reading'.
Proof.
  revert reading now call_times.
  induction fuel as [|fuel IH]; intros reading now call_times; simpl;
    destruct (max_calls <=? _)%Z eqn:E; try discriminate.
  - intros [= <- <- <-]. apply Z.leb_gt in E. auto.
  - intros H. apply IH in H as (H1 & H2 & H3).
    split; [assumption|]. split; [|lia].
    etransitivity; [exact H2|]. apply sublist_List_filter.
  - intros [= <- <- <-]. apply Z.leb_gt in E. auto.
Qed.

Lemma await_tokens_spec (fuel : nat) (clock : nat -> Q)
    (max_tokens estimated : Z) (reading reading' : nat) (now now' : Q)
    (token_usage token_usage' : list (Q * Z)) :
  await_tokens fuel clock max_tokens estimated reading now token_usage
  = Some (reading', now', token_usage') ->
  (tokens_used token_usage' + estimated <= max_tokens)%Z
  /\ sublist token_usage' token_usage
  /\ reading <= reading'.
Proof.
  revert reading now token_usage.
  induction fuel as [|fuel IH]; intros reading now token_usage; simpl;
    destruct (max_tokens <? _)%Z eqn:E; try discriminate.
  - intros [= <- <- <-]. apply Z.ltb_ge in E. auto.
  - intros H. apply IH in H as (H1 & H2 & H3).
    split; [assumption|]. split; [|lia].
    etransitivity; [exact H2|]. apply sublist_List_filter.
  - intros [= <- <- <-]. apply Z.ltb_ge in E. auto.
Qed.

(** The budgets hold after every [acquire] that returns. The limiter then
    records at most [max_calls] calls and at most [max_tokens] tokens,
    this call included; what it records besides this call was recorded
    before, in the same order; the budgets themselves are unchanged. *)
Theorem acquire_keeps_budgets (fuel : nat) (clock : nat -> Q)
    (self after : RateLimiter.t) (estimated : Z) (slept : nat) :
  acquire fuel clock self estimated = Some (after, slept) ->
  (Z.of_nat (length (RateLimiter.call_times after)) <= RateLimiter.max_calls self)%Z
  /\ (tokens_used (RateLimiter.token_usage after) <= RateLimiter.max_tokens self)%Z
  /\ RateLimiter.max_calls after = RateLimiter.max_calls self
  /\ RateLimiter.max_tokens after = RateLimiter.max_tokens self
  /\ exists now calls usage,
       RateLimiter.call_times after = calls ++ [now]
       /\ RateLimiter.token_usage after = usage ++ [(now, estimated)]
       /\ sublist calls (RateLimiter.call_times self)
       /\ sublist usage (RateLimiter.token_usage self).
Proof.
  unfold acquire.
  destruct (await_calls _ _ _ _ _ _) as [[[reading now] calls]|] eqn:Hc;
    [|discriminate].
  destruct (await_tokens _ _ _ _ _ _ _) as [[[reading' now'] usage]|] eqn:Ht;
    [|discriminate].
  intros [= <- <-]. simpl.
  apply await_calls_spec in Hc as (Hc1 & Hc2 & _).
  apply await_tokens_spec in Ht as (Ht1 & Ht2 & _).
  split; [rewrite length_app; simpl; lia|].
  split; [rewrite tokens_used_app, tokens_used_cons; unfold tokens_used at 2;
          simpl; lia|].
  split; [reflexivity|]. split; [reflexivity|].
  exists now', calls, usage. split; [reflexivity|]. split; [reflexivity|].
  split; (etransitivity; [eassumption|]); apply sublist_List_filter.
Qed.

(** One call recorded ten seconds ago, a small request. *)
Definition busy_limiter : RateLimiter.t :=
  {| RateLimiter.max_calls := 1;
     RateLimiter.max_tokens := 14000;
     RateLimiter.call_times := [90%Q];
     RateLimiter.token_usage := [(90%Q, 5000%Z)] |}.

Definition ticking (reading : nat) : Q := inject_Z (100 + Z.of_nat reading).

Definition after_waiting : RateLimiter.t :=
  {| RateLimiter.max_calls := 1;
     RateLimiter.max_tokens := 14000;
     RateLimiter.call_times := [ticking 50];
     RateLimiter.token_usage := [(90%Q, 5000%Z); (ticking 50, 5000%Z)] |}.

Lemma acquire_keeps_budgets_witness :
  (Z.of_nat (length (RateLimiter.call_times after_waiting))
   <= RateLimiter.max_calls busy_limiter)%Z
  /\ (tokens_used (RateLimiter.token_usage after_waiting)
      <= RateLimiter.max_tokens busy_limiter)%Z
  /\ RateLimiter.max_calls after_waiting = RateLimiter.max_calls busy_limiter
  /\ RateLimiter.max_tokens after_waiting = RateLimiter.max_tokens busy_limiter
  /\ exists now calls usage,
       RateLimiter.call_times after_waiting = calls ++ [now]
       /\ RateLimiter.token_usage after_waiting = usage ++ [(now, 5000%Z)]
       /\ sublist calls (RateLimiter.call_times busy_limiter)
       /\ sublist usage (RateLimiter.token_usage busy_limiter).
Proof.
  apply (acquire_keeps_budgets 60 ticking busy_limiter after_waiting 5000 50).
  vm_compute. reflexivity.
Defined.
From Stdlib Require Import Lqa.

(** ** When [acquire] returns *)

(** A clock on which every second slept shows. *)
Definition advances (clock : nat -> Q) : Prop :=
  forall reading, (clock reading + 1 <= clock (S reading))%Q.

Lemma advances_by (clock : nat -> Q) (reading k : nat) :
  advances clock ->
  (clock reading + inject_Z (Z.of_nat k) <= clock (reading + k)%nat)%Q.
Proof.
  intros Hadv. induction k as [|k IH].
  - rewrite Nat.add_0_r. change (inject_Z (Z.of_nat 0)) with 0%Q. lra.
  - replace (reading + S k) with (S (reading + k)) by lia.
    specialize (Hadv (reading + k)).
    rewrite Nat2Z.inj_succ. unfold Z.succ. rewrite inject_Z_plus.
    change (inject_Z 1) with 1%Q. lra.
Qed.

(** After a minute nothing recorded before the call is left. *)
Lemma filter_after_minute {A} (time : A -> Q) (clock : nat -> Q) (reading : nat)
    (entries : list A) :
  advances clock -> 60 <= reading ->
  Forall (fun entry => (time entry <= clock 0%nat)%Q) entries ->
  List.filter (fun entry => within_minute (clock reading) (time entry)) entries = [].
Proof.
  intros Hadv Hr Hold.
  induction Hold as [|e l He _ IH]; [reflexivity|]. simpl.
  destruct (within_minute (clock reading) (time e)) eqn:E; [|exact IH].
  apply Qlt_bool_true_iff in E.
  pose proof (advances_by clock 0 reading Hadv) as H. simpl in H.
  assert (inject_Z 60 <= inject_Z (Z.of_nat reading))%Q
    by (rewrite <- Zle_Qle; lia).
  change (inject_Z 60) with 60%Q in *. lra.
Qed.

Lemma Forall_List_filter {A} (P : A -> Prop) (p : A -> bool) (l : list A) :
  Forall P l -> Forall P (List.filter p l).
Proof.
  rewrite !List.Forall_forall. intros H x Hx.
  apply List.filter_In in Hx. apply H, Hx.
Qed.

Lemma await_calls_returns (fuel : nat) (clock : nat -> Q) (max_calls : Z)
    (reading : nat) (call_times : list Q) :
  advances clock -> (1 <= max_calls)%Z ->
  Forall (fun t => (t <= clock 0%nat)%Q) call_times ->
  List.filter (within_minute (clock reading)) call_times = call_times ->
  60 <= reading + fuel ->
  exists reading' call_times',
    await_calls fuel clock max_calls reading (clock reading) call_times
    = Some (reading', clock reading', call_times')
    /\ reading' <= Nat.max reading 60.
Proof.
  intros Hadv Hmax. revert reading call_times.
  induction fuel as [|fuel IH]; intros reading call_times Hold Hfresh Hfuel;
    simpl; destruct (max_calls <=? _)%Z eqn:E;
    try (eexists _, _; split; [reflexivity | lia]).
  all: assert (Hearly : reading < 60);
    [ destruct (le_lt_dec 60 reading) as [Hlate | ?]; [exfalso | assumption];
      apply Z.leb_le in E;
      assert (Hempty : call_times = []);
      [ rewrite <- Hfresh;
        apply (filter_after_minute (fun t => t) clock reading call_times); auto
      | subst call_times; simpl in E; lia ]
    | ].
  - lia.
  - destruct (IH (S reading)
                (List.filter (within_minute (clock (S reading))) call_times))
      as (reading' & call_times' & -> & Hr).
    + now apply Forall_List_filter.
    + clear. induction call_times as [|t l IHl]; [reflexivity|]. simpl.
      destruct (within_minute _ t) eqn:E; simpl; [rewrite E|]; congruence.
    + lia.
    + eexists _, _. split; [reflexivity | lia].
Qed.

Lemma await_tokens_returns (fuel : nat) (clock : nat -> Q)
    (max_tokens estimated : Z) (reading : nat) (now : Q)
    (token_usage : list (Q * Z)) :
  advances clock -> (estimated <= max_tokens)%Z ->
  Forall (fun entry : Q * Z => (entry.1 <= clock 0%nat)%Q) token_usage ->
  60 <= fuel ->
  exists reading' now' token_usage',
    await_tokens fuel clock max_tokens estimated reading now token_usage
    = Some (reading', now', token_usage')
    /\ reading' <= Nat.max (S reading) 60.
Proof.
  intros Hadv Hest Hold Hfuel.
  assert (Hgen : forall fuel reading now token_usage,
            Forall (fun entry : Q * Z => (entry.1 <= clock 0%nat)%Q) token_usage ->
            60 <= reading + fuel -> 1 <= fuel ->
            exists reading' now' token_usage',
              await_tokens fuel clock max_tokens estimated reading now token_usage
              = Some (reading', now', token_usage')
              /\ reading' <= Nat.max (S reading) 60).
  { clear fuel reading now token_usage Hold Hfuel.
    induction fuel as [|fuel IH]; intros reading now token_usage Hold Hfuel H1;
      [lia|].
    simpl. destruct (max_tokens <? _)%Z eqn:E;
      [|eexists _, _, _; split; [reflexivity | lia]].
    destruct (decide (60 <= S reading)) as [Hlate | Hearly].
    - rewrite (filter_after_minute (fun entry : Q * Z => entry.1) clock (S reading))
        by auto.
      destruct fuel; simpl;
        rewrite (proj2 (Z.ltb_ge _ _)) by (unfold tokens_used; simpl; lia);
        eexists _, _, _; (split; [reflexivity | lia]).
    - destruct (IH (S reading) (clock (S reading))
                  (List.filter (fun entry : Q * Z =>
                                  within_minute (clock (S reading)) entry.1)
                               token_usage))
        as (reading' & now' & usage' & -> & Hr).
      + now apply Forall_List_filter.
      + lia.
      + lia.
      + eexists _, _, _. split; [reflexivity | lia]. }
  apply Hgen; auto; lia.
Qed.

(** A request that fits is let through within a minute. When the limiter
    allows at least one call a minute, the estimate does not exceed the
    token budget, nothing was recorded after the call began and every
    second slept shows on the clock, [acquire] returns after at most 61
    sleeps of a second. *)
Theorem acquire_returns (fuel : nat) (clock : nat -> Q) (self : RateLimiter.t)
    (estimated : Z) :
  advances clock ->
  (1 <= RateLimiter.max_calls self)%Z ->
  (estimated <= RateLimiter.max_tokens self)%Z ->
  Forall (fun t => (t <= clock 0%nat)%Q) (RateLimiter.call_times self) ->
  Forall (fun entry : Q * Z => (entry.1 <= clock 0%nat)%Q) (RateLimiter.token_usage self) ->
  60 <= fuel ->
  exists after slept,
    acquire fuel clock self estimated = Some (after, slept) /\ slept <= 61.
Proof.
  intros Hadv Hcalls Hest Hold Hold' Hfuel. unfold acquire.
  assert (Hidem : forall l : list Q,
            List.filter (within_minute (clock 0))
                        (List.filter (within_minute (clock 0)) l)
            = List.filter (within_minute (clock 0)) l).
  { induction l as [|t l IHl]; [reflexivity|]. simpl.
    destruct (within_minute _ t) eqn:E; simpl; [rewrite E|]; congruence. }
  destruct (await_calls_returns fuel clock (RateLimiter.max_calls self) 0
              (List.filter (within_minute (clock 0)) (RateLimiter.call_times self))
              Hadv Hcalls (Forall_List_filter _ _ _ Hold) (Hidem _) ltac:(lia))
    as (reading & calls & -> & Hr).
  destruct (await_tokens_returns fuel clock (RateLimiter.max_tokens self)
              estimated reading (clock reading)
              (List.filter (fun entry : Q * Z => within_minute (clock 0) entry.1)
                           (RateLimiter.token_usage self))
              Hadv Hest (Forall_List_filter _ _ _ Hold') Hfuel)
    as (reading' & now' & usage & -> & Hr').
  eexists _, _. split; [reflexivity | lia].
Qed.

Lemma acquire_returns_witness :
  exists after slept,
    acquire 60 ticking busy_limiter 5000 = Some (after, slept) /\ slept <= 61.
Proof.
  apply (acquire_returns 60 ticking busy_limiter 5000).
  - intros reading. unfold ticking. rewrite Nat2Z.inj_succ.
    unfold Z.succ. rewrite !inject_Z_plus.
    change (inject_Z 1) with 1%Q. lra.
  - simpl. lia.
  - simpl. lia.
  - repeat constructor. unfold ticking, Qle. simpl. lia.
  - repeat constructor. unfold ticking, Qle. simpl. lia.
  - lia.
Defined.

(* ================================================================== *)
(** * [app/tools/retrieval.py]: [chunk_text] *)
(* ================================================================== *)

(** An index of a slice of a string of [n] characters: a negative index
    counts from the end, and the result is clamped to the string. *)
Definition slice_index (n : nat) (i : Z) : nat :=
  let i := if (i <? 0)%Z then Z.max 0 (i + Z.of_nat n) else i in
  Z.to_nat (Z.min i (Z.of_nat n)).

(** [s[i:j]] for any integers [i], [j]. *)
Definition slice_Z (s : str) (i j : Z) : str :=
  slice s (slice_index (length s) i) (slice_index (length s) j).

(** The pattern [[.!?] \s+] at the start of [s]: the run of white space
    is greedy and nothing follows it. *)
Definition match_boundary (s : str) : option nat :=
  match s with
  | c :: s' =>
      if is_terminal c then
        match takewhile isspace s' with
        | [] => None
        | spaces => Some (1 + length spaces)
        end
      else None
  | [] => None
  end.

(** The end of the chunk that starts at [start]: [chunk_size] characters
    further or the end of the text, moved back to the last sentence
    boundary found in the last 200 characters when text follows. *)
Definition chunk_end (text : str) (chunk_size start : Z) : Z :=
  let len := Z.of_nat (length text) in
  let end_ := Z.min (start + chunk_size) len in
  (* Try to break at sentence boundary *)
  if (end_ <? len)%Z then
    (* Look for sentence ending in the last 200 chars *)
    let search_start := Z.max (end_ - 200) start in
    match last (finditer match_boundary (slice_Z text search_start end_)) with
    | Some (_, match_end) => (search_start + Z.of_nat match_end)%Z
    | None => end_
    end
  else end_.

(** The [while] loop of [chunk_text]; [None]: still running after [fuel]
    rounds. *)
Fixpoint chunk_loop (fuel : nat) (text : str) (chunk_size overlap : Z)
    (start : Z) (chunks : list (str * Z * Z)) : option (list (str * Z * Z)) :=
  let len := Z.of_nat (length text) in
  if (start <? len)%Z then
    match fuel with
    | O => None
    | S fuel' =>
        let end_ := chunk_end text chunk_size start in
        let chunk := strip (slice_Z text start end_) in
        let chunks :=
          match chunk with
          | [] => chunks
          | _ :: _ => chunks ++ [(chunk, start, end_)]
          end in
        (* Move start with overlap *)
        let start := if (end_ <? len)%Z then (end_ - overlap)%Z else len in
        chunk_loop fuel' text chunk_size overlap start chunks
    end
  else Some chunks.

(** [chunk_text(text, chunk_size, overlap)] *)
Definition chunk_text (fuel : nat) (text : str) (chunk_size overlap : Z)
    : option (list (str * Z * Z)) :=
  let len := Z.of_nat (length text) in
  if (len <=? chunk_size)%Z then Some [(text, 0%Z, len)]
  else chunk_loop fuel text chunk_size overlap 0 [].

(** ** Termination and the chunks *)

Lemma match_boundary_length (s : str) (n : nat) :
  match_boundary s = Some n -> n <= length s.
Proof.
  destruct s as [|c s]; [discriminate|]. simpl.
  destruct (is_terminal c); [|discriminate].
  pose proof (takewhile_length isspace s) as H.
  destruct (takewhile isspace s); [discriminate|].
  intros [= <-]. simpl in *. lia.
Qed.

Lemma spans_within_last (lo hi : nat) (spans : list (nat * nat)) (a b : nat) :
  spans_within lo hi spans -> last spans = Some (a, b) ->
  lo <= a /\ a < b /\ b <= hi.
Proof.
  revert lo. induction spans as [|[a' b'] rest IH]; intros lo; [discriminate|].
  simpl. intros (H1 & H2 & H3 & H4).
  destruct rest as [|s rest].
  - intros [= <- <-]. lia.
  - intros Hl. change (last ((a', b') :: s :: rest)) with (last (s :: rest)) in Hl.
    destruct (IH b' H4 Hl) as (? & ? & ?). lia.
Qed.

Lemma slice_Z_inside (s : str) (i j : Z) :
  (0 <= i)%Z -> (i <= j)%Z -> (j <= Z.of_nat (length s))%Z ->
  slice_Z s i j = slice s (Z.to_nat i) (Z.to_nat j)
  /\ length (slice_Z s i j) = Z.to_nat (j - i).
Proof.
  intros Hi Hij Hj. unfold slice_Z, slice_index.
  rewrite !(proj2 (Z.ltb_ge _ _)) by lia.
  rewrite !Z.min_l by lia. split; [reflexivity|].
  unfold slice. rewrite length_take, length_drop. lia.
Qed.

(** Where a chunk ends. *)
Lemma chunk_end_bounds (text : str) (chunk_size start : Z) :
  (200 <= chunk_size)%Z -> (0 <= start)%Z ->
  (start < Z.of_nat (length text))%Z ->
  let end_ := chunk_end text chunk_size start in
  ((start + chunk_size - 200 < end_)%Z /\ (end_ <= start + chunk_size)%Z
   /\ (end_ < Z.of_nat (length text))%Z)
  \/ (end_ = Z.of_nat (length text)
      /\ (Z.of_nat (length text) <= start + chunk_size)%Z).
Proof.
  intros Hsize Hstart Hlen. cbv zeta. unfold chunk_end.
  destruct (Z.min (start + chunk_size) (Z.of_nat (length text))
            <? Z.of_nat (length text))%Z eqn:E.
  - apply Z.ltb_lt in E. left.
    rewrite Z.min_l in * by lia. rewrite Z.max_l by lia.
    destruct (slice_Z_inside text (start + chunk_size - 200) (start + chunk_size))
      as [_ Hl]; [lia..|].
    pose proof (finditer_within match_boundary match_boundary_length
                  (slice_Z text (start + chunk_size - 200) (start + chunk_size)))
      as Hw.
    destruct (last _) as [[a b]|] eqn:El; [|lia].
    destruct (spans_within_last _ _ _ _ _ Hw El) as (? & ? & ?). lia.
  - apply Z.ltb_ge in E. right. lia.
Qed.

Lemma dropwhile_nil (p : ascii -> bool) (s : str) :
  dropwhile p s = [] -> Forall (fun c => p c = true) s.
Proof.
  intros H. rewrite <- (takewhile_dropwhile p s), H, app_nil_r.
  apply takewhile_Forall.
Qed.

(** Only white space strips to nothing. *)
Lemma strip_nil (s : str) :
  strip s = [] -> Forall (fun c => isspace c = true) s.
Proof.
  unfold strip. intros H.
  destruct (lstrip s) as [|c t] eqn:E; [now apply dropwhile_nil|].
  exfalso. pose proof (lstrip_head s c t E) as Hc.
  unfold rstrip in H. apply (f_equal reverse) in H.
  rewrite reverse_involutive in H. change (reverse []) with (@nil ascii) in H.
  apply dropwhile_nil in H.
  assert (Hin : c ∈ reverse (c :: t)).
  { rewrite reverse_cons. apply elem_of_app. right.
    now apply list_elem_of_singleton. }
  rewrite List.Forall_forall in H.
  apply list_elem_of_In in Hin. apply H in Hin. congruence.
Qed.

Lemma slice_lookup (s : str) (i j p : nat) (c : ascii) :
  s !! p = Some c -> i <= p -> p < j -> c ∈ slice s i j.
Proof.
  intros Hp Hi Hj. unfold slice. apply list_elem_of_lookup.
  exists (p - i). rewrite lookup_take, lookup_drop.
  destruct (decide (p - i < j - i)); [|lia].
  now replace (i + (p - i)) with p by lia.
Qed.

(** What holds of a chunk of the loop. *)
Definition chunk_ok (text : str) (chunk_size : Z) (c : str * Z * Z) : Prop :=
  let '(chunk, start, end_) := c in
  (0 <= start)%Z /\ (start < end_)%Z /\ (end_ <= Z.of_nat (length text))%Z
  /\ (end_ - start <= chunk_size)%Z
  /\ chunk = strip (slice_Z text start end_)
  /\ chunk <> [].

(** A later chunk starts and ends after an earlier one. *)
Definition chunk_before (c c' : str * Z * Z) : Prop :=
  (c.1.2 < c'.1.2)%Z /\ (c.2 < c'.2)%Z.

(** The characters before [covered] that are not white space lie in a
    chunk. *)
Definition covers (text : str) (chunks : list (str * Z * Z)) (covered : Z) : Prop :=
  forall p c,
    text !! p = Some c -> isspace c = false -> (Z.of_nat p < covered)%Z ->
    exists chunk start end_,
      (chunk, start, end_) ∈ chunks
      /\ (start <= Z.of_nat p)%Z /\ (Z.of_nat p < end_)%Z.

Lemma chunk_loop_spec (fuel : nat) (text : str) (chunk_size overlap : Z)
    (start covered : Z) (chunks : list (str * Z * Z)) :
  (0 <= overlap)%Z -> (overlap + 200 <= chunk_size)%Z ->
  (0 <= start)%Z -> (start <= covered)%Z ->
  (covered <= Z.of_nat (length text))%Z ->
  (covered <= start + overlap)%Z ->
  ((start < Z.of_nat (length text))%Z -> (covered < Z.of_nat (length text))%Z) ->
  Forall (chunk_ok text chunk_size) chunks ->
  Forall (fun c : str * Z * Z => (c.1.2 < start)%Z /\ (c.2 <= covered)%Z) chunks ->
  StronglySorted chunk_before chunks ->
  covers text chunks covered ->
  (Z.of_nat (length text) - start <= Z.of_nat fuel)%Z ->
  exists result,
    chunk_loop fuel text chunk_size overlap start chunks = Some result
    /\ Forall (chunk_ok text chunk_size) result
    /\ StronglySorted chunk_before result
    /\ covers text result (Z.of_nat (length text)).
Proof.
  intros Hov Hsize. revert start covered chunks.
  induction fuel as [|fuel IH];
    intros start covered chunks H0 Hsc Hcl Hcs Hlt Hok Hbound Hsorted Hcov Hfuel;
    cbn [chunk_loop]; destruct (start <? Z.of_nat (length text))%Z eqn:E.
  - apply Z.ltb_lt in E. lia.
  - apply Z.ltb_ge in E. exists chunks. repeat split; auto.
    intros p c Hp Hc Hlt'. apply (Hcov p c Hp Hc).
    apply lookup_lt_Some in Hp. lia.
  - apply Z.ltb_lt in E. specialize (Hlt E).
    pose proof (chunk_end_bounds text chunk_size start ltac:(lia) H0 E) as Hend.
    cbv zeta in Hend.
    set (end_ := chunk_end text chunk_size start) in *.
    set (chunk := strip (slice_Z text start end_)).
    set (chunks' := match chunk with
                    | [] => chunks
                    | _ :: _ => chunks ++ [(chunk, start, end_)]
                    end).
    set (start' := if (end_ <? Z.of_nat (length text))%Z
                   then (end_ - overlap)%Z else Z.of_nat (length text)).
    assert (Hend' : (start < end_)%Z /\ (end_ <= Z.of_nat (length text))%Z
                    /\ (end_ - start <= chunk_size)%Z /\ (covered < end_)%Z)
      by lia.
    destruct Hend' as (Hse & Hel & Hes & Hce).
    assert (Hstart' : (start < start')%Z /\ (start' <= end_)%Z
                      /\ (end_ <= start' + overlap)%Z
                      /\ ((start' < Z.of_nat (length text))%Z ->
                          (end_ < Z.of_nat (length text))%Z)).
    { unfold start'. destruct (end_ <? Z.of_nat (length text))%Z eqn:E'.
      - apply Z.ltb_lt in E'. lia.
      - apply Z.ltb_ge in E'. lia. }
    destruct Hstart' as (Hs1 & Hs2 & Hs3 & Hs4).
    assert (Hok' : Forall (chunk_ok text chunk_size) chunks').
    { unfold chunks'. destruct chunk as [|c t] eqn:Ec; [assumption|].
      apply Forall_app. split; [assumption|]. constructor; [|constructor].
      unfold chunk_ok. repeat split; try lia; try discriminate.
      symmetry. exact Ec. }
    assert (Hbound' : Forall (fun c : str * Z * Z =>
                                (c.1.2 < start')%Z /\ (c.2 <= end_)%Z) chunks').
    { assert (Hold : Forall (fun c : str * Z * Z =>
                               (c.1.2 < start')%Z /\ (c.2 <= end_)%Z) chunks).
      { eapply Forall_impl; [exact Hbound|]. simpl. intros c [? ?]. lia. }
      unfold chunks'. destruct chunk; [assumption|].
      apply Forall_app. split; [assumption|]. constructor; [|constructor].
      simpl. lia. }
    assert (Hsorted' : StronglySorted chunk_before chunks').
    { unfold chunks'. destruct chunk; [assumption|].
      apply StronglySorted_app_2; [|assumption | repeat constructor].
      intros c c' Hc Hc'. apply list_elem_of_singleton in Hc'. subst c'.
      rewrite List.Forall_forall in Hbound.
      apply list_elem_of_In in Hc. apply Hbound in Hc.
      unfold chunk_before. simpl. lia. }
    assert (Hcov' : covers text chunks' end_).
    { intros p c Hp Hc Hpe.
      destruct (Z.lt_ge_cases (Z.of_nat p) covered) as [Hold | Hnew].
      - destruct (Hcov p c Hp Hc Hold) as (ch & s & e & Hin & ? & ?).
        exists ch, s, e. split; [|lia].
        unfold chunks'. destruct chunk; [assumption|].
        apply elem_of_app. now left.
      - destruct (slice_Z_inside text start end_) as [Hslice _]; [lia..|].
        assert (Hin : c ∈ slice_Z text start end_).
        { rewrite Hslice. apply (slice_lookup text _ _ p); [assumption|lia|lia]. }
        unfold chunks'. destruct chunk as [|c0 t] eqn:Ec.
        + apply strip_nil in Ec. rewrite List.Forall_forall in Ec.
          apply list_elem_of_In in Hin. apply Ec in Hin. congruence.
        + exists (c0 :: t), start, end_. split; [|lia].
          apply elem_of_app. right. now apply list_elem_of_singleton. }
    apply (IH start' end_ chunks'); auto; lia.
  - apply Z.ltb_ge in E. exists chunks. repeat split; auto.
    intros p c Hp Hc Hlt'. apply (Hcov p c Hp Hc).
    apply lookup_lt_Some in Hp. lia.
Qed.

(** [chunk_text] terminates and loses no text. When the overlap is not
    negative and leaves room for the 200 characters searched for a
    sentence boundary ([overlap + 200 <= chunk_size], as with the
    defaults 200 and 1500), the loop ends within [len(text)] rounds. A
    text of at most [chunk_size] characters is returned whole, unstripped.
    Otherwise every chunk is the stripped, non-empty text of a span of at
    most [chunk_size] characters inside the text; the chunks start and end
    in increasing order; and every character that is not white space lies
    in the span of a chunk. *)
Theorem chunk_text_spec (text : str) (chunk_size overlap : Z) :
  (0 <= overlap)%Z -> (overlap + 200 <= chunk_size)%Z ->
  exists chunks,
    chunk_text (length text) text chunk_size overlap = Some chunks
    /\ ((Z.of_nat (length text) <= chunk_size)%Z ->
        chunks = [(text, 0%Z, Z.of_nat (length text))])
    /\ ((chunk_size < Z.of_nat (length text))%Z ->
        Forall (chunk_ok text chunk_size) chunks
        /\ StronglySorted chunk_before chunks
        /\ covers text chunks (Z.of_nat (length text))).
Proof.
  intros Hov Hsize. unfold chunk_text.
  destruct (Z.of_nat (length text) <=? chunk_size)%Z eqn:E.
  - apply Z.leb_le in E. eexists. split; [reflexivity|].
    split; [reflexivity | lia].
  - apply Z.leb_gt in E.
    destruct (chunk_loop_spec (length text) text chunk_size overlap 0 0 [])
      as (result & Hr & H1 & H2 & H3); try lia; try constructor.
    + intros p c _ _ Hp. lia.
    + exists result. split; [assumption|]. split; [lia | auto].
Qed.

(** Three sentences cut into chunks of at most 230 characters. *)
Definition example_text : str :=
  repeat "a"%char 220 ++ py ". " ++ repeat "b"%char 220 ++ py ". "
  ++ repeat "c"%char 100.

Lemma chunk_text_spec_witness :
  exists chunks,
    chunk_text (length example_text) example_text 230 20 = Some chunks
    /\ ((Z.of_nat (length example_text) <= 230)%Z ->
        chunks = [(example_text, 0%Z, Z.of_nat (length example_text))])
    /\ ((230 < Z.of_nat (length example_text))%Z ->
        Forall (chunk_ok example_text 230) chunks
        /\ StronglySorted chunk_before chunks
        /\ covers example_text chunks (Z.of_nat (length example_text))).
Proof.
  apply (chunk_text_spec example_text 230 20); lia.
Defined.

(* ================================================================== *)
(** * [app/agents/sourcer.py] *)
(* ================================================================== *)

Definition high_authority : list str :=
  [py ".edu"; py ".gov"; py ".ac."; py "nature.com"; py "science.org";
   py "ieee.org"].

Definition medium_authority : list str :=
  [py ".org"; py "medium.com"; py "wikipedia.org"].

(** [any(auth in domain_lower for auth in authorities)] *)
Definition any_in (authorities : list str) (domain_lower : str) : bool :=
  existsb (fun auth => contains auth domain_lower) authorities.

Definition calculate_authority_score (domain : str) : Q :=
  let domain_lower := lower domain in
  if any_in high_authority domain_lower then 1
  else if any_in medium_authority domain_lower then 7 # 10
  else 5 # 10.

(** The keywords of an outline: its target keywords and the lower-case
    titles of its sections, as a set. [Outline.sections] holds the title
    of each section. *)
Definition outline_keywords (outline : Outline.t) : gset str :=
  fold_left (fun keywords section => {[lower section]} ∪ keywords)
            (Outline.sections outline)
            (list_to_set (Outline.target_keywords outline)).

(** Whether a keyword occurs in the content or in the title. *)
Definition keyword_matches (content_lower title_lower keyword : str) : bool :=
  contains (lower keyword) content_lower || contains (lower keyword) title_lower.

Definition calculate_relevance_score (source : Source.t) (outline : Outline.t) : Q :=
  (* Combine all keywords from outline *)
  let keywords := outline_keywords outline in
  (* Check how many keywords appear in source *)
  let content_lower := lower (Source.raw_content source) in
  let title_lower := lower (Source.title source) in
  let matches :=
    fold_left (fun matches keyword =>
                 if keyword_matches content_lower title_lower keyword
                 then S matches else matches)
              (elements keywords) 0 in
  (* Normalize *)
  if bool_decide (keywords = ∅) then 5 # 10
  else
    let ratio := (inject_Z (Z.of_nat matches) / inject_Z (Z.of_nat (size keywords)))%Q in
    if Qlt_bool 1 ratio then 1 else ratio.

(** The source with its two scores set. *)
Definition with_scores (relevance authority : Q) (source : Source.t) : Source.t :=
  {| Source.source_id := Source.source_id source;
     Source.url := Source.url source;
     Source.domain := Source.domain source;
     Source.title := Source.title source;
     Source.author := Source.author source;
     Source.published_date := Source.published_date source;
     Source.raw_content := Source.raw_content source;
     Source.content_hash := Source.content_hash source;
     Source.fetch_timestamp := Source.fetch_timestamp source;
     Source.relevance_score := relevance;
     Source.authority_score := authority |}.

(** The sort key: 60% relevance, 40% authority. *)
Definition combined_score (s : Source.t) : Q :=
  ((6 # 10) * Source.relevance_score s + (4 # 10) * Source.authority_score s)%Q.

(** [sources.sort(key=.., reverse=True)]: stable, the highest key first,
    sources with equal keys in the order they come in. *)
Fixpoint insert_by_score (x : Source.t) (sorted : list Source.t) : list Source.t :=
  match sorted with
  | [] => [x]
  | y :: rest =>
      if Qlt_bool (combined_score x) (combined_score y)
      then y :: insert_by_score x rest
      else x :: y :: rest
  end.

Definition sort_by_score (sources : list Source.t) : list Source.t :=
  foldr insert_by_score [] sources.

Definition score_source (outline : Outline.t) (source : Source.t) : Source.t :=
  (* Calculate scores *)
  let authority := calculate_authority_score (Source.domain source) in
  let relevance := calculate_relevance_score source outline in
  with_scores relevance authority source.

Definition rank_sources (sources : list Source.t) (outline : Outline.t)
    : list Source.t :=
  sort_by_score (map (score_source outline) sources).

(** [xs[:n]] for any integer [n]. *)
Definition take_Z {A} (n : Z) (xs : list A) : list A :=
  take (slice_index (length xs) n) xs.

(** The text of the selection rationale. *)
Definition top_source_line (s : Source.t) : str :=
  py "- " ++ Source.title s ++ py " (" ++ Source.domain s
  ++ py ") - relevance: " ++ format_fixed 2 (Source.relevance_score s)
  ++ py ", authority: " ++ format_fixed 2 (Source.authority_score s).

Definition selection_rationale (selected : list Source.t) (candidates : nat)
    (unique_domains : nat) : str :=
  strip
    (newline ++ py "Selected " ++ str_of_nat (length selected)
     ++ py " sources from " ++ str_of_nat candidates ++ py " candidates."
     ++ newline ++ py "Criteria:"
     ++ newline ++ py "- Relevance to outline topics and keywords"
     ++ newline
     ++ py "- Domain authority (preferred .edu, .gov, established publications)"
     ++ newline ++ py "- Content diversity (covering different aspects)"
     ++ newline ++ py "- Recency and accessibility"
     ++ newline ++ newline
     ++ py "Diversity: " ++ str_of_nat unique_domains
     ++ py " unique domains out of " ++ str_of_nat (length selected)
     ++ py " sources."
     ++ newline ++ newline ++ py "Top sources:" ++ newline
     ++ join newline (map top_source_line (take 5 selected))
     ++ newline).

(** [harvest_sources(outline, max_sources, max_search_results)], over the
    search of one query and the scraping of one URL ([None] when it
    fails), which reach outside the repository. *)
Definition harvest_sources (search : str -> Z -> result (list SearchResult.t))
    (scrape_url : str -> option Source.t)
    (outline : Outline.t) (max_sources max_search_results : Z) : SourcePack.t :=
  (* Build search queries from outline *)
  let queries := [Outline.title outline] in
  (* Add section-specific queries *)
  let queries := queries ++ Outline.sections outline in
  (* Add keyword queries *)
  let queries := queries ++ take 3 (Outline.target_keywords outline) in
  (* Search for sources *)
  let search_results :=
    multi_query_search search queries
      (max_search_results / Z.of_nat (length queries))%Z in
  (* Extract URLs *)
  let urls := map SearchResult.url (take_Z max_search_results search_results) in
  (* Scrape URLs *)
  let sources := omap scrape_url urls in
  (* Deduplicate *)
  let sources := deduplicate_sources sources in
  (* Rank sources *)
  let sources := rank_sources sources outline in
  (* Select top N *)
  let selected_sources := take_Z max_sources sources in
  (* Calculate diversity score (unique domains) *)
  let unique_domains :=
    size (list_to_set (map Source.domain selected_sources) : gset str) in
  let diversity_score :=
    match selected_sources with
    | [] => 0%Q
    | _ :: _ =>
        (inject_Z (Z.of_nat unique_domains)
         / inject_Z (Z.of_nat (length selected_sources)))%Q
    end in
  {| SourcePack.sources := selected_sources;
     SourcePack.selection_rationale :=
       selection_rationale selected_sources (length sources) unique_domains;
     SourcePack.total_candidates := Z.of_nat (length sources);
     SourcePack.diversity_score := diversity_score |}.

(** ** The scores *)

Lemma lower_char_idemp (c : ascii) : lower_char (lower_char c) = lower_char c.
Proof. destruct c as [[] [] [] [] [] [] [] []]; reflexivity. Qed.

Lemma lower_idemp (s : str) : lower (lower s) = lower s.
Proof.
  unfold lower. rewrite map_map. apply map_ext. intros c. apply lower_char_idemp.
Qed.

Lemma contains_trans (a b s : str) :
  contains a b = true -> contains b s = true -> contains a s = true.
Proof.
  rewrite !contains_app. intros (p & q & ->) (p' & q' & ->).
  exists (p' ++ p), (q ++ q'). now rewrite <- !app_assoc.
Qed.

(** The authority of a domain is 1.0, 0.7 or 0.5, and does not depend on
    the case of its letters. It is 1.0 exactly when the lower-case domain
    contains one of [.edu], [.gov], [.ac.], [nature.com], [science.org],
    [ieee.org]; failing that, 0.7 exactly when it contains [.org] or
    [medium.com] (the entry [wikipedia.org] adds nothing: it contains
    [.org]); and 0.5 otherwise. *)
Theorem calculate_authority_score_spec (domain : str) :
  let score := calculate_authority_score domain in
  let d := lower domain in
  calculate_authority_score (lower domain) = score
  /\ (score = 1%Q \/ score = (7 # 10)%Q \/ score = (5 # 10)%Q)
  /\ (score = 1%Q <-> Exists (fun auth => contains auth d = true) high_authority)
  /\ (score = (7 # 10)%Q <->
      ~ Exists (fun auth => contains auth d = true) high_authority
      /\ (contains (py ".org") d = true \/ contains (py "medium.com") d = true)).
Proof.
  cbv zeta. unfold calculate_authority_score. rewrite lower_idemp.
  split; [reflexivity|].
  assert (Hhigh : any_in high_authority (lower domain) = true
                  <-> Exists (fun auth => contains auth (lower domain) = true)
                             high_authority).
  { unfold any_in. rewrite existsb_exists, List.Exists_exists. reflexivity. }
  assert (Hmed : any_in medium_authority (lower domain)
                 = contains (py ".org") (lower domain)
                   || contains (py "medium.com") (lower domain)).
  { assert (Hw : contains (py "wikipedia.org") (lower domain) = true ->
                 contains (py ".org") (lower domain) = true)
      by (apply contains_trans; reflexivity).
    unfold any_in, medium_authority. cbn [existsb]. rewrite orb_false_r.
    destruct (contains (py ".org") (lower domain)),
             (contains (py "medium.com") (lower domain)),
             (contains (py "wikipedia.org") (lower domain));
      try reflexivity.
    specialize (Hw eq_refl). discriminate. }
  rewrite Hmed.
  destruct (any_in high_authority (lower domain)) eqn:E.
  - split; [auto|]. split; [tauto|].
    split; [discriminate|]. intros [H _]. exfalso. apply H, Hhigh. reflexivity.
  - assert (Hno : ~ Exists (fun auth => contains auth (lower domain) = true)
                          high_authority)
      by (intros H; apply Hhigh in H; discriminate).
    destruct (contains (py ".org") (lower domain) ||
              contains (py "medium.com") (lower domain)) eqn:E'.
    + split; [auto|]. split; [split; [discriminate | tauto]|].
      apply orb_true_iff in E'. tauto.
    + split; [auto|]. split; [split; [discriminate | tauto]|].
      apply orb_false_iff in E' as [E1 E2].
      split; [discriminate|]. intros [_ [H | H]]; congruence.
Qed.

Lemma count_matches_le {A} (p : A -> bool) (l : list A) (n : nat) :
  fold_left (fun matches x => if p x then S matches else matches) l n
  = n + length (List.filter p l).
Proof.
  revert n. induction l as [|x l IH]; intros n; simpl; [lia|].
  rewrite IH. destruct (p x); simpl; lia.
Qed.

Lemma filter_length_all {A} (p : A -> bool) (l : list A) :
  length (List.filter p l) = length l <-> Forall (fun x => p x = true) l.
Proof.
  induction l as [|x l IH]; simpl; [split; [constructor | reflexivity]|].
  pose proof (List.filter_length_le p l) as Hle.
  destruct (p x) eqn:E; simpl.
  - split.
    + intros H. constructor; [assumption|]. apply IH. lia.
    + intros H. apply Forall_cons in H as [_ H]. apply IH in H. lia.
  - split; [lia|]. intros H. apply Forall_cons in H as [H _]. congruence.
Qed.


(** The relevance of a source lies between 0 and 1; the cap at 1.0 never
    applies. Without keywords it is 0.5. With keywords it is the share of
    them that occur, in lower case, in the lower-case content or title:
    1 exactly when all of them occur, 0 exactly when none does. *)
Theorem calculate_relevance_score_bounds (source : Source.t) (outline : Outline.t) :
  let score := calculate_relevance_score source outline in
  let keywords := outline_keywords outline in
  let occurs :=
    keyword_matches (lower (Source.raw_content source))
                    (lower (Source.title source)) in
  (0 <= score <= 1)%Q
  /\ (keywords = ∅ -> score = (5 # 10)%Q)
  /\ (keywords <> ∅ ->
      score = (inject_Z (Z.of_nat (length (List.filter occurs (elements keywords))))
               / inject_Z (Z.of_nat (size keywords)))%Q
      /\ ((score == 1)%Q <-> forall keyword, keyword ∈ keywords -> occurs keyword = true)
      /\ ((score == 0)%Q <-> forall keyword, keyword ∈ keywords -> occurs keyword = false)).
Proof.
  cbv zeta. unfold calculate_relevance_score.
  rewrite count_matches_le. cbn [Nat.add].
  set (keywords := outline_keywords outline).
  set (occurs := keyword_matches _ _).
  destruct (bool_decide (keywords = ∅)) eqn:E.
  { apply bool_decide_eq_true in E.
    split; [split; unfold Qle; simpl; lia|]. split; [reflexivity | tauto]. }
  apply bool_decide_eq_false in E.
  assert (Hsize : 0 < size keywords).
  { destruct (decide (size keywords = 0)) as [H0 | ?]; [|lia].
    apply size_empty_inv in H0. exfalso. apply E. now apply leibniz_equiv. }
  pose proof (List.filter_length_le occurs (elements keywords)) as Hle.
  change (length (elements keywords)) with (size keywords) in Hle.
  pose proof (Qdiv_nat_bounds _ _ Hle Hsize) as [Hlo Hhi].
  rewrite (proj2 (Qlt_bool_false_iff _ _)) by assumption.
  split; [split; assumption|]. split; [tauto|]. intros _.
  split; [reflexivity|]. split.
  - rewrite Qdiv_nat_one by assumption.
    change (size keywords) with (length (elements keywords)).
    rewrite filter_length_all, List.Forall_forall.
    split; intros H k Hk.
    + apply H. apply list_elem_of_In. now apply elem_of_elements.
    + apply H. apply elem_of_elements. now apply list_elem_of_In.
  - assert (Hne : ~ (inject_Z (Z.of_nat (size keywords)) == 0)%Q)
      by (unfold Qeq; simpl; lia).
    split.
    + intros H k Hk.
      assert (H0 : length (List.filter occurs (elements keywords)) = 0).
      { apply (Qmult_div_r
                 (inject_Z (Z.of_nat (length (List.filter occurs (elements keywords))))))
          in Hne.
        rewrite H, Qmult_0_r in Hne. unfold Qeq in Hne. simpl in Hne. lia. }
      destruct (occurs k) eqn:Ek; [|reflexivity]. exfalso.
      assert (Hin : In k (List.filter occurs (elements keywords))).
      { apply List.filter_In. split; [|assumption].
        apply list_elem_of_In. now apply elem_of_elements. }
      destruct (List.filter occurs (elements keywords)); [contradiction|].
      discriminate.
    + intros H.
      assert (H0 : List.filter occurs (elements keywords) = []).
      { destruct (List.filter occurs (elements keywords)) as [|k l] eqn:Ef;
          [reflexivity|].
        assert (Hin : In k (List.filter occurs (elements keywords)))
          by (rewrite Ef; now left).
        apply List.filter_In in Hin as [Hin Hk].
        apply list_elem_of_In, elem_of_elements in Hin.
        rewrite (H k Hin) in Hk. discriminate. }
      rewrite H0. simpl. unfold Qdiv. now rewrite Qmult_0_l.
Qed.

(** ** Ranking and selection *)












(** The candidates of a harvest: what could be scraped of the URLs found,
    de-duplicated and ranked. *)
Definition candidates (search : str -> Z -> result (list SearchResult.t))
    (scrape_url : str -> option Source.t) (outline : Outline.t)
    (max_search_results : Z) : list Source.t :=
  let queries :=
    [Outline.title outline] ++ Outline.sections outline
    ++ take 3 (Outline.target_keywords outline) in
  let search_results :=
    multi_query_search search queries
      (max_search_results / Z.of_nat (length queries))%Z in
  rank_sources
    (deduplicate_sources
       (omap scrape_url
          (map SearchResult.url (take_Z max_search_results search_results))))
    outline.





(* ================================================================== *)
(** * [app/llm/json_guard.py]: [ask_llm_json] *)
(* ================================================================== *)

(** A chat message: a dict with the keys [role] and [content]. *)
Module Message.
Record t := mk {
  role : str;
  content : str
}.
End Message.

(** The message dicts alive, by address; a list of messages is a list of
    addresses. [messages.copy()] copies the addresses, not the dicts. *)
Abbreviation store := (list Message.t).

Definition deref (st : store) (refs : list nat) : list Message.t :=
  omap (fun r => st !! r) refs.

(** [get_json_instruction(schema_name)] of [app/llm/prompts.py] *)
Definition get_json_instruction (schema_name : str) : str :=
  strip
    (newline ++ py "Respond ONLY with valid JSON matching the " ++ schema_name
     ++ py " schema." ++ newline
     ++ py "Do not include any explanatory text before or after the JSON."
     ++ newline
     ++ py "Ensure all required fields are present and types are correct."
     ++ newline).

(** The message added after a response that did not validate. *)
Definition error_msg (error schema_name : str) : str :=
  newline ++ py "The previous response had validation errors:" ++ newline
  ++ error ++ newline ++ newline
  ++ py "Please provide a valid JSON response matching the " ++ schema_name
  ++ py " schema exactly." ++ newline
  ++ py "Ensure all required fields are present and have the correct types."
  ++ newline.

(** What [client.chat] does with the messages of one attempt: it returns
    a response with its content, or raises; [ValueError] is told apart
    because [ask_llm_json] catches it. *)
Inductive chat_outcome :=
| Answers (content : option str)
| ChatValueError (message : str)
| ChatError (message : str).

(** [response_model.model_validate(json.loads(content))] *)
Inductive validation (T : Type) :=
| Valid (validated : T)
| JSONDecodeError (message : str)
| ValidationError (message : str).
Arguments Valid {T} validated.
Arguments JSONDecodeError {T} message.
Arguments ValidationError {T} message.

(** The exceptions [ask_llm_json] lets out, with their text. *)
Inductive ask_error :=
| AskValueError (message : str)
| AskValidationError (message : str)
| AskChatError (message : str)
| AskRuntimeError (message : str).

(** [str(e)] *)
Definition error_text (e : ask_error) : str :=
  match e with
  | AskValueError m | AskValidationError m | AskChatError m | AskRuntimeError m => m
  end.

(** What a call of [ask_llm_json] did: its result, the dicts alive after
    it, and the messages each call of [client.chat] was given. *)
Module Ask.
Record t (T : Type) := mk {
  outcome : T + ask_error;
  final_store : store;
  sent : list (list Message.t)
}.
Arguments mk {T} outcome final_store sent.
Arguments outcome {T} t.
Arguments final_store {T} t.
Arguments sent {T} t.
End Ask.

(** The loop of [ask_llm_json] over the attempts still to make. *)
Fixpoint ask_attempts {T} (chat : nat -> list Message.t -> chat_outcome)
    (validate : str -> validation T) (schema_name : str) (max_retries : Z)
    (attempts : list nat) (last_error : option ask_error)
    (st : store) (enhanced_messages : list nat) : Ask.t T :=
  match attempts with
  | [] =>
      (* Should not reach here, but for type safety *)
      match last_error with
      | Some e => Ask.mk (inr e) st []
      | None =>
          Ask.mk (inr (AskRuntimeError (py "Unexpected error in ask_llm_json")))
                 st []
      end
  | attempt :: attempts' =>
      let messages := deref st enhanced_messages in
      (* except (ValidationError, ValueError) as e *)
      let invalid (e : ask_error) : Ask.t T :=
        if (Z.of_nat attempt <? max_retries - 1)%Z then
          (* Add error feedback for retry *)
          let feedback :=
            {| Message.role := py "user";
               Message.content := error_msg (error_text e) schema_name |} in
          let later :=
            ask_attempts chat validate schema_name max_retries attempts'
              (Some e) (st ++ [feedback]) (enhanced_messages ++ [length st]) in
          Ask.mk (Ask.outcome later) (Ask.final_store later)
                 (messages :: Ask.sent later)
        else
          (* Final attempt failed *)
          Ask.mk (inr e) st [messages] in
      match chat attempt messages with
      | ChatError m => Ask.mk (inr (AskChatError m)) st [messages]
      | ChatValueError m => invalid (AskValueError m)
      | Answers None | Answers (Some []) =>
          invalid (AskValueError (py "Empty response from LLM"))
      | Answers (Some content) =>
          (* Parse JSON, validate with Pydantic *)
          match validate content with
          | Valid validated => Ask.mk (inl validated) st [messages]
          | JSONDecodeError m =>
              invalid (AskValueError (py "Invalid JSON response: " ++ m))
          | ValidationError m => invalid (AskValidationError m)
          end
      end
  end.

(** [ask_llm_json(messages, response_model, client, task, max_retries)]:
    [messages] is the caller's list, in the store [st]. *)
Definition ask_llm_json {T} (chat : nat -> list Message.t -> chat_outcome)
    (validate : str -> validation T) (schema_name : str) (max_retries : Z)
    (st : store) (messages : list nat) : Ask.t T :=
  (* Add JSON instruction *)
  let json_instruction := get_json_instruction schema_name in
  (* Append to system message or last user message *)
  let enhanced_messages := messages in
  let '(st, enhanced_messages) :=
    match last enhanced_messages ≫= (fun r => (fun m => (r, m)) <$> st !! r) with
    | Some (r, m) =>
        if bool_decide (Message.role m = py "user") then
          (<[r := {| Message.role := Message.role m;
                     Message.content :=
                       Message.content m ++ newline ++ newline ++ json_instruction |}]>
             st,
           enhanced_messages)
        else
          (st ++ [{| Message.role := py "user"; Message.content := json_instruction |}],
           enhanced_messages ++ [length st])
    | None =>
        (st ++ [{| Message.role := py "user"; Message.content := json_instruction |}],
         enhanced_messages ++ [length st])
    end in
  ask_attempts chat validate schema_name max_retries (range max_retries) None
    st enhanced_messages.

(** ** The retries and the caller's messages *)

(** The feedback message for an error text. *)
Definition feedback (error schema_name : str) : Message.t :=
  {| Message.role := py "user"; Message.content := error_msg error schema_name |}.








(** A system prompt and a question, in a store of their own. *)
Definition example_store : store :=
  [ {| Message.role := py "system"; Message.content := py "You plan articles." |};
    {| Message.role := py "user"; Message.content := py "Plan an article." |} ].

(** The first response is not JSON, the second validates. *)
Definition example_chat (attempt : nat) (messages : list Message.t) : chat_outcome :=
  match attempt with
  | 0 => Answers (Some (py "Sure!"))
  | _ => Answers (Some (py "{}"))
  end.

Definition example_validate (content : str) : validation unit :=
  if bool_decide (content = py "{}") then Valid tt
  else JSONDecodeError (py "Expecting value: line 1 column 1 (char 0)").


Lemma ask_attempts_store {T} (chat : nat -> list Message.t -> chat_outcome)
    (validate : str -> validation T) (schema_name : str) (max_retries : Z)
    (attempts : list nat) (last_error : option ask_error)
    (st : store) (enhanced_messages : list nat) :
  exists extra,
    Ask.final_store
      (ask_attempts chat validate schema_name max_retries attempts last_error
         st enhanced_messages)
    = st ++ extra.
Proof.
  revert last_error st enhanced_messages.
  induction attempts as [|attempt attempts IH]; intros last_error st enhanced.
  - exists []. rewrite app_nil_r. simpl. now destruct last_error.
  - assert (Hretry : forall e,
      exists extra,
        Ask.final_store
          (if (Z.of_nat attempt <? max_retries - 1)%Z
           then Ask.mk
                  (Ask.outcome
                     (ask_attempts chat validate schema_name max_retries attempts
                        (Some e) (st ++ [feedback (error_text e) schema_name])
                        (enhanced ++ [length st])))
                  (Ask.final_store
                     (ask_attempts chat validate schema_name max_retries attempts
                        (Some e) (st ++ [feedback (error_text e) schema_name])
                        (enhanced ++ [length st])))
                  (deref st enhanced
                   :: Ask.sent
                        (ask_attempts chat validate schema_name max_retries
                           attempts (Some e)
                           (st ++ [feedback (error_text e) schema_name])
                           (enhanced ++ [length st])))
           else Ask.mk (inr e) st [deref st enhanced])
        = st ++ extra).
    { intros e. destruct (Z.of_nat attempt <? max_retries - 1)%Z.
      - destruct (IH (Some e) (st ++ [feedback (error_text e) schema_name])
                    (enhanced ++ [length st])) as [extra ->].
        eexists. cbn [Ask.final_store]. now rewrite <- app_assoc.
      - exists []. now rewrite app_nil_r. }
    cbn [ask_attempts].
    destruct (chat attempt (deref st enhanced)) as [[[|c content]|] | m | m];
      [| destruct (validate (c :: content)) | | |];
      try apply Hretry; exists []; now rewrite app_nil_r.
Qed.

(** [ask_llm_json] changes the caller's last message. The copy it takes
    of the list is shallow: when the list ends with a user message, the
    JSON instruction is appended to the content of that very dict, which
    the caller's list holds too (and at every place it holds it). Every
    other dict of the caller's list is as it was, whether the call
    returns or raises. *)
Theorem ask_llm_json_side_effect {T}
    (chat : nat -> list Message.t -> chat_outcome)
    (validate : str -> validation T) (schema_name : str) (max_retries : Z)
    (st : store) (messages : list nat) (r : nat) (m : Message.t) :
  r ∈ messages ->
  st !! r = Some m ->
  let ask := ask_llm_json chat validate schema_name max_retries st messages in
  Ask.final_store ask !! r
  = Some (if bool_decide (last messages = Some r)
             && bool_decide (Message.role m = py "user")
          then {| Message.role := Message.role m;
                  Message.content :=
                    Message.content m ++ newline ++ newline
                    ++ get_json_instruction schema_name |}
          else m).
Proof.
  intros Hin Hm. cbv zeta. unfold ask_llm_json.
  pose proof (lookup_lt_Some _ _ _ Hm) as Hlt.
  assert (Hother : forall st1 enhanced,
            st1 !! r = Some m ->
            Ask.final_store
              (ask_attempts chat validate schema_name max_retries
                 (range max_retries) None st1 enhanced) !! r = Some m).
  { intros st1 enhanced H1.
    destruct (ask_attempts_store chat validate schema_name max_retries
                (range max_retries) None st1 enhanced) as [extra ->].
    rewrite lookup_app_l; [assumption|]. eapply lookup_lt_Some; eassumption. }
  destruct (last messages) as [r'|] eqn:El; cbn [mbind option_bind].
  - destruct (st !! r') as [m'|] eqn:Hm'; cbn [fmap option_fmap option_map].
    + destruct (bool_decide (Message.role m' = py "user")) eqn:Hrole.
      * destruct (ask_attempts_store chat validate schema_name max_retries
                    (range max_retries) None
                    (<[r' := {| Message.role := Message.role m';
                                Message.content :=
                                  Message.content m' ++ newline ++ newline
                                  ++ get_json_instruction schema_name |}]> st)
                    messages) as [extra ->].
        rewrite lookup_app_l by now rewrite length_insert.
        destruct (decide (r = r')) as [-> | Hne].
        -- rewrite list_lookup_insert_eq by assumption.
           rewrite bool_decide_eq_true_2 by reflexivity.
           assert (m' = m) by congruence. subst m'. now rewrite Hrole.
        -- rewrite list_lookup_insert_ne by congruence.
           rewrite bool_decide_eq_false_2 by congruence. assumption.
      * rewrite Hother by (rewrite lookup_app_l; assumption).
        destruct (decide (r = r')) as [-> | Hne].
        -- assert (m' = m) by congruence. subst m'. rewrite Hrole.
           now rewrite andb_false_r.
        -- now rewrite bool_decide_eq_false_2 by congruence.
    + rewrite Hother by (rewrite lookup_app_l; assumption).
      rewrite bool_decide_eq_false_2; [reflexivity|].
      intros [= <-]. congruence.
  - rewrite Hother by (rewrite lookup_app_l; assumption).
    now rewrite bool_decide_eq_false_2 by discriminate.
Qed.

Lemma ask_llm_json_side_effect_witness :
  let ask :=
    ask_llm_json example_chat example_validate (py "Outline") 3
      example_store [0; 1] in
  Ask.final_store ask !! 1
  = Some (if bool_decide (last [0; 1] = Some 1)
             && bool_decide (py "user" = py "user")
          then {| Message.role := py "user";
                  Message.content :=
                    py "Plan an article." ++ newline ++ newline
                    ++ get_json_instruction (py "Outline") |}
          else {| Message.role := py "user";
                  Message.content := py "Plan an article." |}).
Proof.
  apply (ask_llm_json_side_effect example_chat example_validate (py "Outline") 3
           example_store [0; 1] 1
           {| Message.role := py "user"; Message.content := py "Plan an article." |}).
  - repeat constructor.
  - reflexivity.
Defined.
